(** * Stream ingestion pipeline: frame buffer, router, processing coordinator

    A shallow embedding of
      - [class StreamBuffer] and [class StreamRouter]
        (src/server/StreamBuffer.ts),
      - [class StreamProcessor] (the module imported as
        ./StreamProcessor; in this tree src/unnamed/part_001),
      - [validateStream], [handleDisconnection] and [addVideoStream] of
        [class StreamIngestionService] (the module imported as
        ./StreamIngestionService; in this tree the second half of
        src/server/index.ts),
    followed by the properties established about them.

    Conventions.
      - A TypeScript [number] that holds a count, a size, a priority or a
        time stamp is a [Z]; comparisons are the ones of the source.
      - The four numbers of a stream configuration (width, height, frame
        rate, bit rate), which [validateStream] and the routing rules
        compare with constants and which arrive unchecked, are
        [Js.number]: an integer or [NaN]. A field that is missing reads
        as [undefined], which every comparison turns into [NaN].
      - A [string] holds the UTF-8 bytes of a JavaScript string.
      - [Math.floor(n * 0.3)] and [Math.floor(n * 0.8)] are written
        [(3 * n) `div` 10] and [(8 * n) `div` 10]: on integers of
        magnitude below 2^50 the double-precision product is within half
        a unit in the last place of the exact one, so both floors agree.
      - A [Map] whose scan order is observable (the two processing
        queues) is an insertion-ordered association list; the other maps
        and the sets, only used through get / set / has / delete / size,
        are [gmap] and [gset].
      - An [EventEmitter] is a log of emitted events; the listeners that
        the components register on each other are run where the event is
        emitted. *)

From stdpp Require Import base option list gmap strings sets.
From Stdlib Require Import ZArith Ascii.

#[local] Open Scope Z_scope.

(** ** JavaScript primitives used by the source *)

Module Js.

(** [Math.floor(n * 0.3)], [Math.floor(n * 0.8)] on an integer [n]. *)
Definition floor_tenths (tenths n : Z) : Z := (tenths * n) `div` 10.

(** A number that may be [NaN]. *)
Inductive number :=
| Int (z : Z)
| NaN.

(** [x <= k], [x > k] and [x >= k] for a constant [k]: a comparison
    with [NaN] is false. *)
Definition le (x : number) (k : Z) : bool :=
  match x with Int z => z <=? k | NaN => false end.

Definition gt (x : number) (k : Z) : bool :=
  match x with Int z => k <? z | NaN => false end.

Definition ge (x : number) (k : Z) : bool :=
  match x with Int z => k <=? z | NaN => false end.

(** [arr.length] as a number. *)
Definition len {A} (l : list A) : Z := Z.of_nat (length l).

(** [arr.splice(0, n)]: the delete count is clamped to [0 .. length];
    the result is the removed prefix and what stays in the array. *)
Definition splice0 {A} (n : Z) (l : list A) : list A * list A :=
  let k := Z.to_nat (Z.min (Z.max n 0) (len l)) in
  (take k l, drop k l).

(** [arr.shift()] on a non-empty array; [None] stands for [undefined]. *)
Definition shift {A} (l : list A) : option (A * list A) :=
  match l with
  | [] => None
  | x :: t => Some (x, t)
  end.

(** The white space and line terminators that [String.prototype.trim]
    strips, as UTF-8: U+0009 to U+000D and U+0020 in one byte; U+00A0
    in two; U+1680, U+2000 to U+200A, U+2028, U+2029, U+202F, U+205F,
    U+3000 and U+FEFF in three. A byte that continues a character
    (128 to 191) starts none of them, so that stripping bytes strips
    whole characters. *)
Definition is_space1 (a : ascii) : bool :=
  let n := nat_of_ascii a in
  ((9 <=? n)%nat && (n <=? 13)%nat) || (n =? 32)%nat.

Definition is_space2 (a b : ascii) : bool :=
  (nat_of_ascii a =? 194)%nat && (nat_of_ascii b =? 160)%nat.

Definition is_space3 (a b c : ascii) : bool :=
  let '(x, y, z) := (nat_of_ascii a, nat_of_ascii b, nat_of_ascii c) in
  ((x =? 225) && (y =? 154) && (z =? 128))%nat
  || ((x =? 226) && (y =? 128)
      && (((128 <=? z) && (z <=? 138)) || (z =? 168) || (z =? 169)
          || (z =? 175)))%nat
  || ((x =? 226) && (y =? 129) && (z =? 159))%nat
  || ((x =? 227) && (y =? 128) && (z =? 128))%nat
  || ((x =? 239) && (y =? 187) && (z =? 191))%nat.

(** [s.trimStart()] *)
Fixpoint trim_start (s : string) : string :=
  match s with
  | EmptyString => s
  | String a t =>
      if is_space1 a then trim_start t
      else
        match t with
        | EmptyString => s
        | String b u =>
            if is_space2 a b then trim_start u
            else
              match u with
              | EmptyString => s
              | String c v => if is_space3 a b c then trim_start v else s
              end
        end
  end.

(** The string is made of white space only. *)
Fixpoint all_space (s : string) : bool :=
  match s with
  | EmptyString => true
  | String a t =>
      if is_space1 a then all_space t
      else
        match t with
        | EmptyString => false
        | String b u =>
            if is_space2 a b then all_space u
            else
              match u with
              | EmptyString => false
              | String c v => if is_space3 a b c then all_space v else false
              end
        end
  end.

(** [s.trimEnd()]: the bytes up to the white space that ends the
    string. *)
Fixpoint trim_end (s : string) : string :=
  match s with
  | EmptyString => s
  | String a t => if all_space s then EmptyString else String a (trim_end t)
  end.

(** [s.trim()] *)
Definition trim (s : string) : string := trim_end (trim_start s).

(** Truthiness of a string: [!s] holds exactly for the empty string. *)
Definition truthy (s : string) : bool :=
  match s with
  | EmptyString => false
  | String _ _ => true
  end.

(** ** Insertion-ordered [Map] *)

Abbreviation omap V := (list (string * V)) (only parsing).

Section OrderedMap.
Context {V : Type}.
Implicit Types m : omap V.

Fixpoint oget (k : string) m : option V :=
  match m with
  | [] => None
  | (k', v) :: t => if String.eqb k k' then Some v else oget k t
  end.

Definition ohas (k : string) m : bool :=
  match oget k m with
  | Some _ => true
  | None => false
  end.

(** [m.set(k, v)]: an existing key keeps its position, a new key goes
    to the end. *)
Fixpoint oset (k : string) (v : V) m : omap V :=
  match m with
  | [] => [(k, v)]
  | (k', v') :: t =>
      if String.eqb k k' then (k, v) :: t else (k', v') :: oset k v t
  end.

Fixpoint odelete (k : string) m : omap V :=
  match m with
  | [] => []
  | (k', v') :: t =>
      if String.eqb k k' then odelete k t else (k', v') :: odelete k t
  end.

Definition okeys m : list string := m.*1.

(** Number of entries stored under [k]. *)
Definition ocount (k : string) m : nat :=
  length (filter (λ e, e.1 = k) m).

End OrderedMap.

End Js.

(** ** Types ([src/types/index.ts]) *)

Inductive VideoFormat := h264 | h265 | vp8 | vp9.

Record VideoFrame := {
  data : list Byte.byte;
  timestamp : Z;
  width : Z;
  height : Z;
  format : VideoFormat
}.

Coercion Js.Int : Z >-> Js.number.

Record Resolution := {
  res_width : Js.number;
  res_height : Js.number
}.

(** The source tests [!stream.config], [!stream.config.resolution] and
    [!stream.frames]: these three fields are optional here. *)
Record StreamConfig := {
  resolution : option Resolution;
  frameRate : Js.number;
  bitrate : Js.number;
  audioEnabled : bool
}.

Record VideoStream := {
  streamId : string;
  userId : string;
  config : option StreamConfig;
  frames : option (list VideoFrame)
}.

Record ValidationResult := {
  isValid : bool;
  errors : list string;
  warnings : list string
}.

(** ** The frame buffer ([class StreamBuffer]) *)

Module StreamBuffer.

Inductive Event :=
| HighWater (streamId : string) (bufferSize : Z)
| LowWater (streamId : string) (bufferSize : Z)
| FrameAdded (streamId : string) (bufferSize : Z) (timestamp : Z)
| FrameRetrieved (streamId : string) (bufferSize : Z) (timestamp : Z)
| FramesRetrieved (streamId : string) (frameCount : Z) (bufferSize : Z)
| Overflow (streamId : string) (removedFrames : Z) (bufferSize : Z)
| Cleared (streamId : string) (clearedFrames : Z)
| Removed (streamId : string) (clearedFrames : Z).

Record t := {
  buffers : gmap string (list VideoFrame);
  maxBufferSize : Z;
  lowWaterMark : Z;
  highWaterMark : Z
}.

Definition with_buffers (b : t) (m : gmap string (list VideoFrame)) : t :=
  {| buffers := m;
     maxBufferSize := maxBufferSize b;
     lowWaterMark := lowWaterMark b;
     highWaterMark := highWaterMark b |}.

(** [new StreamBuffer(maxBufferSize)] *)
Definition create (maxBufferSize : Z) : t :=
  {| buffers := ∅;
     maxBufferSize := maxBufferSize;
     lowWaterMark := Js.floor_tenths 3 maxBufferSize;
     highWaterMark := Js.floor_tenths 8 maxBufferSize |}.

(** [handleOverflow]: on the array held for [streamId]. *)
Definition handleOverflow (sid : string) (buffer : list VideoFrame) (b : t)
  : list VideoFrame * list Event :=
  let framesToRemove := Js.floor_tenths 3 (maxBufferSize b) in
  let '(removedFrames, buffer') := Js.splice0 framesToRemove buffer in
  (buffer', [Overflow sid (Js.len removedFrames) (Js.len buffer')]).

(** [addFrame]: the result is the returned boolean, the buffer
    afterwards, and the events in emission order. *)
Definition addFrame (sid : string) (frame : VideoFrame) (b : t)
  : bool * t * list Event :=
  let buffer := default [] (buffers b !! sid) in
  if maxBufferSize b <=? Js.len buffer then
    let '(buffer', evs) := handleOverflow sid buffer b in
    (false, with_buffers b (<[sid := buffer']> (buffers b)), evs)
  else
    let buffer' := buffer ++ [frame] in
    (true, with_buffers b (<[sid := buffer']> (buffers b)),
     (if Js.len buffer' =? highWaterMark b
      then [HighWater sid (Js.len buffer')] else [])
     ++ [FrameAdded sid (Js.len buffer') (timestamp frame)]).

(** [getNextFrame] *)
Definition getNextFrame (sid : string) (b : t)
  : option VideoFrame * t * list Event :=
  match buffers b !! sid with
  | None => (None, b, [])
  | Some buffer =>
      match Js.shift buffer with
      | None => (None, b, [])
      | Some (frame, buffer') =>
          (Some frame, with_buffers b (<[sid := buffer']> (buffers b)),
           (if Js.len buffer' =? lowWaterMark b
            then [LowWater sid (Js.len buffer')] else [])
           ++ [FrameRetrieved sid (Js.len buffer') (timestamp frame)])
      end
  end.

(** [getFrames] *)
Definition getFrames (sid : string) (count : Z) (b : t)
  : list VideoFrame * t * list Event :=
  match buffers b !! sid with
  | None => ([], b, [])
  | Some buffer =>
      if Js.len buffer =? 0 then ([], b, [])
      else
        let framesToReturn := Z.min count (Js.len buffer) in
        let '(frames, buffer') := Js.splice0 framesToReturn buffer in
        (frames, with_buffers b (<[sid := buffer']> (buffers b)),
         [FramesRetrieved sid (Js.len frames) (Js.len buffer')])
  end.

(** [peekNextFrame] *)
Definition peekNextFrame (sid : string) (b : t) : option VideoFrame :=
  match buffers b !! sid with
  | Some (frame :: _) => Some frame
  | _ => None
  end.

(** [getBufferSize] *)
Definition getBufferSize (sid : string) (b : t) : Z :=
  match buffers b !! sid with
  | Some buffer => Js.len buffer
  | None => 0
  end.

(** [isEmpty] *)
Definition isEmpty (sid : string) (b : t) : bool :=
  getBufferSize sid b =? 0.

(** [isFull] *)
Definition isFull (sid : string) (b : t) : bool :=
  maxBufferSize b <=? getBufferSize sid b.

(** [clearBuffer] *)
Definition clearBuffer (sid : string) (b : t) : t * list Event :=
  match buffers b !! sid with
  | None => (b, [])
  | Some buffer =>
      (with_buffers b (<[sid := []]> (buffers b)),
       [Cleared sid (Js.len buffer)])
  end.

(** [removeStream] *)
Definition removeStream (sid : string) (b : t) : t * list Event :=
  match buffers b !! sid with
  | None => (b, [])
  | Some buffer =>
      (with_buffers b (delete sid (buffers b)),
       [Removed sid (Js.len buffer)])
  end.

(** The calls a client of the buffer can make, for traces. *)
Inductive Call :=
| AddFrame (sid : string) (frame : VideoFrame)
| GetNextFrame (sid : string)
| GetFrames (sid : string) (count : Z)
| ClearBuffer (sid : string)
| RemoveStream (sid : string).

(** One call: the frames handed back to the caller, the buffer
    afterwards, the events emitted. *)
Definition call (c : Call) (b : t) : list VideoFrame * t * list Event :=
  match c with
  | AddFrame sid frame =>
      let '(_, b', evs) := addFrame sid frame b in ([], b', evs)
  | GetNextFrame sid =>
      let '(r, b', evs) := getNextFrame sid b in (option_list r, b', evs)
  | GetFrames sid count => getFrames sid count b
  | ClearBuffer sid => let '(b', evs) := clearBuffer sid b in ([], b', evs)
  | RemoveStream sid => let '(b', evs) := removeStream sid b in ([], b', evs)
  end.

(** A sequence of calls, accumulating returned frames and events. *)
Fixpoint run (cs : list Call) (b : t) : list VideoFrame * t * list Event :=
  match cs with
  | [] => ([], b, [])
  | c :: cs' =>
      let '(out, b', evs) := call c b in
      let '(out', b'', evs') := run cs' b' in
      (out ++ out', b'', evs ++ evs')
  end.

End StreamBuffer.

(** ** The router ([class StreamRouter]) *)

Module StreamRouter.

Inductive Event :=
| RouteAdded (streamId : string) (priority : Z)
| RouteRemoved (streamId : string)
| ProcessingNext (streamId : string).

Record t := {
  processingQueue : Js.omap Z;       (* streamId -> priority *)
  activeRoutes : gset string
}.

(** [new StreamRouter()]; the routing rules, which only [shouldRoute]
    reads, are left out. *)
Definition create : t :=
  {| processingQueue := []; activeRoutes := ∅ |}.

(** [getNextStreamForProcessing]: first entry, in insertion order, of
    the highest priority above -1. *)
Definition scan (acc : Z * option string) (e : string * Z)
  : Z * option string :=
  let '(highestPriority, nextStreamId) := acc in
  if highestPriority <? e.2 then (e.2, Some e.1) else acc.

Definition getNextStreamForProcessing (r : t) : option string :=
  match processingQueue r with
  | [] => None
  | q => (foldl scan (-1, None) q).2
  end.

(** [processQueue] *)
Definition processQueue (r : t) : list Event :=
  match getNextStreamForProcessing r with
  | Some sid => if Js.truthy sid then [ProcessingNext sid] else []
  | None => []
  end.

(** [routeToAI]: the two updates that precede the emission of
    [route:added]. *)
Definition routeToAI_set (sid : string) (priority : Z) (r : t) : t :=
  {| processingQueue := Js.oset sid priority (processingQueue r);
     activeRoutes := {[sid]} ∪ activeRoutes r |}.

(** [removeRoute]: the two updates that precede the emission of
    [route:removed]. *)
Definition removeRoute_delete (sid : string) (r : t) : t :=
  {| processingQueue := Js.odelete sid (processingQueue r);
     activeRoutes := activeRoutes r ∖ {[sid]} |}.

(** [isRouted] *)
Definition isRouted (sid : string) (r : t) : bool :=
  bool_decide (sid ∈ activeRoutes r).

End StreamRouter.

(** ** The processing coordinator ([class StreamProcessor]) *)

Module StreamProcessor.

Record ProcessingJob := {
  job_streamId : string;
  priority : Z;
  queuedAt : Z;
  frameCount : Z;
  retryCount : Z
}.

Definition with_priority (j : ProcessingJob) (p : Z) : ProcessingJob :=
  {| job_streamId := job_streamId j; priority := p; queuedAt := queuedAt j;
     frameCount := frameCount j; retryCount := retryCount j |}.

Definition with_retryCount (j : ProcessingJob) (n : Z) : ProcessingJob :=
  {| job_streamId := job_streamId j; priority := priority j;
     queuedAt := queuedAt j; frameCount := frameCount j; retryCount := n |}.

(** What [processStream] stores per stream. The three quotients of
    [ProcessingMetrics] are floating-point functions of these integers
    and are not computed here. *)
Record Metrics := {
  m_totalTime : Z;
  m_processedFrames : Z;
  m_errors : Z;
  m_queueDepth : Z
}.

(** Where a call of [processNextBatch] that has activated a stream is
    suspended. *)
Inductive PassPoint :=
| AwaitBatch (frames : list VideoFrame) (batchStartTime : Z)
    (* in [await this.processBatch(streamId, frames)] *)
| AwaitYield
    (* in the 1 ms delay that ends the loop body *)
| Settled (threw : bool).
    (* [processStream] has returned or thrown; the [catch] / [finally]
       of [processNextBatch] has not run yet *)

Record Pass := {
  pass_streamId : string;
  pass_startTime : Z;
  pass_processedFrames : Z;
  pass_errors : Z;
  point : PassPoint
}.

Definition at_point (p : Pass) (pt : PassPoint) : Pass :=
  {| pass_streamId := pass_streamId p;
     pass_startTime := pass_startTime p;
     pass_processedFrames := pass_processedFrames p;
     pass_errors := pass_errors p;
     point := pt |}.

(** Callbacks handed to [setTimeout] / [setImmediate] and not run yet.
    A job captured by a retry callback is a reference into the heap of
    job objects. *)
Inductive Task :=
| PollTimer                                   (* [processNextBatch], 10 ms *)
| Immediate                                   (* [processNextBatch] *)
| RetryTimer (streamId : string) (job : nat) (delay : Z).

Inductive Event :=
| ProcessorStarted
| ProcessorStopped
| QueueAdded (streamId : string) (priority : Z) (queueSize : Z)
| QueueRemoved (streamId : string) (queueSize : Z)
| ProcessingStarted (streamId : string) (timestamp : Z)
| AiProcessing (streamId : string) (frameCount : Z)
| FramesEnhanced (streamId : string) (frames : list VideoFrame)
| BatchProcessed (streamId : string) (frameCount : Z) (processingTime : Z)
| BatchError (streamId : string) (frameCount : Z)
| ProcessingCompleted (streamId : string) (totalTime : Z)
    (processedFrames : Z) (errors : Z)
| ProcessingRetry (streamId : string) (retryCount : Z) (delay : Z)
| ProcessingFailed (streamId : string) (retries : Z).

Record t := {
  heap : list ProcessingJob;           (* the job objects, by reference *)
  processingQueue : Js.omap nat;       (* streamId -> job reference *)
  activeProcessing : gset string;
  maxConcurrentStreams : Z;
  processingMetrics : gmap string Metrics;
  isProcessing : bool;
  passes : list Pass;
  tasks : list Task
}.

(** [new StreamProcessor(buffer, router, maxConcurrentStreams)] *)
Definition create (maxConcurrentStreams : Z) : t :=
  {| heap := []; processingQueue := []; activeProcessing := ∅;
     maxConcurrentStreams := maxConcurrentStreams;
     processingMetrics := ∅; isProcessing := false;
     passes := []; tasks := [] |}.

Definition set_heap (h : list ProcessingJob) (p : t) : t :=
  {| heap := h; processingQueue := processingQueue p;
     activeProcessing := activeProcessing p;
     maxConcurrentStreams := maxConcurrentStreams p;
     processingMetrics := processingMetrics p;
     isProcessing := isProcessing p; passes := passes p; tasks := tasks p |}.

Definition set_queue (q : Js.omap nat) (p : t) : t :=
  {| heap := heap p; processingQueue := q;
     activeProcessing := activeProcessing p;
     maxConcurrentStreams := maxConcurrentStreams p;
     processingMetrics := processingMetrics p;
     isProcessing := isProcessing p; passes := passes p; tasks := tasks p |}.

Definition set_active (a : gset string) (p : t) : t :=
  {| heap := heap p; processingQueue := processingQueue p;
     activeProcessing := a;
     maxConcurrentStreams := maxConcurrentStreams p;
     processingMetrics := processingMetrics p;
     isProcessing := isProcessing p; passes := passes p; tasks := tasks p |}.

Definition set_metrics (m : gmap string Metrics) (p : t) : t :=
  {| heap := heap p; processingQueue := processingQueue p;
     activeProcessing := activeProcessing p;
     maxConcurrentStreams := maxConcurrentStreams p;
     processingMetrics := m;
     isProcessing := isProcessing p; passes := passes p; tasks := tasks p |}.

Definition set_isProcessing (b : bool) (p : t) : t :=
  {| heap := heap p; processingQueue := processingQueue p;
     activeProcessing := activeProcessing p;
     maxConcurrentStreams := maxConcurrentStreams p;
     processingMetrics := processingMetrics p;
     isProcessing := b; passes := passes p; tasks := tasks p |}.

Definition set_passes (ps : list Pass) (p : t) : t :=
  {| heap := heap p; processingQueue := processingQueue p;
     activeProcessing := activeProcessing p;
     maxConcurrentStreams := maxConcurrentStreams p;
     processingMetrics := processingMetrics p;
     isProcessing := isProcessing p; passes := ps; tasks := tasks p |}.

Definition set_tasks (ts : list Task) (p : t) : t :=
  {| heap := heap p; processingQueue := processingQueue p;
     activeProcessing := activeProcessing p;
     maxConcurrentStreams := maxConcurrentStreams p;
     processingMetrics := processingMetrics p;
     isProcessing := isProcessing p; passes := passes p; tasks := ts |}.

(** The job object stored under [sid], if any. *)
Definition job_of (sid : string) (p : t) : option (nat * ProcessingJob) :=
  r ← Js.oget sid (processingQueue p);
  j ← heap p !! r;
  Some (r, j).

End StreamProcessor.

(** ** The assembled pipeline

    One buffer, one router and one coordinator wired as
    [StreamIngestionService]'s constructor does, with the service's two
    session maps. The log holds every event once, at the emitter it
    comes from, in emission order. *)

Module Pipeline.
Import StreamProcessor.

Inductive Event :=
| Buf (e : StreamBuffer.Event)
| Rt (e : StreamRouter.Event)
| Pr (e : StreamProcessor.Event)
| StreamAdded (streamId userId : string)
| StreamDisconnected (streamId : string)
| StreamError (streamId : string).

Record Sys := {
  buffer : StreamBuffer.t;
  router : StreamRouter.t;
  processor : StreamProcessor.t;
  activeStreams : gmap string VideoStream;
  userSessions : gmap string string;
  log : list Event
}.

Definition set_buffer (b : StreamBuffer.t) (s : Sys) : Sys :=
  {| buffer := b; router := router s; processor := processor s;
     activeStreams := activeStreams s; userSessions := userSessions s;
     log := log s |}.

Definition set_router (r : StreamRouter.t) (s : Sys) : Sys :=
  {| buffer := buffer s; router := r; processor := processor s;
     activeStreams := activeStreams s; userSessions := userSessions s;
     log := log s |}.

Definition set_processor (p : StreamProcessor.t) (s : Sys) : Sys :=
  {| buffer := buffer s; router := router s; processor := p;
     activeStreams := activeStreams s; userSessions := userSessions s;
     log := log s |}.

Definition set_sessions (a : gmap string VideoStream) (u : gmap string string)
    (s : Sys) : Sys :=
  {| buffer := buffer s; router := router s; processor := processor s;
     activeStreams := a; userSessions := u; log := log s |}.

Definition set_log (l : list Event) (s : Sys) : Sys :=
  {| buffer := buffer s; router := router s; processor := processor s;
     activeStreams := activeStreams s; userSessions := userSessions s;
     log := l |}.

Definition upd_processor (f : StreamProcessor.t → StreamProcessor.t)
    (s : Sys) : Sys :=
  set_processor (f (processor s)) s.

Definition emit (e : Event) (s : Sys) : Sys := set_log (log s ++ [e]) s.

Definition emits (es : list Event) (s : Sys) : Sys :=
  set_log (log s ++ es) s.

(** [new StreamBuffer(bufferSize)], [new StreamRouter()],
    [new StreamProcessor(buffer, router, maxConcurrentStreams)]. *)
Definition create (bufferSize maxConcurrentStreams : Z) : Sys :=
  {| buffer := StreamBuffer.create bufferSize;
     router := StreamRouter.create;
     processor := StreamProcessor.create maxConcurrentStreams;
     activeStreams := ∅; userSessions := ∅; log := [] |}.

(** *** [StreamProcessor] methods *)

(** [getNextProcessingJob]: the loop body, then the method. A reference
    held by the queue always points into the heap; the first case of
    [select] is there for totality. *)
Definition select (s : Sys) (acc : Z * option ProcessingJob)
    (e : string * nat) : Z * option ProcessingJob :=
  let '(highestPriority, selectedJob) := acc in
  match heap (processor s) !! e.2 with
  | None => acc
  | Some job =>
      if bool_decide (job_streamId job ∈ activeProcessing (processor s))
      then acc
      else if StreamBuffer.isEmpty (job_streamId job) (buffer s) then acc
      else if highestPriority <? priority job then (priority job, Some job)
      else acc
  end.

Definition getNextProcessingJob (s : Sys) : option ProcessingJob :=
  match processingQueue (processor s) with
  | [] => None
  | q => (foldl (select s) (-1, None) q).2
  end.

(** The [finally] block of [processStream]. *)
Definition settle (p : Pass) (threw : bool) (now : Z) (s : Sys)
  : Pass * Sys :=
  let sid := pass_streamId p in
  let totalTime := now - pass_startTime p in
  let metrics :=
    {| m_totalTime := totalTime;
       m_processedFrames := pass_processedFrames p;
       m_errors := pass_errors p;
       m_queueDepth := StreamBuffer.getBufferSize sid (buffer s) |} in
  let s1 :=
    upd_processor
      (λ pr, set_metrics (<[sid := metrics]> (processingMetrics pr)) pr) s in
  (at_point p (Settled threw),
   emit (Pr (ProcessingCompleted sid totalTime (pass_processedFrames p)
              (pass_errors p)))
     s1).

(** [processStream] from the loop test to the next suspension: the
    [await] on [processBatch], or the end of the method. *)
Definition loop_head (p : Pass) (now : Z) (s : Sys) : Pass * Sys :=
  let sid := pass_streamId p in
  let batchSize := 5 in
  if isProcessing (processor s) then
    let '(frames, b', evs) := StreamBuffer.getFrames sid batchSize (buffer s) in
    let s1 := emits (Buf <$> evs) (set_buffer b' s) in
    if Js.len frames =? 0 then settle p false now s1
    else
      (at_point p (AwaitBatch frames now),
       emit (Pr (AiProcessing sid (Js.len frames))) s1)
  else settle p false now s.

(** [processStream] up to its first suspension. *)
Definition processStream (sid : string) (now : Z) (s : Sys) : Pass * Sys :=
  let p := {| pass_streamId := sid; pass_startTime := now;
              pass_processedFrames := 0; pass_errors := 0;
              point := AwaitYield |} in
  loop_head p now (emit (Pr (ProcessingStarted sid now)) s).

(** [processNextBatch] up to its suspension in [await processStream]. *)
Definition processNextBatch (now : Z) (s : Sys) : Sys :=
  let pr := processor s in
  if negb (isProcessing pr)
     || (maxConcurrentStreams pr <=? Z.of_nat (size (activeProcessing pr)))
  then s
  else
    match getNextProcessingJob s with
    | None => upd_processor (λ pr, set_tasks (tasks pr ++ [PollTimer]) pr) s
    | Some nextJob =>
        let sid := job_streamId nextJob in
        let s1 := upd_processor
                    (λ pr, set_queue (Js.odelete sid (processingQueue pr))
                             (set_active ({[sid]} ∪ activeProcessing pr) pr))
                    s in
        let '(p, s2) := processStream sid now s1 in
        upd_processor (λ pr, set_passes (passes pr ++ [p]) pr) s2
    end.

(** [addStreamToQueue] *)
Definition addStreamToQueue (sid : string) (prio : Z) (now : Z) (s : Sys)
  : Sys :=
  let pr := processor s in
  match Js.oget sid (processingQueue pr) with
  | Some r =>
      upd_processor
        (set_heap
           (alter (λ job, with_priority job (Z.max (priority job) prio)) r
              (heap pr)))
        s
  | None =>
      let job := {| job_streamId := sid; priority := prio; queuedAt := now;
                    frameCount := StreamBuffer.getBufferSize sid (buffer s);
                    retryCount := 0 |} in
      let r := length (heap pr) in
      let q := Js.oset sid r (processingQueue pr) in
      let s1 :=
        upd_processor (λ pr, set_queue q (set_heap (heap pr ++ [job]) pr)) s in
      let s2 := emit (Pr (QueueAdded sid prio (Js.len q))) s1 in
      if isProcessing (processor s2)
         && (Z.of_nat (size (activeProcessing (processor s2)))
             <? maxConcurrentStreams (processor s2))
      then processNextBatch now s2
      else s2
  end.

(** [removeStreamFromQueue] *)
Definition removeStreamFromQueue (sid : string) (s : Sys) : Sys :=
  let s1 := upd_processor
              (λ pr, set_metrics (delete sid (processingMetrics pr))
                       (set_active (activeProcessing pr ∖ {[sid]})
                          (set_queue (Js.odelete sid (processingQueue pr)) pr)))
              s in
  emit (Pr (QueueRemoved sid (Js.len (processingQueue (processor s1))))) s1.

(** [start] *)
Definition start (now : Z) (s : Sys) : Sys :=
  if isProcessing (processor s) then s
  else
    emit (Pr ProcessorStarted)
      (processNextBatch now (upd_processor (set_isProcessing true) s)).

(** [stop] *)
Definition stop (s : Sys) : Sys :=
  emit (Pr ProcessorStopped)
    (upd_processor
       (λ pr, set_queue [] (set_active ∅ (set_isProcessing false pr))) s).

(** [job?.retryCount || 0] *)
Definition or_zero (n : Z) : Z := if n =? 0 then 0 else n.

(** [handleProcessingError] *)
Definition handleProcessingError (sid : string) (s : Sys) : Sys :=
  match job_of sid (processor s) with
  | Some (r, job) =>
      if retryCount job <? 3 then
        let job' := with_retryCount job (retryCount job + 1) in
        let delay := 2 ^ retryCount job' * 1000 in
        emit (Pr (ProcessingRetry sid (retryCount job') delay))
          (upd_processor
             (λ pr, set_tasks (tasks pr ++ [RetryTimer sid r delay])
                      (set_heap (<[r := job']> (heap pr)) pr))
             s)
      else emit (Pr (ProcessingFailed sid (or_zero (retryCount job)))) s
  | None => emit (Pr (ProcessingFailed sid 0)) s
  end.

(** The listeners of [setupEventHandlers] on the buffer. *)
Definition on_buffer_event (e : StreamBuffer.Event) (now : Z) (s : Sys)
  : Sys :=
  match e with
  | StreamBuffer.FrameAdded sid _ _ =>
      if negb (Js.ohas sid (processingQueue (processor s)))
         && negb (bool_decide (sid ∈ activeProcessing (processor s)))
      then addStreamToQueue sid 1 now s
      else s
  | StreamBuffer.Overflow sid _ _ =>
      match Js.oget sid (processingQueue (processor s)) with
      | Some r =>
          upd_processor
            (λ pr, set_heap
                     (alter (λ job, with_priority job
                                      (Z.min (priority job + 1) 10)) r
                        (heap pr)) pr)
            s
      | None => s
      end
  | _ => s
  end.

(** Emission of buffer events: each is logged, then its listener runs.
    In the source the only events with a listener that changes state
    are emitted last in their method, after the array was updated. *)
Definition deliver (evs : list StreamBuffer.Event) (now : Z) (s : Sys)
  : Sys :=
  foldl (λ s e, on_buffer_event e now (emit (Buf e) s)) s evs.

(** *** Continuations of a suspended [processNextBatch] *)

(** [processBatch] settles for the pass at index [i]: fulfilled
    ([ok = true]) or rejected; then the loop body runs to its 1 ms
    delay. *)
Definition batchDone (i : nat) (ok : bool) (now : Z) (s : Sys) : Sys :=
  match passes (processor s) !! i with
  | Some p =>
      match point p with
      | AwaitBatch frames batchStartTime =>
          let sid := pass_streamId p in
          let '(p', evs) :=
            if ok then
              ({| pass_streamId := sid; pass_startTime := pass_startTime p;
                  pass_processedFrames :=
                    pass_processedFrames p + Js.len frames;
                  pass_errors := pass_errors p; point := AwaitYield |},
               [Pr (FramesEnhanced sid frames);
                Pr (BatchProcessed sid (Js.len frames) (now - batchStartTime))])
            else
              ({| pass_streamId := sid; pass_startTime := pass_startTime p;
                  pass_processedFrames := pass_processedFrames p;
                  pass_errors := pass_errors p + 1; point := AwaitYield |},
               [Pr (BatchError sid (Js.len frames))]) in
          emits evs
            (upd_processor (λ pr, set_passes (<[i := p']> (passes pr)) pr) s)
      | _ => s
      end
  | None => s
  end.

(** The 1 ms delay of the pass at index [i] elapses. *)
Definition yieldDone (i : nat) (now : Z) (s : Sys) : Sys :=
  match passes (processor s) !! i with
  | Some p =>
      match point p with
      | AwaitYield =>
          let '(p', s1) := loop_head p now s in
          upd_processor (λ pr, set_passes (<[i := p']> (passes pr)) pr) s1
      | _ => s
      end
  | None => s
  end.

(** An exception escapes the loop of the pass at index [i] (a listener
    of one of its events throws): the [finally] block runs and
    [processStream] rejects. *)
Definition passThrows (i : nat) (now : Z) (s : Sys) : Sys :=
  match passes (processor s) !! i with
  | Some p =>
      match point p with
      | Settled _ => s
      | _ =>
          let '(p', s1) := settle p true now s in
          upd_processor (λ pr, set_passes (<[i := p']> (passes pr)) pr) s1
      end
  | None => s
  end.

(** The [catch] and [finally] of [processNextBatch] for the pass at
    index [i], once [processStream] has settled. *)
Definition passFinish (i : nat) (s : Sys) : Sys :=
  match passes (processor s) !! i with
  | Some p =>
      match point p with
      | Settled threw =>
          let sid := pass_streamId p in
          let s1 := if threw then handleProcessingError sid s else s in
          upd_processor
            (λ pr, set_passes (delete i (passes pr))
                     (set_tasks (tasks pr ++ [Immediate])
                        (set_active (activeProcessing pr ∖ {[sid]}) pr)))
            s1
      | _ => s
      end
  | None => s
  end.

(** The pending callback at index [k] runs. *)
Definition fire (k : nat) (now : Z) (s : Sys) : Sys :=
  match tasks (processor s) !! k with
  | Some task =>
      let s1 := upd_processor (λ pr, set_tasks (delete k (tasks pr)) pr) s in
      match task with
      | PollTimer | Immediate => processNextBatch now s1
      | RetryTimer sid r _ =>
          processNextBatch now
            (upd_processor
               (λ pr, set_queue (Js.oset sid r (processingQueue pr)) pr) s1)
      end
  | None => s
  end.

(** *** Calls on the buffer and on the router, with their listeners *)

Definition addFrame (sid : string) (frame : VideoFrame) (now : Z) (s : Sys)
  : bool * Sys :=
  let '(r, b', evs) := StreamBuffer.addFrame sid frame (buffer s) in
  (r, deliver evs now (set_buffer b' s)).

Definition getNextFrame (sid : string) (now : Z) (s : Sys)
  : option VideoFrame * Sys :=
  let '(r, b', evs) := StreamBuffer.getNextFrame sid (buffer s) in
  (r, deliver evs now (set_buffer b' s)).

Definition getFrames (sid : string) (count : Z) (now : Z) (s : Sys)
  : list VideoFrame * Sys :=
  let '(r, b', evs) := StreamBuffer.getFrames sid count (buffer s) in
  (r, deliver evs now (set_buffer b' s)).

Definition clearBuffer (sid : string) (now : Z) (s : Sys) : Sys :=
  let '(b', evs) := StreamBuffer.clearBuffer sid (buffer s) in
  deliver evs now (set_buffer b' s).

Definition removeStream (sid : string) (now : Z) (s : Sys) : Sys :=
  let '(b', evs) := StreamBuffer.removeStream sid (buffer s) in
  deliver evs now (set_buffer b' s).

(** [StreamRouter.routeToAI]; the coordinator listens to [route:added]. *)
Definition routeToAI (sid : string) (prio : Z) (now : Z) (s : Sys) : Sys :=
  let s1 := set_router (StreamRouter.routeToAI_set sid prio (router s)) s in
  let s2 := emit (Rt (StreamRouter.RouteAdded sid prio)) s1 in
  let s3 := addStreamToQueue sid prio now s2 in
  emits (Rt <$> StreamRouter.processQueue (router s3)) s3.

(** [StreamRouter.removeRoute]; the coordinator listens to
    [route:removed]. *)
Definition removeRoute (sid : string) (s : Sys) : Sys :=
  let s1 := set_router (StreamRouter.removeRoute_delete sid (router s)) s in
  removeStreamFromQueue sid (emit (Rt (StreamRouter.RouteRemoved sid)) s1).

(** *** [StreamIngestionService] *)

Inductive Result (A : Type) :=
| Ok (a : A)
| Throw (message : string).
Arguments Ok {A} a.
Arguments Throw {A} message.

(** [!s || s.trim() === ''] *)
Definition blank (s : string) : bool :=
  negb (Js.truthy s) || String.eqb (Js.trim s) "".

(** [validateStream]. Reading [resolution.width] of a missing
    resolution, in the high-resolution check, throws a [TypeError]. *)
Definition validateStream (stream : VideoStream) : Result ValidationResult :=
  let e1 := if blank (streamId stream) then ["Stream ID is required"] else [] in
  let e2 := if blank (userId stream) then ["User ID is required"] else [] in
  let frames_warning :=
    match frames stream with
    | None => ["No video frames present in stream"]
    | Some fs =>
        if Js.len fs =? 0 then ["No video frames present in stream"] else []
    end in
  match config stream with
  | None =>
      let errors := e1 ++ e2 ++ ["Stream configuration is required"] in
      Ok {| isValid := Js.len errors =? 0; errors := errors;
            warnings := frames_warning |}
  | Some c =>
      let e3 :=
        match resolution c with
        | None => ["Valid resolution is required"]
        | Some r =>
            if Js.le (res_width r) 0 || Js.le (res_height r) 0
            then ["Valid resolution is required"] else []
        end in
      let e4 := if Js.le (frameRate c) 0 || Js.gt (frameRate c) 120
                then ["Frame rate must be between 1 and 120 fps"] else [] in
      let e5 := if Js.le (bitrate c) 0 then ["Bitrate must be positive"] else [] in
      match resolution c with
      | None => Throw "TypeError: Cannot read properties of undefined"
      | Some r =>
          let w1 := if Js.gt (res_width r) 1920 || Js.gt (res_height r) 1080
                    then ["High resolution may impact processing performance"]
                    else [] in
          let errors := e1 ++ e2 ++ e3 ++ e4 ++ e5 in
          Ok {| isValid := Js.len errors =? 0; errors := errors;
                warnings := w1 ++ frames_warning |}
      end
  end.

(** [handleDisconnection]. Nothing it calls throws, so its [catch],
    which would emit [stream:error], is never entered. *)
Definition handleDisconnection (sid : string) (now : Z) (s : Sys) : Sys :=
  let s1 :=
    match activeStreams s !! sid with
    | Some stream =>
        set_sessions (delete sid (activeStreams s))
          (delete (userId stream) (userSessions s)) s
    | None => s
    end in
  let s2 := removeStream sid now s1 in
  let s3 := removeRoute sid s2 in
  let s4 := removeStreamFromQueue sid s3 in
  emit (StreamDisconnected sid) s4.

(** [addVideoStream] *)
Definition addVideoStream (stream : VideoStream) (now : Z) (s : Sys)
  : Result Sys :=
  match validateStream stream with
  | Throw m => Throw m
  | Ok validation =>
      if negb (isValid validation) then Throw "Invalid stream"
      else
        let s1 :=
          match userSessions s !! userId stream with
          | Some existingStreamId =>
              if Js.truthy existingStreamId
              then handleDisconnection existingStreamId now s
              else s
          | None => s
          end in
        let s2 :=
          set_sessions (<[streamId stream := stream]> (activeStreams s1))
            (<[userId stream := streamId stream]> (userSessions s1)) s1 in
        let s3 :=
          foldl (λ s frame, (addFrame (streamId stream) frame now s).2) s2
            (default [] (frames stream)) in
        Ok (emit (StreamAdded (streamId stream) (userId stream)) s3)
  end.

(** *** Runs *)

Inductive Action :=
(* calls from outside *)
| AddFrame (sid : string) (frame : VideoFrame)
| GetNextFrame (sid : string)
| GetFrames (sid : string) (count : Z)
| ClearBuffer (sid : string)
| RemoveStream (sid : string)
| RouteToAI (sid : string) (priority : Z)
| RemoveRoute (sid : string)
| Start
| Stop
| AddStreamToQueue (sid : string) (priority : Z)
| RemoveStreamFromQueue (sid : string)
| AddVideoStream (stream : VideoStream)
| HandleDisconnection (sid : string)
(* the event loop resumes a suspended pass or runs a callback *)
| BatchDone (i : nat) (ok : bool)
| YieldDone (i : nat)
| PassThrows (i : nat)
| PassFinish (i : nat)
| Fire (k : nat).

(** One turn of the event loop at time [now]. A call that throws
    leaves the state as it was; a continuation that is not pending
    does nothing. *)
Definition step (now : Z) (a : Action) (s : Sys) : Sys :=
  match a with
  | AddFrame sid frame => (addFrame sid frame now s).2
  | GetNextFrame sid => (getNextFrame sid now s).2
  | GetFrames sid count => (getFrames sid count now s).2
  | ClearBuffer sid => clearBuffer sid now s
  | RemoveStream sid => removeStream sid now s
  | RouteToAI sid prio => routeToAI sid prio now s
  | RemoveRoute sid => removeRoute sid s
  | Start => start now s
  | Stop => stop s
  | AddStreamToQueue sid prio => addStreamToQueue sid prio now s
  | RemoveStreamFromQueue sid => removeStreamFromQueue sid s
  | AddVideoStream stream =>
      match addVideoStream stream now s with
      | Ok s' => s'
      | Throw _ => s
      end
  | HandleDisconnection sid => handleDisconnection sid now s
  | BatchDone i ok => batchDone i ok now s
  | YieldDone i => yieldDone i now s
  | PassThrows i => passThrows i now s
  | PassFinish i => passFinish i s
  | Fire k => fire k now s
  end.

Definition run (tr : list (Z * Action)) (s : Sys) : Sys :=
  foldl (λ s na, step na.1 na.2 s) s tr.

End Pipeline.

(** * Properties *)

(** ** Arrays and ordered maps *)

Section JsFacts.
Context {A : Type}.
Implicit Types l : list A.

Lemma len_nonneg l : 0 <= Js.len l.
Proof. unfold Js.len. lia. Qed.

Lemma len_app l1 l2 : Js.len (l1 ++ l2) = Js.len l1 + Js.len l2.
Proof. unfold Js.len. rewrite length_app. lia. Qed.

Lemma len_zero l : Js.len l = 0 ↔ l = [].
Proof.
  unfold Js.len. destruct l; simpl; split; intros H; try done; lia.
Qed.

(** [splice(0, n)] cuts the array in two and keeps the order. *)
Lemma splice0_app n l : (Js.splice0 n l).1 ++ (Js.splice0 n l).2 = l.
Proof. unfold Js.splice0. simpl. apply take_drop. Qed.

Lemma splice0_removed_len n l :
  Js.len (Js.splice0 n l).1 = Z.min (Z.max n 0) (Js.len l).
Proof.
  unfold Js.splice0, Js.len. simpl. rewrite length_take. lia.
Qed.

Lemma splice0_rest_len n l :
  Js.len (Js.splice0 n l).2 = Js.len l - Z.min (Z.max n 0) (Js.len l).
Proof.
  unfold Js.splice0, Js.len. simpl. rewrite length_drop. lia.
Qed.

End JsFacts.

Section OrderedMapFacts.
Context {V : Type}.
Implicit Types (m : Js.omap V) (k : string) (v : V).

Lemma oget_oset_eq k v m : Js.oget k (Js.oset k v m) = Some v.
Proof.
  induction m as [|[k' v'] m IH]; simpl.
  - by rewrite String.eqb_refl.
  - destruct (String.eqb_spec k k') as [->|Hne]; simpl.
    + by rewrite String.eqb_refl.
    + by destruct (String.eqb_spec k k').
Qed.

Lemma oget_oset_ne k k' v m : k ≠ k' → Js.oget k' (Js.oset k v m) = Js.oget k' m.
Proof.
  intros Hne. induction m as [|[k0 v0] m IH]; simpl.
  - by destruct (String.eqb_spec k' k); [subst|].
  - destruct (String.eqb_spec k k0) as [->|Hne0]; simpl.
    + by destruct (String.eqb_spec k' k0); [subst|].
    + by destruct (String.eqb_spec k' k0).
Qed.

Lemma oget_odelete_eq k m : Js.oget k (Js.odelete k m) = None.
Proof.
  induction m as [|[k' v'] m IH]; simpl; [done|].
  destruct (String.eqb_spec k k') as [->|Hne]; simpl; [done|].
  by destruct (String.eqb_spec k k').
Qed.

Lemma oget_odelete_ne k k' m : k ≠ k' → Js.oget k' (Js.odelete k m) = Js.oget k' m.
Proof.
  intros Hne. induction m as [|[k0 v0] m IH]; simpl; [done|].
  destruct (String.eqb_spec k k0) as [->|Hne0]; simpl.
  - by destruct (String.eqb_spec k' k0); [subst|].
  - by destruct (String.eqb_spec k' k0).
Qed.

Lemma ohas_oset k k' v m :
  Js.ohas k' (Js.oset k v m) = bool_decide (k = k') || Js.ohas k' m.
Proof.
  unfold Js.ohas. case_bool_decide as Hk.
  - subst. by rewrite oget_oset_eq.
  - by rewrite oget_oset_ne.
Qed.

Lemma ohas_odelete k k' m :
  Js.ohas k' (Js.odelete k m) = negb (bool_decide (k = k')) && Js.ohas k' m.
Proof.
  unfold Js.ohas. case_bool_decide as Hk.
  - subst. by rewrite oget_odelete_eq.
  - by rewrite oget_odelete_ne.
Qed.

Lemma odelete_absent k m : Js.oget k m = None → Js.odelete k m = m.
Proof.
  induction m as [|[k' v'] m IH]; simpl; [done|].
  destruct (String.eqb_spec k k') as [->|Hne]; [done|].
  intros H. by rewrite IH.
Qed.

Lemma odelete_idemp k m : Js.odelete k (Js.odelete k m) = Js.odelete k m.
Proof. apply odelete_absent, oget_odelete_eq. Qed.

Lemma oget_None_keys k m : Js.oget k m = None ↔ k ∉ Js.okeys m.
Proof.
  unfold Js.okeys. induction m as [|[k' v'] m IH]; simpl.
  - split; [intros _; apply not_elem_of_nil|done].
  - rewrite not_elem_of_cons.
    destruct (String.eqb_spec k k') as [->|Hne]; [|by rewrite IH; intuition].
    split; [done|]. by intros [? _].
Qed.

Lemma okeys_oset k v m :
  Js.okeys (Js.oset k v m)
  = if Js.ohas k m then Js.okeys m else Js.okeys m ++ [k].
Proof.
  unfold Js.okeys, Js.ohas. induction m as [|[k' v'] m IH]; [done|].
  cbn [Js.oset Js.oget].
  destruct (String.eqb_spec k k') as [->|Hne]; [done|].
  rewrite !fmap_cons, IH. by destruct (Js.oget k m).
Qed.

(** [set] never duplicates a key. *)
Lemma oset_NoDup k v m : NoDup (Js.okeys m) → NoDup (Js.okeys (Js.oset k v m)).
Proof.
  intros Hnd. rewrite okeys_oset. unfold Js.ohas.
  destruct (Js.oget k m) eqn:E; [done|].
  apply NoDup_app. split; [done|]. split; [|apply NoDup_singleton].
  intros x Hx Hin. apply list_elem_of_singleton in Hin as ->.
  by apply oget_None_keys in E.
Qed.

Lemma odelete_NoDup k m : NoDup (Js.okeys m) → NoDup (Js.okeys (Js.odelete k m)).
Proof.
  unfold Js.okeys. induction m as [|[k' v'] m IH]; simpl; [done|].
  intros Hnd. apply NoDup_cons in Hnd as [Hnotin Hnd].
  destruct (String.eqb_spec k k') as [->|Hne]; [by apply IH|].
  simpl. apply NoDup_cons. split; [|by apply IH].
  intros Hin. apply Hnotin.
  change (k' ∈ Js.okeys (Js.odelete k m)) in Hin.
  change (k' ∈ Js.okeys m).
  destruct (Js.oget k' m) eqn:E.
  - apply dec_stable. intros Hn. apply oget_None_keys in Hn. congruence.
  - apply oget_None_keys in Hin; [done|]. by rewrite oget_odelete_ne.
Qed.

Lemma ocount_absent k m : Js.oget k m = None → Js.ocount k m = 0%nat.
Proof.
  unfold Js.ocount. induction m as [|[k' v'] m IH]; [done|].
  cbn [Js.oget].
  destruct (String.eqb_spec k k') as [->|Hne]; [done|].
  intros H. rewrite filter_cons. cbn [fst].
  destruct (decide (k' = k)); [by subst|]. by apply IH.
Qed.

(** Keys are distinct: a key that is present has exactly one entry. *)
Lemma ocount_present k v m :
  NoDup (Js.okeys m) → Js.oget k m = Some v → Js.ocount k m = 1%nat.
Proof.
  unfold Js.okeys. induction m as [|[k' v'] m IH]; [done|].
  rewrite fmap_cons. cbn [Js.oget fst].
  intros Hnd. apply NoDup_cons in Hnd as [Hnotin Hnd].
  unfold Js.ocount. rewrite filter_cons. cbn [fst].
  destruct (String.eqb_spec k k') as [->|Hne].
  - intros _. destruct (decide (k' = k')); [|done].
    cbn [length]. f_equal.
    apply (ocount_absent k' m). by apply oget_None_keys.
  - intros H. destruct (decide (k' = k)); [by subst|]. by apply IH.
Qed.

End OrderedMapFacts.

Lemma floor_tenths_bounds n :
  0 <= n → 0 <= Js.floor_tenths 3 n <= n.
Proof.
  intros Hn. unfold Js.floor_tenths. split.
  - apply Z.div_pos; lia.
  - apply Z.div_le_upper_bound; lia.
Qed.

(** ** The frame buffer *)

Section BufferFacts.
Import StreamBuffer.
Implicit Types (b : StreamBuffer.t) (sid : string) (frame : VideoFrame).

(** The array held for a stream, empty when there is none. *)
Definition content sid b : list VideoFrame := default [] (buffers b !! sid).

Lemma getBufferSize_content sid b : getBufferSize sid b = Js.len (content sid b).
Proof. unfold getBufferSize, content. by destruct (buffers b !! sid). Qed.

Lemma content_insert sid sid' l b :
  content sid' (with_buffers b (<[sid := l]> (buffers b)))
  = if decide (sid = sid') then l else content sid' b.
Proof.
  unfold content. simpl. rewrite lookup_insert.
  by destruct (decide (sid = sid')).
Qed.

(** Below capacity the frame goes to the end of the array. *)
Lemma addFrame_below sid frame b :
  Js.len (content sid b) < maxBufferSize b →
  ∃ evs,
    addFrame sid frame b
    = (true, with_buffers b (<[sid := content sid b ++ [frame]]> (buffers b)),
       evs)
    ∧ ∀ e, e ∈ evs → ∀ s n m, e ≠ Overflow s n m.
Proof.
  intros Hlt. unfold addFrame. fold (content sid b).
  destruct (Z.leb_spec (maxBufferSize b) (Js.len (content sid b))) as [?|_];
    [lia|].
  eexists. split; [reflexivity|].
  intros e He s n m ->.
  apply elem_of_app in He as [He|He].
  - destruct (_ =? _); [apply list_elem_of_singleton in He; done|].
    by apply not_elem_of_nil in He.
  - by apply list_elem_of_singleton in He.
Qed.

(** At capacity the oldest frames go, the new frame is not stored, and
    the call answers [false]. *)
Lemma addFrame_at_capacity sid frame b :
  0 <= maxBufferSize b <= Js.len (content sid b) →
  let evicted := Js.floor_tenths 3 (maxBufferSize b) in
  let rest := drop (Z.to_nat evicted) (content sid b) in
  addFrame sid frame b
  = (false, with_buffers b (<[sid := rest]> (buffers b)),
     [Overflow sid evicted (Js.len (content sid b) - evicted)]).
Proof.
  intros [H0 Hle] evicted rest. unfold addFrame. fold (content sid b).
  destruct (Z.leb_spec (maxBufferSize b) (Js.len (content sid b))) as [_|?];
    [|lia].
  unfold handleOverflow.
  pose proof (floor_tenths_bounds _ H0) as Hb. fold evicted in Hb.
  pose proof (splice0_removed_len evicted (content sid b)) as H1.
  pose proof (splice0_rest_len evicted (content sid b)) as H2.
  assert (Hk : Z.min (Z.max evicted 0) (Js.len (content sid b)) = evicted)
    by lia.
  rewrite Hk in H1, H2.
  fold evicted.
  destruct (Js.splice0 evicted (content sid b)) as [removed rest'] eqn:Hs.
  simpl in H1, H2. rewrite H1, H2.
  assert (rest' = rest) as ->; [|done].
  unfold Js.splice0 in Hs. rewrite Hk in Hs. by injection Hs as _ <-.
Qed.

End BufferFacts.

(** *** Scenario: 35 pushes into a buffer of capacity 30 *)

Definition frame_at (n : Z) : VideoFrame :=
  {| data := []; timestamp := n; width := 640; height := 480; format := h264 |}.

(** [n] pushes to [sid], with time stamps [1 .. n]. *)
Definition pushes (sid : string) (n : nat) : list StreamBuffer.Call :=
  (λ i, StreamBuffer.AddFrame sid (frame_at i)) <$> seqZ 1 (Z.of_nat n).

Definition is_overflow (e : StreamBuffer.Event) : bool :=
  match e with
  | StreamBuffer.Overflow _ _ _ => true
  | _ => false
  end.

Definition is_low_water (e : StreamBuffer.Event) : bool :=
  match e with
  | StreamBuffer.LowWater _ _ => true
  | _ => false
  end.

(** C1, as stated, fails: the thirty-first push finds the buffer at
    capacity, evicts nine frames and is itself dropped, so that 35 pushes
    leave 25 frames, frames 10 to 30 and 32 to 35, and not 26. *)
Lemma C1_counterexample :
  let '(_, b, _) := StreamBuffer.run (pushes "s1" 35) (StreamBuffer.create 30) in
  StreamBuffer.getBufferSize "s1" b ≠ 26
  ∧ content "s1" b = frame_at <$> (seqZ 10 21 ++ seqZ 32 4).
Proof. vm_compute. split; [discriminate|reflexivity]. Qed.

(** C1 (amended): a push below capacity appends the frame and answers
    [true]; a push that finds the stream at capacity evicts the oldest
    ⌊0.3·capacity⌋ frames, emits one overflow event carrying that number,
    answers [false] and does not store the new frame. Pushing 35 frames
    one at a time to a fresh stream of capacity 30 gives exactly one
    overflow event, reporting 9 evicted frames, and a final size of 25. *)
Theorem C1_push_at_capacity_evicts_and_drops :
  (∀ sid frame b,
     0 <= StreamBuffer.maxBufferSize b <= Js.len (content sid b) →
     let evicted := Js.floor_tenths 3 (StreamBuffer.maxBufferSize b) in
     StreamBuffer.addFrame sid frame b
     = (false,
        StreamBuffer.with_buffers b
          (<[sid := drop (Z.to_nat evicted) (content sid b)]>
             (StreamBuffer.buffers b)),
        [StreamBuffer.Overflow sid evicted (Js.len (content sid b) - evicted)]))
  ∧ (∀ sid frame b,
       Js.len (content sid b) < StreamBuffer.maxBufferSize b →
       let '(admitted, b', evs) := StreamBuffer.addFrame sid frame b in
       admitted = true
       ∧ content sid b' = content sid b ++ [frame]
       ∧ filter is_overflow evs = [])
  ∧ (let '(_, b, evs) :=
       StreamBuffer.run (pushes "s1" 35) (StreamBuffer.create 30) in
     filter is_overflow evs = [StreamBuffer.Overflow "s1" 9 21]
     ∧ StreamBuffer.getBufferSize "s1" b = 25).
Proof.
  split; [|split].
  - intros sid frame b H. by apply addFrame_at_capacity.
  - intros sid frame b H.
    destruct (addFrame_below sid frame b H) as (evs & -> & Hno).
    split; [done|]. split.
    + rewrite content_insert. by destruct (decide (sid = sid)).
    + induction evs as [|e evs IH]; [done|].
      rewrite filter_cons.
      destruct e; simpl;
        try (apply IH; intros e' He'; apply Hno; by right).
      exfalso. eapply Hno; [left|reflexivity].
  - by vm_compute.
Qed.

(** The amended C1 at the full buffer of the scenario. *)
Lemma C1_witness :
  let b := (StreamBuffer.run (pushes "s1" 30) (StreamBuffer.create 30)).1.2 in
  StreamBuffer.addFrame "s1" (frame_at 31) b
  = (false,
     StreamBuffer.with_buffers b
       (<["s1" := drop 9 (content "s1" b)]> (StreamBuffer.buffers b)),
     [StreamBuffer.Overflow "s1" 9 21]).
Proof.
  intros b.
  exact (proj1 C1_push_at_capacity_evicts_and_drops "s1" (frame_at 31) b
           (conj (proj1 (Z.leb_le 0 30) eq_refl)
              (proj1 (Z.leb_le 30 30) eq_refl))).
Defined.

(** *** Capacity *)

Section Capacity.
Import StreamBuffer.
Implicit Types (b : StreamBuffer.t) (sid : string) (frame : VideoFrame).

(** Every array respects the configured capacity [cap]. *)
Definition bounded (cap : Z) b : Prop :=
  maxBufferSize b = cap ∧ ∀ sid, Js.len (content sid b) <= cap.

Lemma content_delete sid sid' b :
  content sid' (with_buffers b (delete sid (buffers b)))
  = if decide (sid = sid') then [] else content sid' b.
Proof.
  unfold content. simpl. rewrite lookup_delete.
  by destruct (decide (sid = sid')).
Qed.

Lemma content_lookup sid b l : buffers b !! sid = Some l → content sid b = l.
Proof. unfold content. by intros ->. Qed.

Lemma content_absent sid b : buffers b !! sid = None → content sid b = [].
Proof. unfold content. by intros ->. Qed.

Lemma create_bounded cap : 0 <= cap → bounded cap (create cap).
Proof.
  intros H. split; [done|]. intros sid. unfold content. simpl.
  rewrite lookup_empty. simpl. unfold Js.len. simpl. lia.
Qed.

Lemma call_bounded cap c b :
  0 <= cap → bounded cap b → bounded cap (call c b).1.2.
Proof.
  intros Hcap [Hmax Hb]. destruct c as [sid frame|sid|sid count|sid|sid]; simpl.
  - unfold addFrame. fold (content sid b).
    destruct (Z.leb_spec (maxBufferSize b) (Js.len (content sid b))).
    + unfold handleOverflow.
      pose proof (splice0_rest_len (Js.floor_tenths 3 (maxBufferSize b))
                    (content sid b)) as Hr.
      destruct (Js.splice0 _ (content sid b)) as [removed rest]. simpl in *.
      split; [done|]. intros sid'. rewrite content_insert.
      destruct (decide (sid = sid')); [|apply Hb].
      specialize (Hb sid). lia.
    + simpl. split; [done|]. intros sid'. rewrite content_insert.
      destruct (decide (sid = sid')); [|apply Hb].
      rewrite len_app. unfold Js.len at 2. simpl. lia.
  - unfold getNextFrame. destruct (buffers b !! sid) as [buffer|] eqn:E;
      [|done].
    destruct buffer as [|frame rest]; simpl; [done|].
    split; [done|]. intros sid'. rewrite content_insert.
    destruct (decide (sid = sid')); [|apply Hb].
    specialize (Hb sid). rewrite (content_lookup _ _ _ E) in Hb.
    unfold Js.len in *. simpl in Hb. lia.
  - unfold getFrames. destruct (buffers b !! sid) as [buffer|] eqn:E; [|done].
    destruct (Js.len buffer =? 0); [done|].
    pose proof (splice0_rest_len (Z.min count (Js.len buffer)) buffer) as Hr.
    destruct (Js.splice0 _ buffer) as [fs rest]. simpl in *.
    split; [done|]. intros sid'. rewrite content_insert.
    destruct (decide (sid = sid')); [|apply Hb].
    specialize (Hb sid). rewrite (content_lookup _ _ _ E) in Hb. lia.
  - unfold clearBuffer. destruct (buffers b !! sid) as [buffer|] eqn:E;
      [|done].
    simpl. split; [done|]. intros sid'. rewrite content_insert.
    destruct (decide (sid = sid')); [|apply Hb].
    unfold Js.len. simpl. lia.
  - unfold removeStream. destruct (buffers b !! sid) as [buffer|] eqn:E;
      [|done].
    simpl. split; [done|]. intros sid'. rewrite content_delete.
    destruct (decide (sid = sid')); [|apply Hb].
    unfold Js.len. simpl. lia.
Qed.

Lemma run_state_cons c cs b :
  (run (c :: cs) b).1.2 = (run cs (call c b).1.2).1.2.
Proof.
  simpl. destruct (call c b) as [[out b'] evs]. simpl.
  by destruct (run cs b') as [[out' b''] evs'].
Qed.

Lemma run_bounded cap cs b :
  0 <= cap → bounded cap b → bounded cap (run cs b).1.2.
Proof.
  intros Hcap. revert b. induction cs as [|c cs IH]; intros b Hb; [done|].
  rewrite run_state_cons. apply IH. by apply call_bounded.
Qed.

End Capacity.

(** C5, as stated, fails: the push that overflows a full buffer of
    capacity 30 evicts 9 frames and stores nothing, which leaves 21
    frames and not 30 - 9 + 1. *)
Lemma C5_counterexample :
  let b := (StreamBuffer.run (pushes "s1" 30) (StreamBuffer.create 30)).1.2 in
  let '(_, b', evs) := StreamBuffer.addFrame "s1" (frame_at 31) b in
  evs = [StreamBuffer.Overflow "s1" 9 21]
  ∧ StreamBuffer.getBufferSize "s1" b' ≠ 30 - 9 + 1.
Proof. vm_compute. split; [reflexivity|discriminate]. Qed.

(** C5 (amended): in a buffer of capacity [cap >= 0], after any sequence
    of calls the size of every stream is at most [cap]; and immediately
    after a push that overflows, the size is [cap - evictedCount], where
    [evictedCount = ⌊0.3·cap⌋] is the number the overflow event carries. *)
Theorem C5_size_bounded_overflow_leaves_capacity_minus_evicted
    (cap : Z) (cs : list StreamBuffer.Call) (sid : string) (frame : VideoFrame) :
  0 <= cap →
  let b := (StreamBuffer.run cs (StreamBuffer.create cap)).1.2 in
  StreamBuffer.getBufferSize sid b <= cap
  ∧ (let '(_, b', evs) := StreamBuffer.addFrame sid frame b in
     ∀ s evictedCount size,
       StreamBuffer.Overflow s evictedCount size ∈ evs →
       evictedCount = Js.floor_tenths 3 cap
       ∧ StreamBuffer.getBufferSize sid b' = cap - evictedCount
       ∧ size = cap - evictedCount).
Proof.
  intros Hcap b.
  destruct (run_bounded cap cs (StreamBuffer.create cap) Hcap
              (create_bounded cap Hcap)) as [Hmax Hb].
  fold b in Hmax, Hb.
  split; [rewrite getBufferSize_content; apply Hb|].
  destruct (Z.lt_ge_cases (Js.len (content sid b)) (StreamBuffer.maxBufferSize b))
    as [Hlt|Hge].
  - destruct (addFrame_below sid frame b Hlt) as (evs & -> & Hno).
    intros s n m Hin. exfalso. by eapply Hno.
  - specialize (Hb sid).
    rewrite addFrame_at_capacity by lia.
    intros s n m Hin. apply list_elem_of_singleton in Hin.
    injection Hin as -> -> ->.
    rewrite getBufferSize_content, content_insert.
    destruct (decide (sid = sid)); [|done].
    pose proof (floor_tenths_bounds cap Hcap).
    rewrite Hmax. unfold Js.len in *. rewrite length_drop. lia.
Qed.

(** The amended C5 after the thirty pushes that fill a buffer of
    capacity 30. *)
Lemma C5_witness :
  let b := (StreamBuffer.run (pushes "s1" 30) (StreamBuffer.create 30)).1.2 in
  StreamBuffer.getBufferSize "s1" b <= 30
  ∧ (let '(_, b', evs) := StreamBuffer.addFrame "s1" (frame_at 31) b in
     ∀ s evictedCount size,
       StreamBuffer.Overflow s evictedCount size ∈ evs →
       evictedCount = Js.floor_tenths 3 30
       ∧ StreamBuffer.getBufferSize "s1" b' = 30 - evictedCount
       ∧ size = 30 - evictedCount).
Proof.
  exact (C5_size_bounded_overflow_leaves_capacity_minus_evicted
           30 (pushes "s1" 30) "s1" (frame_at 31)
           (proj1 (Z.leb_le 0 30) eq_refl)).
Defined.

(** *** FIFO order *)

Section Fifo.
Import StreamBuffer.
Implicit Types (b : StreamBuffer.t) (sid : string) (frame : VideoFrame).

(** The stream a call is about. *)
Definition call_stream (c : Call) : string :=
  match c with
  | AddFrame sid _ | GetNextFrame sid | GetFrames sid _
  | ClearBuffer sid | RemoveStream sid => sid
  end.

(** The frames pushed to [sid] by a sequence of calls, in push order. *)
Fixpoint pushed sid (cs : list Call) : list VideoFrame :=
  match cs with
  | [] => []
  | AddFrame sid' frame :: cs' =>
      if String.eqb sid' sid then frame :: pushed sid cs' else pushed sid cs'
  | _ :: cs' => pushed sid cs'
  end.

(** The frames that the pops and drains of [sid] hand back, call after
    call. *)
Fixpoint returned sid (cs : list Call) b : list VideoFrame :=
  match cs with
  | [] => []
  | c :: cs' =>
      let '(out, b', _) := call c b in
      (if String.eqb (call_stream c) sid then out else [])
      ++ returned sid cs' b'
  end.

Lemma eqb_decide (s1 s2 : string) :
  String.eqb s1 s2 = bool_decide (s1 = s2).
Proof.
  destruct (String.eqb_spec s1 s2) as [->|Hne].
  - by rewrite bool_decide_eq_true_2.
  - by rewrite bool_decide_eq_false_2.
Qed.

(** A drain hands back a prefix of the array and leaves the rest. *)
Lemma getFrames_prefix sid count b :
  let '(fs, b', _) := getFrames sid count b in
  content sid b = fs ++ content sid b'
  ∧ (0 <= count → Js.len fs <= count)
  ∧ (∀ sid', sid' ≠ sid → content sid' b' = content sid' b).
Proof.
  unfold getFrames. destruct (buffers b !! sid) as [buffer|] eqn:E.
  - destruct (Js.len buffer =? 0).
    + split; [done|]. split; [unfold Js.len; simpl; lia|done].
    + pose proof (splice0_app (Z.min count (Js.len buffer)) buffer) as Happ.
      pose proof (splice0_removed_len (Z.min count (Js.len buffer)) buffer)
        as Hlen.
      destruct (Js.splice0 _ buffer) as [fs rest]. simpl in *.
      rewrite (content_lookup _ _ _ E). split; [|split].
      * rewrite content_insert. by destruct (decide (sid = sid)).
      * intros Hc. pose proof (len_nonneg buffer). lia.
      * intros sid' Hne. rewrite content_insert.
        by destruct (decide (sid = sid')); [subst|].
  - split; [done|]. split; [unfold Js.len; simpl; lia|done].
Qed.

(** A pop hands back the head of the array and leaves the tail. *)
Lemma getNextFrame_head sid b :
  let '(r, b', _) := getNextFrame sid b in
  content sid b = option_list r ++ content sid b'
  ∧ (∀ sid', sid' ≠ sid → content sid' b' = content sid' b).
Proof.
  unfold getNextFrame. destruct (buffers b !! sid) as [buffer|] eqn:E;
    [|done].
  destruct buffer as [|frame rest]; simpl; [done|].
  rewrite (content_lookup _ _ _ E). split.
  - rewrite content_insert. by destruct (decide (sid = sid)).
  - intros sid' Hne. rewrite content_insert.
    by destruct (decide (sid = sid')); [subst|].
Qed.

(** One call: what it hands back, followed by what is kept, is a
    subsequence of what was kept before followed by what it pushes. *)
Lemma call_fifo sid c b :
  let '(out, b', _) := call c b in
  (if String.eqb (call_stream c) sid then out else []) ++ content sid b'
  `sublist_of` content sid b ++ pushed sid [c].
Proof.
  destruct c as [s frame|s|s count|s|s]; simpl.
  - unfold addFrame. fold (content s b).
    destruct (Z.leb_spec (maxBufferSize b) (Js.len (content s b))).
    + unfold handleOverflow. unfold Js.splice0. simpl.
      rewrite content_insert. rewrite eqb_decide.
      destruct (decide (s = sid)) as [->|Hne].
      * rewrite bool_decide_eq_true_2 by done. simpl.
        apply sublist_inserts_r, sublist_drop.
      * rewrite bool_decide_eq_false_2 by done. by rewrite app_nil_r.
    + simpl. rewrite content_insert. rewrite eqb_decide.
      destruct (decide (s = sid)) as [->|Hne].
      * by rewrite bool_decide_eq_true_2 by done.
      * rewrite bool_decide_eq_false_2 by done. by rewrite app_nil_r.
  - pose proof (getNextFrame_head s b) as H.
    destruct (getNextFrame s b) as [[r b'] evs]. destruct H as [H1 H2].
    rewrite app_nil_r, eqb_decide.
    destruct (decide (s = sid)) as [->|Hne].
    + rewrite bool_decide_eq_true_2 by done. by rewrite H1.
    + rewrite bool_decide_eq_false_2 by done. simpl. by rewrite H2.
  - pose proof (getFrames_prefix s count b) as H.
    destruct (getFrames s count b) as [[fs b'] evs]. destruct H as (H1 & _ & H2).
    rewrite app_nil_r, eqb_decide.
    destruct (decide (s = sid)) as [->|Hne].
    + rewrite bool_decide_eq_true_2 by done. by rewrite H1.
    + rewrite bool_decide_eq_false_2 by done. simpl. by rewrite H2.
  - unfold clearBuffer. destruct (buffers b !! s) as [buffer|] eqn:E; simpl.
    + rewrite !app_nil_r. rewrite content_insert.
      destruct (String.eqb s sid), (decide (s = sid));
        simpl; try done; apply sublist_nil_l.
    + rewrite !app_nil_r. by destruct (String.eqb s sid).
  - unfold removeStream. destruct (buffers b !! s) as [buffer|] eqn:E; simpl.
    + rewrite !app_nil_r. rewrite content_delete.
      destruct (String.eqb s sid), (decide (s = sid));
        simpl; try done; apply sublist_nil_l.
    + rewrite !app_nil_r. by destruct (String.eqb s sid).
Qed.

Lemma pushed_cons sid c cs : pushed sid (c :: cs) = pushed sid [c] ++ pushed sid cs.
Proof.
  destruct c; simpl; try done. by destruct (String.eqb _ _).
Qed.

(** Any sequence of calls, from any buffer. *)
Lemma run_fifo sid cs b :
  returned sid cs b ++ content sid (run cs b).1.2
  `sublist_of` content sid b ++ pushed sid cs.
Proof.
  revert b. induction cs as [|c cs IH]; intros b.
  - simpl. by rewrite app_nil_r.
  - rewrite run_state_cons, pushed_cons. simpl.
    pose proof (call_fifo sid c b) as Hc.
    destruct (call c b) as [[out b'] evs]. simpl.
    specialize (IH b').
    rewrite <-(assoc_L (++)).
    etrans; [apply sublist_app; [reflexivity|apply IH]|].
    rewrite !(assoc_L (++)). by apply sublist_app.
Qed.

End Fifo.

(** C8: for any stream and any interleaving of pushes with pops and
    drains (and clears and removals), on this or other streams, the
    concatenation of the frames the pops and drains of the stream hand
    back is a subsequence of the frames pushed to it, in push order; a
    drain hands back at most [maxCount] frames, which are the oldest
    ones in order, and removes exactly those, leaving the other streams
    alone; a pop does the same with the single oldest frame. *)
Theorem C8_drains_and_pops_are_fifo :
  (∀ cap cs sid,
     returned sid cs (StreamBuffer.create cap) `sublist_of` pushed sid cs)
  ∧ (∀ sid maxCount b,
       let '(fs, b', _) := StreamBuffer.getFrames sid maxCount b in
       content sid b = fs ++ content sid b'
       ∧ (0 <= maxCount → Js.len fs <= maxCount)
       ∧ (∀ sid', sid' ≠ sid → content sid' b' = content sid' b))
  ∧ (∀ sid b,
       let '(r, b', _) := StreamBuffer.getNextFrame sid b in
       content sid b = option_list r ++ content sid b'
       ∧ (∀ sid', sid' ≠ sid → content sid' b' = content sid' b)).
Proof.
  split; [|split].
  - intros cap cs sid.
    pose proof (run_fifo sid cs (StreamBuffer.create cap)) as H.
    rewrite (content_absent sid (StreamBuffer.create cap)) in H
      by apply lookup_empty.
    simpl in H. etrans; [|apply H]. by apply sublist_inserts_r.
  - intros. apply getFrames_prefix.
  - intros. apply getNextFrame_head.
Qed.

(** C8 at a drain of at most 5 frames from a stream holding 7. *)
Lemma C8_witness :
  Js.len
    (StreamBuffer.getFrames "s1" 5
       (StreamBuffer.run (pushes "s1" 7) (StreamBuffer.create 30)).1.2).1.1
  <= 5.
Proof.
  pose proof (proj1 (proj2 C8_drains_and_pops_are_fifo) "s1" 5
                (StreamBuffer.run (pushes "s1" 7) (StreamBuffer.create 30)).1.2)
    as H.
  destruct (StreamBuffer.getFrames "s1" 5 _) as [[fs b'] evs].
  destruct H as (_ & H & _). simpl. apply H. lia.
Defined.

(** ** The coordinator *)

Ltac unfold_pass :=
  unfold Pipeline.processStream, Pipeline.loop_head, Pipeline.settle,
    StreamBuffer.getFrames, Pipeline.upd_processor, Pipeline.emit,
    Pipeline.emits in *.

Ltac unfold_coordinator :=
  unfold Pipeline.addStreamToQueue, Pipeline.removeStreamFromQueue,
    Pipeline.start, Pipeline.stop, Pipeline.handleProcessingError,
    Pipeline.processNextBatch in *;
  unfold_pass.

Section Scheduling.
Import StreamProcessor Pipeline.
Implicit Types (s : Sys) (sid : string) (now : Z).

(** The job that [getNextProcessingJob] selects belongs to a stream that
    is not active and whose buffer holds a frame. *)
Lemma select_eligible s acc e :
  (∀ job, acc.2 = Some job →
     (job_streamId job ∉ activeProcessing (processor s))
     ∧ StreamBuffer.isEmpty (job_streamId job) (buffer s) = false) →
  ∀ job, (select s acc e).2 = Some job →
    (job_streamId job ∉ activeProcessing (processor s))
    ∧ StreamBuffer.isEmpty (job_streamId job) (buffer s) = false.
Proof.
  intros Hacc job. unfold select. destruct acc as [hp sel].
  destruct (heap (processor s) !! e.2) as [j|]; [|apply Hacc].
  case_bool_decide as Hin; [apply Hacc|].
  destruct (StreamBuffer.isEmpty (job_streamId j) (buffer s)) eqn:Hemp;
    [apply Hacc|].
  destruct (hp <? priority j); [|apply Hacc].
  simpl. by intros [= <-].
Qed.

Lemma foldl_select_eligible s q acc :
  (∀ job, acc.2 = Some job →
     (job_streamId job ∉ activeProcessing (processor s))
     ∧ StreamBuffer.isEmpty (job_streamId job) (buffer s) = false) →
  ∀ job, (foldl (select s) acc q).2 = Some job →
    (job_streamId job ∉ activeProcessing (processor s))
    ∧ StreamBuffer.isEmpty (job_streamId job) (buffer s) = false.
Proof.
  revert acc. induction q as [|e q IH]; intros acc Hacc; [done|].
  simpl. apply IH. by apply select_eligible.
Qed.

Lemma getNextProcessingJob_eligible s job :
  getNextProcessingJob s = Some job →
  (job_streamId job ∉ activeProcessing (processor s))
  ∧ StreamBuffer.isEmpty (job_streamId job) (buffer s) = false.
Proof.
  unfold getNextProcessingJob.
  destruct (processingQueue (processor s)) as [|e q] eqn:E; [done|].
  apply foldl_select_eligible. by intros job'.
Qed.

Lemma size_add_le (x : string) (A : gset string) :
  (size ({[x]} ∪ A) <= S (size A))%nat.
Proof.
  rewrite size_union_alt, size_singleton.
  assert (size (A ∖ {[x]}) <= size A)%nat; [|lia].
  apply subseteq_size, subseteq_difference_l. done.
Qed.

Lemma size_remove_le (x : string) (A : gset string) :
  (size (A ∖ {[x]}) <= size A)%nat.
Proof. apply subseteq_size, subseteq_difference_l. done. Qed.

(** *** Concurrency ceiling *)

Definition ceiling (max : Z) s : Prop :=
  maxConcurrentStreams (processor s) = max
  ∧ Z.of_nat (size (activeProcessing (processor s))) <= max.

(** A change that leaves the active set alone keeps the ceiling. *)
Lemma ceiling_same_active max s s' :
  maxConcurrentStreams (processor s') = maxConcurrentStreams (processor s) →
  activeProcessing (processor s') = activeProcessing (processor s) →
  ceiling max s → ceiling max s'.
Proof. unfold ceiling. by intros -> ->. Qed.

Lemma processNextBatch_ceiling max now s :
  ceiling max s → ceiling max (processNextBatch now s).
Proof.
  intros [Hm Hc]. unfold ceiling. unfold_coordinator.
  destruct (negb _ || _) eqn:Hguard; [done|].
  apply orb_false_iff in Hguard as [_ Hlt]. apply Z.leb_gt in Hlt.
  destruct (getNextProcessingJob s) as [job|]; [|done].
  pose proof (size_add_le (job_streamId job) (activeProcessing (processor s))).
  repeat case_match; simplify_eq/=; (split; [done|lia]).
Qed.

Lemma addStreamToQueue_ceiling max sid prio now s :
  ceiling max s → ceiling max (addStreamToQueue sid prio now s).
Proof.
  intros H. unfold addStreamToQueue.
  destruct (Js.oget sid _); [by apply (ceiling_same_active max s)|].
  cbv zeta.
  match goal with |- context [processNextBatch now ?t] => set (s2 := t) end.
  assert (ceiling max s2) by done.
  destruct (_ && _); [by apply processNextBatch_ceiling|done].
Qed.

Lemma removeStreamFromQueue_ceiling max sid s :
  ceiling max s → ceiling max (removeStreamFromQueue sid s).
Proof.
  intros [Hm Hc]. split; [done|]. simpl.
  pose proof (size_remove_le sid (activeProcessing (processor s))). lia.
Qed.

Lemma on_buffer_event_ceiling max e now s :
  ceiling max s → ceiling max (on_buffer_event e now s).
Proof.
  intros H. destruct e; simpl; try done.
  - destruct (_ && _); [by apply addStreamToQueue_ceiling|done].
  - by destruct (Js.oget _ _).
Qed.

Lemma deliver_ceiling max evs now s :
  ceiling max s → ceiling max (deliver evs now s).
Proof.
  revert s. induction evs as [|e evs IH]; intros s H; [done|].
  simpl. apply IH. by apply on_buffer_event_ceiling.
Qed.

Lemma addFrame_ceiling max sid frame now s :
  ceiling max s → ceiling max (addFrame sid frame now s).2.
Proof.
  intros H. unfold addFrame.
  destruct (StreamBuffer.addFrame _ _ _) as [[r b'] evs]. simpl.
  by apply deliver_ceiling.
Qed.

Lemma removeStream_ceiling max sid now s :
  ceiling max s → ceiling max (removeStream sid now s).
Proof.
  intros H. unfold removeStream.
  destruct (StreamBuffer.removeStream _ _) as [b' evs].
  by apply deliver_ceiling.
Qed.

Lemma removeRoute_ceiling max sid s :
  ceiling max s → ceiling max (removeRoute sid s).
Proof. intros H. unfold removeRoute. by apply removeStreamFromQueue_ceiling. Qed.

Lemma ceiling_emit max e s : ceiling max s → ceiling max (emit e s).
Proof. done. Qed.

Lemma handleDisconnection_ceiling max sid now s :
  ceiling max s → ceiling max (handleDisconnection sid now s).
Proof.
  intros H. unfold handleDisconnection. cbv zeta.
  apply ceiling_emit, removeStreamFromQueue_ceiling, removeRoute_ceiling,
    removeStream_ceiling.
  by destruct (activeStreams s !! sid).
Qed.

Lemma handleProcessingError_ceiling max sid s :
  ceiling max s → ceiling max (handleProcessingError sid s).
Proof.
  intros H. unfold handleProcessingError.
  destruct (job_of sid (processor s)) as [[r job]|]; [|done].
  by destruct (retryCount job <? 3).
Qed.

Lemma foldl_addFrame_ceiling max sid fs now s :
  ceiling max s →
  ceiling max (foldl (λ s frame, (addFrame sid frame now s).2) s fs).
Proof.
  revert s. induction fs as [|f fs IH]; intros s H; [done|].
  simpl. apply IH. by apply addFrame_ceiling.
Qed.

Lemma step_ceiling max now a s : ceiling max s → ceiling max (step now a s).
Proof.
  intros H. destruct a; simpl.
  - by apply addFrame_ceiling.
  - unfold getNextFrame.
    destruct (StreamBuffer.getNextFrame _ _) as [[r b'] evs].
    by apply deliver_ceiling.
  - unfold getFrames.
    destruct (StreamBuffer.getFrames _ _ _) as [[r b'] evs].
    by apply deliver_ceiling.
  - unfold clearBuffer. destruct (StreamBuffer.clearBuffer _ _) as [b' evs].
    by apply deliver_ceiling.
  - by apply removeStream_ceiling.
  - unfold routeToAI.
    match goal with |- ceiling _ (emits _ ?t) =>
      apply (ceiling_same_active max t); [done..|] end.
    by apply addStreamToQueue_ceiling.
  - by apply removeRoute_ceiling.
  - unfold start. destruct (isProcessing _); [done|].
    match goal with |- ceiling _ (emit _ ?t) =>
      apply (ceiling_same_active max t); [done..|] end.
    by apply processNextBatch_ceiling.
  - destruct H as [Hm Hc]. split; [done|].
    change (Z.of_nat (size (∅ : gset string)) <= max).
    rewrite size_empty. lia.
  - by apply addStreamToQueue_ceiling.
  - by apply removeStreamFromQueue_ceiling.
  - unfold addVideoStream. destruct (validateStream stream); [|done].
    destruct (negb _); [done|].
    match goal with |- ceiling _ (emit _ ?t) =>
      apply (ceiling_same_active max t); [done..|] end.
    apply foldl_addFrame_ceiling.
    match goal with |- ceiling _ (set_sessions _ _ ?t) =>
      apply (ceiling_same_active max t); [done..|] end.
    destruct (userSessions s !! userId stream) as [existing|]; [|done].
    destruct (Js.truthy existing); [|done].
    by apply handleDisconnection_ceiling.
  - by apply handleDisconnection_ceiling.
  - unfold batchDone. repeat case_match; by simplify_eq/=.
  - unfold yieldDone. unfold_pass. repeat case_match; by simplify_eq/=.
  - unfold passThrows. unfold_pass. repeat case_match; by simplify_eq/=.
  - unfold passFinish.
    destruct (passes _ !! i) as [p|]; [|done].
    destruct (point p) as [| |threw]; try done.
    assert (ceiling max (if threw then handleProcessingError (pass_streamId p) s
                         else s)) as [Hm Hc].
    { destruct threw; [by apply handleProcessingError_ceiling|done]. }
    split; [done|]. simpl.
    match goal with |- context [size (?A ∖ _)] =>
      pose proof (size_remove_le (pass_streamId p) A) end.
    lia.
  - unfold fire. destruct (tasks _ !! k) as [task|]; [|done].
    destruct task; by apply processNextBatch_ceiling.
Qed.

Lemma run_ceiling max tr s : ceiling max s → ceiling max (run tr s).
Proof.
  revert s. induction tr as [|[now a] tr IH]; intros s H; [done|].
  simpl. apply IH. by apply step_ceiling.
Qed.

End Scheduling.

(** A short run used to instantiate the statements about runs: the
    coordinator is started, a frame arrives for ["s1"], its batch is
    enhanced and the pass ends. *)
Definition sample_run : list (Z * Pipeline.Action) :=
  [(0, Pipeline.Start);
   (1, Pipeline.AddFrame "s1" (frame_at 1));
   (2, Pipeline.BatchDone 0 true);
   (3, Pipeline.YieldDone 0);
   (4, Pipeline.PassFinish 0)].

(** C6: whatever is admitted, pushed, removed, started, stopped or
    resumed, in any order, the active-processing set never holds more
    than [maxConcurrentStreams] streams (5 by default; any ceiling
    [max >= 0]), and the ceiling itself never changes; when the set is at
    the ceiling, [processNextBatch] returns without activating a
    stream. *)
Theorem C6_active_set_never_exceeds_ceiling
    (bufferSize max : Z) (tr : list (Z * Pipeline.Action)) :
  0 <= max →
  let s := Pipeline.run tr (Pipeline.create bufferSize max) in
  StreamProcessor.maxConcurrentStreams (Pipeline.processor s) = max
  ∧ Z.of_nat (size (StreamProcessor.activeProcessing (Pipeline.processor s)))
    <= max
  ∧ (max
     <= Z.of_nat (size (StreamProcessor.activeProcessing (Pipeline.processor s)))
     → ∀ now, Pipeline.processNextBatch now s = s).
Proof.
  intros Hmax s.
  assert (ceiling max s) as [Hm Hc].
  { apply run_ceiling. split; [done|].
    change (Z.of_nat (size (∅ : gset string)) <= max).
    rewrite size_empty. lia. }
  split; [done|]. split; [done|].
  intros Hfull now. unfold Pipeline.processNextBatch.
  rewrite Hm. destruct (Z.leb_spec max
    (Z.of_nat (size (StreamProcessor.activeProcessing (Pipeline.processor s)))));
    [|lia].
  by rewrite orb_true_r.
Qed.

(** C6 with the default ceiling of 5, on the sample run. *)
Lemma C6_witness :
  let s := Pipeline.run sample_run (Pipeline.create 30 5) in
  StreamProcessor.maxConcurrentStreams (Pipeline.processor s) = 5
  ∧ Z.of_nat (size (StreamProcessor.activeProcessing (Pipeline.processor s)))
    <= 5
  ∧ (5
     <= Z.of_nat (size (StreamProcessor.activeProcessing (Pipeline.processor s)))
     → ∀ now, Pipeline.processNextBatch now s = s).
Proof.
  exact (C6_active_set_never_exceeds_ceiling 30 5 sample_run
           (proj1 (Z.leb_le 0 5) eq_refl)).
Defined.

(** *** Active set and job queue *)

Section SinglePass.
Import StreamProcessor Pipeline.
Implicit Types (s : Sys) (sid : string) (now : Z) (p : Pass).

(** The part of the coordinator that the invariant below reads. *)
Definition sched s :=
  let pr := processor s in
  (processingQueue pr, activeProcessing pr, passes pr, tasks pr).

Lemma settle_sched p threw now s :
  pass_streamId (settle p threw now s).1 = pass_streamId p
  ∧ point (settle p threw now s).1 = Settled threw
  ∧ sched (settle p threw now s).2 = sched s.
Proof. done. Qed.

Lemma loop_head_sched p now s :
  pass_streamId (loop_head p now s).1 = pass_streamId p
  ∧ sched (loop_head p now s).2 = sched s.
Proof.
  unfold loop_head. unfold_pass. by repeat case_match.
Qed.





















End SinglePass.




(** ** What a call can emit *)

(** Events other than the low-water signal. *)
Definition not_low_water (e : Pipeline.Event) : bool :=
  match e with
  | Pipeline.Buf e' => negb (is_low_water e')
  | _ => true
  end.

(** Events other than a retry and a terminal failure. *)
Definition not_retry (e : Pipeline.Event) : bool :=
  match e with
  | Pipeline.Pr (StreamProcessor.ProcessingRetry _ _ _)
  | Pipeline.Pr (StreamProcessor.ProcessingFailed _ _) => false
  | _ => true
  end.

Definition quiet (e : Pipeline.Event) : bool := not_low_water e && not_retry e.

(** [s'] has the log of [s] followed by events that satisfy [P]. *)
Definition log_ext (P : Pipeline.Event → Prop) (s s' : Pipeline.Sys) : Prop :=
  ∃ evs, Pipeline.log s' = Pipeline.log s ++ evs ∧ Forall P evs.

Section LogExt.
Import StreamProcessor Pipeline.
Context (P : Pipeline.Event → Prop).
Implicit Types (s : Sys) (sid : string) (now : Z).

Lemma log_ext_refl s : log_ext P s s.
Proof. exists []. by rewrite app_nil_r. Qed.

Lemma log_ext_eq s s' : log s' = log s → log_ext P s s'.
Proof. intros H. exists []. by rewrite app_nil_r. Qed.

Lemma log_ext_trans s1 s2 s3 :
  log_ext P s1 s2 → log_ext P s2 s3 → log_ext P s1 s3.
Proof.
  intros (e1 & H1 & F1) (e2 & H2 & F2). exists (e1 ++ e2).
  split; [by rewrite H2, H1, (assoc_L (++))|by apply Forall_app].
Qed.

Lemma log_ext_same s s' t :
  log t = log s' → log_ext P s s' → log_ext P s t.
Proof. intros Heq (evs & H & F). exists evs. by rewrite Heq. Qed.

Lemma log_ext_emits s s' es :
  Forall P es → log_ext P s s' → log_ext P s (emits es s').
Proof.
  intros Fes H. eapply log_ext_trans; [exact H|]. by exists es.
Qed.

Lemma log_ext_emit s s' e : P e → log_ext P s s' → log_ext P s (emit e s').
Proof. intros He. apply log_ext_emits. by apply Forall_singleton. Qed.

Hypothesis P_quiet : ∀ e, quiet e = true → P e.

Lemma settle_log_ext p threw now s : log_ext P s (settle p threw now s).2.
Proof.
  unfold settle. simpl. apply log_ext_emit; [by apply P_quiet|].
  by apply log_ext_eq.
Qed.

Lemma getFrames_events_quiet sid count b :
  Forall P (Buf <$> (StreamBuffer.getFrames sid count b).2).
Proof.
  unfold StreamBuffer.getFrames.
  repeat case_match; simpl; try apply Forall_nil_2.
  apply Forall_singleton. by apply P_quiet.
Qed.

Lemma loop_head_log_ext p now s : log_ext P s (loop_head p now s).2.
Proof.
  unfold loop_head. destruct (isProcessing _); [|apply settle_log_ext].
  pose proof (getFrames_events_quiet (pass_streamId p) 5 (buffer s)) as Hev.
  destruct (StreamBuffer.getFrames _ _ _) as [[frames b'] evs].
  simpl in Hev.
  assert (log_ext P s (emits (Buf <$> evs) (set_buffer b' s))) as H1.
  { apply log_ext_emits; [done|]. by apply log_ext_eq. }
  destruct (Js.len frames =? 0).
  - eapply log_ext_trans; [exact H1|apply settle_log_ext].
  - simpl. apply log_ext_emit; [by apply P_quiet|exact H1].
Qed.

Lemma processNextBatch_log_ext now s : log_ext P s (processNextBatch now s).
Proof.
  unfold processNextBatch. destruct (negb _ || _); [by apply log_ext_eq|].
  destruct (getNextProcessingJob s) as [job|]; [|by apply log_ext_eq].
  unfold processStream.
  match goal with |- context [loop_head ?p now ?t] =>
    pose proof (loop_head_log_ext p now t) as H;
    destruct (loop_head p now t) as [p' s2] end.
  simpl in H. eapply (log_ext_same _ s2); [done|].
  eapply log_ext_trans; [|exact H].
  apply log_ext_emit; [by apply P_quiet|by apply log_ext_eq].
Qed.

Lemma addStreamToQueue_log_ext sid prio now s :
  log_ext P s (addStreamToQueue sid prio now s).
Proof.
  unfold addStreamToQueue. destruct (Js.oget sid _); [by apply log_ext_eq|].
  cbv zeta.
  match goal with |- context [processNextBatch now ?t] => set (s2 := t) end.
  assert (log_ext P s s2) as H2.
  { apply log_ext_emit; [by apply P_quiet|by apply log_ext_eq]. }
  destruct (_ && _); [|done].
  eapply log_ext_trans; [exact H2|apply processNextBatch_log_ext].
Qed.

Lemma removeStreamFromQueue_log_ext sid s :
  log_ext P s (removeStreamFromQueue sid s).
Proof.
  unfold removeStreamFromQueue.
  apply log_ext_emit; [by apply P_quiet|by apply log_ext_eq].
Qed.

Lemma on_buffer_event_log_ext e now s :
  log_ext P s (on_buffer_event e now s).
Proof.
  destruct e; simpl; try by apply log_ext_eq.
  - destruct (_ && _); [apply addStreamToQueue_log_ext|by apply log_ext_eq].
  - destruct (Js.oget _ _); by apply log_ext_eq.
Qed.

Lemma deliver_log_ext evs now s :
  Forall (λ e, P (Buf e)) evs → log_ext P s (deliver evs now s).
Proof.
  revert s. induction evs as [|e evs IH]; intros s Hev; [by apply log_ext_eq|].
  apply Forall_cons in Hev as [He Hev]. simpl.
  eapply log_ext_trans; [|by apply IH].
  eapply log_ext_trans; [|apply on_buffer_event_log_ext].
  apply log_ext_emit; [done|by apply log_ext_eq].
Qed.

Lemma addFrame_events_quiet sid frame b :
  Forall (λ e, P (Buf e)) (StreamBuffer.addFrame sid frame b).2.
Proof.
  unfold StreamBuffer.addFrame, StreamBuffer.handleOverflow.
  repeat case_match; simplify_eq/=;
    repeat (apply Forall_cons; split; [by apply P_quiet|]);
    apply Forall_nil_2.
Qed.

Lemma getFrames_events_quiet' sid count b :
  Forall (λ e, P (Buf e)) (StreamBuffer.getFrames sid count b).2.
Proof. apply Forall_fmap, getFrames_events_quiet. Qed.

Lemma clearBuffer_events_quiet sid b :
  Forall (λ e, P (Buf e)) (StreamBuffer.clearBuffer sid b).2.
Proof.
  unfold StreamBuffer.clearBuffer. case_match; simpl; [|apply Forall_nil_2].
  apply Forall_singleton. by apply P_quiet.
Qed.

Lemma removeStream_events_quiet sid b :
  Forall (λ e, P (Buf e)) (StreamBuffer.removeStream sid b).2.
Proof.
  unfold StreamBuffer.removeStream. case_match; simpl; [|apply Forall_nil_2].
  apply Forall_singleton. by apply P_quiet.
Qed.

Lemma removeStream_log_ext sid now s : log_ext P s (removeStream sid now s).
Proof.
  unfold removeStream.
  pose proof (removeStream_events_quiet sid (buffer s)) as Hev.
  destruct (StreamBuffer.removeStream _ _) as [b' evs].
  eapply log_ext_trans; [|by apply deliver_log_ext]. by apply log_ext_eq.
Qed.

Lemma addFrame_log_ext sid frame now s :
  log_ext P s (addFrame sid frame now s).2.
Proof.
  unfold addFrame.
  pose proof (addFrame_events_quiet sid frame (buffer s)) as Hev.
  destruct (StreamBuffer.addFrame _ _ _) as [[r b'] evs].
  eapply log_ext_trans; [|by apply deliver_log_ext]. by apply log_ext_eq.
Qed.

Lemma foldl_addFrame_log_ext sid fs now s :
  log_ext P s (foldl (λ s frame, (addFrame sid frame now s).2) s fs).
Proof.
  revert s. induction fs as [|f fs IH]; intros s; [apply log_ext_refl|].
  simpl. eapply log_ext_trans; [apply addFrame_log_ext|apply IH].
Qed.

Lemma routeToAI_log_ext sid prio now s : log_ext P s (routeToAI sid prio now s).
Proof.
  unfold routeToAI. apply log_ext_emits.
  - apply Forall_fmap, Forall_forall. intros e _. by apply P_quiet.
  - eapply log_ext_trans; [|apply addStreamToQueue_log_ext].
    apply log_ext_emit; [by apply P_quiet|by apply log_ext_eq].
Qed.

Lemma removeRoute_log_ext sid s : log_ext P s (removeRoute sid s).
Proof.
  unfold removeRoute.
  eapply log_ext_trans; [|apply removeStreamFromQueue_log_ext].
  apply log_ext_emit; [by apply P_quiet|by apply log_ext_eq].
Qed.

Lemma handleDisconnection_log_ext sid now s :
  log_ext P s (handleDisconnection sid now s).
Proof.
  unfold handleDisconnection.
  apply log_ext_emit; [by apply P_quiet|].
  eapply log_ext_trans; [|apply removeStreamFromQueue_log_ext].
  eapply log_ext_trans; [|apply removeRoute_log_ext].
  eapply log_ext_trans; [|apply removeStream_log_ext].
  destruct (activeStreams s !! sid); by apply log_ext_eq.
Qed.

(** The step is a pop. *)
Definition pops (a : Action) : bool :=
  match a with
  | GetNextFrame _ => true
  | _ => false
  end.

(** The step runs the [catch] of [processNextBatch]. *)
Definition handles_error (a : Action) s : bool :=
  match a with
  | PassFinish i =>
      match passes (processor s) !! i with
      | Some p =>
          match point p with
          | Settled true => true
          | _ => false
          end
      | None => false
      end
  | _ => false
  end.

Lemma handleProcessingError_log_ext sid s :
  (∀ e, P (Pr e)) → log_ext P s (handleProcessingError sid s).
Proof.
  intros HP. unfold handleProcessingError.
  repeat case_match; (apply log_ext_emit; [apply HP|by apply log_ext_eq]).
Qed.

Lemma step_log_ext now a s :
  (pops a = true → ∀ e, P (Buf e)) →
  (handles_error a s = true → ∀ e, P (Pr e)) →
  log_ext P s (step now a s).
Proof.
  intros Hpop Herr. destruct a; simpl in *.
  - apply addFrame_log_ext.
  - unfold getNextFrame.
    destruct (StreamBuffer.getNextFrame _ _) as [[r b'] evs].
    eapply log_ext_trans; [|apply deliver_log_ext]; [by apply log_ext_eq|].
    apply Forall_forall. intros e _. by apply Hpop.
  - unfold getFrames.
    pose proof (getFrames_events_quiet' sid count (buffer s)) as Hev.
    destruct (StreamBuffer.getFrames _ _ _) as [[r b'] evs].
    eapply log_ext_trans; [|by apply deliver_log_ext]. by apply log_ext_eq.
  - unfold clearBuffer.
    pose proof (clearBuffer_events_quiet sid (buffer s)) as Hev.
    destruct (StreamBuffer.clearBuffer _ _) as [b' evs].
    eapply log_ext_trans; [|by apply deliver_log_ext]. by apply log_ext_eq.
  - apply removeStream_log_ext.
  - apply routeToAI_log_ext.
  - apply removeRoute_log_ext.
  - unfold start. destruct (isProcessing _); [apply log_ext_refl|].
    apply log_ext_emit; [by apply P_quiet|].
    eapply log_ext_trans; [|apply processNextBatch_log_ext].
    by apply log_ext_eq.
  - unfold stop. apply log_ext_emit; [by apply P_quiet|by apply log_ext_eq].
  - apply addStreamToQueue_log_ext.
  - apply removeStreamFromQueue_log_ext.
  - unfold addVideoStream.
    destruct (validateStream stream); [|apply log_ext_refl].
    destruct (negb _); [apply log_ext_refl|].
    apply log_ext_emit; [by apply P_quiet|].
    eapply log_ext_trans; [|apply foldl_addFrame_log_ext].
    match goal with |- log_ext _ _ (set_sessions _ _ ?t) =>
      apply (log_ext_same _ t); [done|] end.
    destruct (userSessions s !! userId stream) as [existing|];
      [|apply log_ext_refl].
    destruct (Js.truthy existing); [|apply log_ext_refl].
    apply handleDisconnection_log_ext.
  - apply handleDisconnection_log_ext.
  - unfold batchDone.
    repeat case_match; simplify_eq/=; try apply log_ext_refl;
      (apply log_ext_emits; [|by apply log_ext_eq]);
      repeat (apply Forall_cons; split; [by apply P_quiet|]);
      apply Forall_nil_2.
  - unfold yieldDone.
    destruct (passes _ !! i) as [p|]; [|apply log_ext_refl].
    destruct (point p); try apply log_ext_refl.
    pose proof (loop_head_log_ext p now s) as H.
    destruct (loop_head p now s) as [p' s1].
    by apply (log_ext_same _ s1).
  - unfold passThrows.
    destruct (passes _ !! i) as [p|]; [|apply log_ext_refl].
    destruct (point p); try apply log_ext_refl;
      apply (log_ext_same _ (settle p true now s).2); try done;
      apply settle_log_ext.
  - unfold passFinish.
    destruct (passes _ !! i) as [p|]; [|apply log_ext_refl].
    destruct (point p) as [| |threw]; try apply log_ext_refl.
    match goal with |- log_ext _ _ (upd_processor _ ?t) =>
      apply (log_ext_same _ t); [done|] end.
    destruct threw; [|apply log_ext_refl].
    by apply handleProcessingError_log_ext, Herr.
  - unfold fire. destruct (tasks _ !! k) as [task|]; [|apply log_ext_refl].
    destruct task;
      (eapply log_ext_trans; [|apply processNextBatch_log_ext]);
      by apply log_ext_eq.
Qed.

End LogExt.

(** *** Low-water signal *)

Lemma getNextFrame_low_water sid b :
  let '(r, b', evs) := StreamBuffer.getNextFrame sid b in
  r = head (content sid b)
  ∧ content sid b' = tail (content sid b)
  ∧ filter is_low_water evs
    = if bool_decide (content sid b ≠ []
                      ∧ Js.len (content sid b) - 1 = StreamBuffer.lowWaterMark b)
      then [StreamBuffer.LowWater sid (StreamBuffer.lowWaterMark b)]
      else [].
Proof.
  unfold StreamBuffer.getNextFrame, content.
  destruct (StreamBuffer.buffers b !! sid) as [buffer|] eqn:E.
  - destruct buffer as [|frame rest]; cbn -[bool_decide filter].
    + rewrite E. cbn -[bool_decide filter].
      rewrite bool_decide_eq_false_2; [done|]. by intros [? _].
    + rewrite lookup_insert_eq. cbn -[bool_decide filter Js.len].
      split; [done|]. split; [done|].
      assert (Hlen : Js.len (frame :: rest) - 1 = Js.len rest).
      { unfold Js.len. cbn [length]. lia. }
      rewrite Hlen.
      destruct (Z.eqb_spec (Js.len rest) (StreamBuffer.lowWaterMark b))
        as [Heq|Hne].
      * rewrite bool_decide_eq_true_2 by done. by rewrite Heq.
      * rewrite bool_decide_eq_false_2; [done|]. by intros [_ ?].
  - rewrite E. cbn -[bool_decide filter].
    rewrite bool_decide_eq_false_2; [done|]. by intros [? _].
Qed.

Lemma call_no_low_water c b :
  (∀ sid, c ≠ StreamBuffer.GetNextFrame sid) →
  filter is_low_water (StreamBuffer.call c b).2 = [].
Proof.
  intros Hc. destruct c as [sid frame|sid|sid count|sid|sid]; simpl.
  - unfold StreamBuffer.addFrame, StreamBuffer.handleOverflow.
    by repeat case_match; simplify_eq/=.
  - by destruct (Hc sid).
  - unfold StreamBuffer.getFrames. by repeat case_match; simplify_eq/=.
  - unfold StreamBuffer.clearBuffer. by repeat case_match; simplify_eq/=.
  - unfold StreamBuffer.removeStream. by repeat case_match; simplify_eq/=.
Qed.

(** C10: a pop on a stream that holds frames returns the oldest one
    and leaves the others, and it emits the low-water signal exactly
    when the length after the removal equals [lowWaterMark]: when the
    stream held [lowWaterMark + 1] frames; a pop on a stream without
    frames returns nothing, removes nothing and emits no signal. A
    drain emits none, whatever length it leaves, and neither does any
    other call on the buffer; in the pipeline, no step other than a pop
    (in particular no step of the coordinator, which drains in batches)
    adds a low-water signal to the log. *)
Theorem C10_only_single_pop_emits_low_water :
  (∀ sid b,
     let '(r, b', evs) := StreamBuffer.getNextFrame sid b in
     r = head (content sid b)
     ∧ content sid b' = tail (content sid b)
     ∧ filter is_low_water evs
       = if bool_decide (content sid b ≠ []
                         ∧ Js.len (content sid b) - 1
                           = StreamBuffer.lowWaterMark b)
         then [StreamBuffer.LowWater sid (StreamBuffer.lowWaterMark b)]
         else [])
  ∧ (∀ sid count b,
       filter is_low_water (StreamBuffer.getFrames sid count b).2 = [])
  ∧ (∀ c b,
       (∀ sid, c ≠ StreamBuffer.GetNextFrame sid) →
       filter is_low_water (StreamBuffer.call c b).2 = [])
  ∧ (∀ now a s,
       pops a = false →
       ∃ evs,
         Pipeline.log (Pipeline.step now a s) = Pipeline.log s ++ evs
         ∧ ∀ sid n, Pipeline.Buf (StreamBuffer.LowWater sid n) ∉ evs).
Proof.
  split; [|split; [|split]].
  - apply getNextFrame_low_water.
  - intros sid count b.
    by apply (call_no_low_water (StreamBuffer.GetFrames sid count) b).
  - apply call_no_low_water.
  - intros now a s Hpop.
    assert (Hq : ∀ e, quiet e = true → not_low_water e = true).
    { intros e He. by apply andb_true_iff in He as [? _]. }
    destruct (step_log_ext _ Hq now a s) as (evs & Hlog & Hev);
      [by rewrite Hpop|done|].
    exists evs. split; [done|]. intros sid n Hin.
    rewrite Forall_forall in Hev. by specialize (Hev _ Hin).
Qed.

(** C10 on a stream of 10 frames, at capacity 30 (low-water mark 9): a
    pop returns the first frame and emits the signal for the 9 frames
    it leaves; a drain of 5 frames, and a drain of 1 frame, which
    leaves the same 9, emit none. *)
Lemma C10_witness :
  let b := (StreamBuffer.run (pushes "s1" 10) (StreamBuffer.create 30)).1.2 in
  let '(r, b', evs) := StreamBuffer.getNextFrame "s1" b in
  r = Some (frame_at 1)
  ∧ Js.len (content "s1" b') = 9
  ∧ filter is_low_water evs = [StreamBuffer.LowWater "s1" 9]
  ∧ filter is_low_water
      (StreamBuffer.call (StreamBuffer.GetFrames "s1" 5) b).2 = []
  ∧ filter is_low_water
      (StreamBuffer.call (StreamBuffer.GetFrames "s1" 1) b).2 = [].
Proof.
  intros b.
  pose proof (proj1 C10_only_single_pop_emits_low_water "s1" b) as Hpop.
  pose proof (proj1 (proj2 (proj2 C10_only_single_pop_emits_low_water))) as Hcall.
  destruct (StreamBuffer.getNextFrame "s1" b) as [[r b'] evs].
  destruct Hpop as (-> & -> & ->).
  split; [by vm_compute|]. split; [by vm_compute|]. split; [by vm_compute|].
  split; apply Hcall; intros sid; discriminate.
Defined.

(** *** Failing batches *)

Section Calm.
Import StreamProcessor Pipeline.
Implicit Types (s : Sys) (sid : string) (now : Z) (p : Pass).

(** No pass has been abandoned by an exception and no retry callback is
    pending. *)
Definition calm s : Prop :=
  (∀ p, p ∈ passes (processor s) → point p ≠ Settled true)
  ∧ (∀ sid r delay, RetryTimer sid r delay ∉ tasks (processor s)).

Lemma calm_same s s' :
  passes (processor s') = passes (processor s) →
  tasks (processor s') = tasks (processor s) →
  calm s → calm s'.
Proof. unfold calm. by intros -> ->. Qed.

Lemma loop_head_point p now s : point (loop_head p now s).1 ≠ Settled true.
Proof.
  unfold loop_head. unfold_pass. by repeat case_match.
Qed.

Lemma processNextBatch_calm now s : calm s → calm (processNextBatch now s).
Proof.
  intros [Hp Ht]. unfold processNextBatch.
  destruct (negb _ || _); [done|].
  destruct (getNextProcessingJob s) as [job|].
  - unfold processStream.
    match goal with |- context [loop_head ?p now ?t] =>
      pose proof (loop_head_point p now t) as Hpt;
      pose proof (loop_head_sched p now t) as [_ Hsched];
      destruct (loop_head p now t) as [p' s2] end.
    simpl in Hpt, Hsched. injection Hsched as _ _ Hps Hts.
    split; simpl; rewrite ?Hps, ?Hts; simpl; [|done].
    intros q Hq. apply elem_of_app in Hq as [Hq|Hq]; [by apply Hp|].
    by apply list_elem_of_singleton in Hq as ->.
  - split; simpl; [done|].
    intros sid r d Hin. apply elem_of_app in Hin as [Hin|Hin].
    + by eapply Ht.
    + by apply list_elem_of_singleton in Hin.
Qed.

Lemma addStreamToQueue_calm sid prio now s :
  calm s → calm (addStreamToQueue sid prio now s).
Proof.
  intros H. unfold addStreamToQueue.
  destruct (Js.oget sid _); [by apply (calm_same s)|].
  cbv zeta.
  match goal with |- context [processNextBatch now ?t] => set (s2 := t) end.
  assert (calm s2) by done.
  destruct (_ && _); [by apply processNextBatch_calm|done].
Qed.

Lemma on_buffer_event_calm e now s : calm s → calm (on_buffer_event e now s).
Proof.
  intros H. destruct e; simpl; try done.
  - destruct (_ && _); [by apply addStreamToQueue_calm|done].
  - by destruct (Js.oget _ _).
Qed.

Lemma deliver_calm evs now s : calm s → calm (deliver evs now s).
Proof.
  revert s. induction evs as [|e evs IH]; intros s H; [done|].
  simpl. apply IH. by apply on_buffer_event_calm.
Qed.

Lemma addFrame_calm sid frame now s : calm s → calm (addFrame sid frame now s).2.
Proof.
  intros H. unfold addFrame.
  destruct (StreamBuffer.addFrame _ _ _) as [[r b'] evs].
  by apply deliver_calm.
Qed.

Lemma foldl_addFrame_calm sid fs now s :
  calm s → calm (foldl (λ s frame, (addFrame sid frame now s).2) s fs).
Proof.
  revert s. induction fs as [|f fs IH]; intros s H; [done|].
  simpl. apply IH. by apply addFrame_calm.
Qed.

Lemma calm_emit e s : calm s → calm (emit e s).
Proof. done. Qed.

Lemma removeStreamFromQueue_calm sid s : calm s → calm (removeStreamFromQueue sid s).
Proof. done. Qed.

Lemma removeRoute_calm sid s : calm s → calm (removeRoute sid s).
Proof. done. Qed.

Lemma handleDisconnection_calm sid now s :
  calm s → calm (handleDisconnection sid now s).
Proof.
  intros H. unfold handleDisconnection. cbv zeta.
  apply calm_emit, removeStreamFromQueue_calm, removeRoute_calm.
  unfold removeStream. destruct (StreamBuffer.removeStream _ _) as [b' evs].
  apply deliver_calm. by destruct (activeStreams s !! sid).
Qed.

(** The run has no step at which an exception escapes a pass. *)
Definition never_throws (tr : list (Z * Action)) : bool :=
  forallb (λ na, match na.2 with PassThrows _ => false | _ => true end) tr.

Lemma step_calm now a s :
  (∀ i, a ≠ PassThrows i) → calm s →
  calm (step now a s) ∧ handles_error a s = false.
Proof.
  intros Ha H. destruct a; simpl; (split; [|try done]).
  - by apply addFrame_calm.
  - unfold getNextFrame.
    destruct (StreamBuffer.getNextFrame _ _) as [[r b'] evs].
    by apply deliver_calm.
  - unfold getFrames.
    destruct (StreamBuffer.getFrames _ _ _) as [[r b'] evs].
    by apply deliver_calm.
  - unfold clearBuffer. destruct (StreamBuffer.clearBuffer _ _) as [b' evs].
    by apply deliver_calm.
  - unfold removeStream. destruct (StreamBuffer.removeStream _ _) as [b' evs].
    by apply deliver_calm.
  - unfold routeToAI.
    match goal with |- calm (emits _ ?t) => apply (calm_same t); [done..|] end.
    by apply addStreamToQueue_calm.
  - done.
  - unfold start. destruct (isProcessing _); [done|].
    match goal with |- calm (emit _ ?t) => apply (calm_same t); [done..|] end.
    by apply processNextBatch_calm.
  - done.
  - by apply addStreamToQueue_calm.
  - done.
  - unfold addVideoStream. destruct (validateStream stream); [|done].
    destruct (negb _); [done|].
    match goal with |- calm (emit _ ?t) => apply (calm_same t); [done..|] end.
    apply foldl_addFrame_calm.
    match goal with |- calm (set_sessions _ _ ?t) =>
      apply (calm_same t); [done..|] end.
    destruct (userSessions s !! userId stream) as [existing|]; [|done].
    destruct (Js.truthy existing); [|done].
    by apply handleDisconnection_calm.
  - by apply handleDisconnection_calm.
  - unfold batchDone. destruct H as [Hp Ht].
    destruct (passes _ !! i) as [p|] eqn:Hi; [|done].
    destruct (point p); try done.
    destruct ok; (split; simpl; [|done]);
      intros q Hq; apply list_elem_of_lookup in Hq as [j Hj];
      (destruct (decide (j = i)) as [->|Hne];
       [rewrite list_lookup_insert_eq in Hj by (by eapply lookup_lt_Some);
        by injection Hj as <-
       |rewrite list_lookup_insert_ne in Hj by done;
        apply Hp; by eapply list_elem_of_lookup_2]).
  - unfold yieldDone. destruct H as [Hp Ht].
    destruct (passes _ !! i) as [p|] eqn:Hi; [|done].
    destruct (point p); try done.
    pose proof (loop_head_point p now s) as Hpt.
    pose proof (loop_head_sched p now s) as [_ Hsched].
    destruct (loop_head p now s) as [p' s1].
    simpl in Hpt, Hsched. injection Hsched as _ _ Hps Hts.
    split; simpl; rewrite ?Hps, ?Hts; [|done].
    intros q Hq. apply list_elem_of_lookup in Hq as [j Hj].
    destruct (decide (j = i)) as [->|Hne].
    + rewrite list_lookup_insert_eq in Hj by (by eapply lookup_lt_Some).
      by injection Hj as <-.
    + rewrite list_lookup_insert_ne in Hj by done.
      apply Hp. by eapply list_elem_of_lookup_2.
  - by destruct (Ha i).
  - unfold passFinish. destruct H as [Hp Ht].
    destruct (passes _ !! i) as [p|] eqn:Hi; [|done].
    assert (Hpi : point p ≠ Settled true).
    { apply Hp. by eapply list_elem_of_lookup_2. }
    destruct (point p) as [| |[|]]; try done.
    split; simpl.
    + intros q Hq. apply Hp.
      eapply elem_of_sublist; [exact Hq|apply sublist_delete].
    + intros sid r d Hin. apply elem_of_app in Hin as [Hin|Hin].
      * by eapply Ht.
      * by apply list_elem_of_singleton in Hin.
  - destruct H as [Hp Ht].
    destruct (passes _ !! i) as [p|] eqn:Hi; [|done].
    assert (Hpi : point p ≠ Settled true).
    { apply Hp. by eapply list_elem_of_lookup_2. }
    by destruct (point p) as [| |[|]].
  - unfold fire. destruct H as [Hp Ht].
    destruct (tasks _ !! k) as [task|] eqn:Hk; [|done].
    assert (calm (upd_processor (λ pr, set_tasks (delete k (tasks pr)) pr) s)).
    { split; simpl; [done|]. intros sid r d Hin. eapply Ht.
      eapply elem_of_sublist; [exact Hin|apply sublist_delete]. }
    destruct task as [| |sid r d].
    + by apply processNextBatch_calm.
    + by apply processNextBatch_calm.
    + exfalso. eapply Ht. by eapply list_elem_of_lookup_2.
Qed.

Lemma run_calm tr s :
  never_throws tr = true → calm s →
  calm (run tr s) ∧ log_ext (λ e, not_retry e = true) s (run tr s).
Proof.
  revert s. induction tr as [|[now a] tr IH]; intros s Hnt H.
  - split; [done|apply log_ext_refl].
  - simpl in Hnt. apply andb_true_iff in Hnt as [Ha Hnt].
    assert (Ha' : ∀ i, a ≠ PassThrows i) by (intros i ->; discriminate).
    destruct (step_calm now a s Ha' H) as [Hc Herr].
    destruct (IH _ Hnt Hc) as [Hc' Hlog].
    split; [done|]. simpl.
    eapply log_ext_trans; [|exact Hlog].
    apply step_log_ext.
    + intros e He. by apply andb_true_iff in He as [_ ?].
    + by intros _ e.
    + by rewrite Herr.
Qed.

End Calm.

(** A stream whose enhancement always fails: two frames arrive for
    ["s1"], the second while the first is being enhanced; both batches
    are rejected; the pass ends and the pending callbacks run. *)
Definition always_failing_run : list (Z * Pipeline.Action) :=
  [(0, Pipeline.Start);
   (1, Pipeline.AddFrame "s1" (frame_at 1));
   (2, Pipeline.AddFrame "s1" (frame_at 2));
   (3, Pipeline.BatchDone 0 false);
   (4, Pipeline.YieldDone 0);
   (5, Pipeline.BatchDone 0 false);
   (6, Pipeline.YieldDone 0);
   (7, Pipeline.PassFinish 0);
   (8, Pipeline.Fire 0);
   (9, Pipeline.Fire 0)].

(** C2, as stated, fails: on this run both batches are reported by
    [batch:error], the pass completes with 2 errors, and there is no
    retry and no terminal failure, neither emitted nor pending. *)
Lemma C2_counterexample :
  let s := Pipeline.run always_failing_run (Pipeline.create 30 5) in
  Pipeline.log s
  = [Pipeline.Pr StreamProcessor.ProcessorStarted;
     Pipeline.Buf (StreamBuffer.FrameAdded "s1" 1 1);
     Pipeline.Pr (StreamProcessor.QueueAdded "s1" 1 1);
     Pipeline.Pr (StreamProcessor.ProcessingStarted "s1" 1);
     Pipeline.Buf (StreamBuffer.FramesRetrieved "s1" 1 0);
     Pipeline.Pr (StreamProcessor.AiProcessing "s1" 1);
     Pipeline.Buf (StreamBuffer.FrameAdded "s1" 1 2);
     Pipeline.Pr (StreamProcessor.BatchError "s1" 1);
     Pipeline.Buf (StreamBuffer.FramesRetrieved "s1" 1 0);
     Pipeline.Pr (StreamProcessor.AiProcessing "s1" 1);
     Pipeline.Pr (StreamProcessor.BatchError "s1" 1);
     Pipeline.Pr (StreamProcessor.ProcessingCompleted "s1" 5 0 2)]
  ∧ filter (λ e, negb (not_retry e)) (Pipeline.log s) = []
  ∧ StreamProcessor.passes (Pipeline.processor s) = []
  ∧ StreamProcessor.tasks (Pipeline.processor s)
    = [StreamProcessor.PollTimer; StreamProcessor.PollTimer]
  ∧ StreamProcessor.processingQueue (Pipeline.processor s) = [].
Proof. by vm_compute. Qed.

(** C2 (amended): a rejected enhancement call is handled inside the
    pass: the batch is counted as an error, [batch:error] is emitted and
    the pass goes on to its next batch. From a fresh pipeline, on every
    run in which no exception escapes a pass, whatever the outcomes of
    the enhancement calls, no retry and no terminal failure is ever
    emitted and no retry callback is ever pending. *)
Theorem C2_failed_batches_are_counted_and_never_retried
    (bufferSize max : Z) (tr : list (Z * Pipeline.Action)) :
  never_throws tr = true →
  let s := Pipeline.run tr (Pipeline.create bufferSize max) in
  (∀ sid n delay,
     Pipeline.Pr (StreamProcessor.ProcessingRetry sid n delay) ∉ Pipeline.log s)
  ∧ (∀ sid n,
       Pipeline.Pr (StreamProcessor.ProcessingFailed sid n) ∉ Pipeline.log s)
  ∧ (∀ sid r delay,
       StreamProcessor.RetryTimer sid r delay
       ∉ StreamProcessor.tasks (Pipeline.processor s))
  ∧ (∀ i now p frames t0,
       StreamProcessor.passes (Pipeline.processor s) !! i = Some p →
       StreamProcessor.point p = StreamProcessor.AwaitBatch frames t0 →
       let s' := Pipeline.batchDone i false now s in
       StreamProcessor.passes (Pipeline.processor s') !! i
       = Some {| StreamProcessor.pass_streamId := StreamProcessor.pass_streamId p;
                 StreamProcessor.pass_startTime := StreamProcessor.pass_startTime p;
                 StreamProcessor.pass_processedFrames :=
                   StreamProcessor.pass_processedFrames p;
                 StreamProcessor.pass_errors := StreamProcessor.pass_errors p + 1;
                 StreamProcessor.point := StreamProcessor.AwaitYield |}
       ∧ Pipeline.log s'
         = Pipeline.log s
           ++ [Pipeline.Pr
                 (StreamProcessor.BatchError (StreamProcessor.pass_streamId p)
                    (Js.len frames))]).
Proof.
  intros Hnt s.
  assert (calm (Pipeline.create bufferSize max)) as H0.
  { split; simpl.
    - intros p Hp. by apply not_elem_of_nil in Hp.
    - intros sid r d. apply not_elem_of_nil. }
  destruct (run_calm tr _ Hnt H0) as [[_ Htasks] (evs & Hlog & Hev)].
  fold s in Htasks, Hlog. simpl in Hlog. rewrite Forall_forall in Hev.
  split; [|split; [|split]].
  - intros sid n d Hin. rewrite Hlog in Hin. by specialize (Hev _ Hin).
  - intros sid n Hin. rewrite Hlog in Hin. by specialize (Hev _ Hin).
  - done.
  - intros i now p frames t0 Hi Hpt s'. subst s'.
    unfold Pipeline.batchDone. rewrite Hi, Hpt. simpl.
    split; [|done].
    apply list_lookup_insert_eq. by eapply lookup_lt_Some.
Qed.

(** The amended C2 on the run whose two batches both fail, and at the
    rejection of its first batch. *)
Lemma C2_witness :
  (let s := Pipeline.run always_failing_run (Pipeline.create 30 5) in
   (∀ sid n delay,
      Pipeline.Pr (StreamProcessor.ProcessingRetry sid n delay)
      ∉ Pipeline.log s)
   ∧ (∀ sid n,
        Pipeline.Pr (StreamProcessor.ProcessingFailed sid n) ∉ Pipeline.log s))
  ∧ (let s := Pipeline.run (take 3 always_failing_run) (Pipeline.create 30 5) in
     Pipeline.log (Pipeline.batchDone 0 false 3 s)
     = Pipeline.log s ++ [Pipeline.Pr (StreamProcessor.BatchError "s1" 1)]).
Proof.
  split.
  - pose proof (C2_failed_batches_are_counted_and_never_retried
                  30 5 always_failing_run eq_refl) as (H1 & H2 & _).
    by split.
  - pose proof (C2_failed_batches_are_counted_and_never_retried
                  30 5 (take 3 always_failing_run) eq_refl) as (_ & _ & _ & H).
    exact (proj2 (H 0%nat 3
                    {| StreamProcessor.pass_streamId := "s1";
                       StreamProcessor.pass_startTime := 1;
                       StreamProcessor.pass_processedFrames := 0;
                       StreamProcessor.pass_errors := 0;
                       StreamProcessor.point :=
                         StreamProcessor.AwaitBatch [frame_at 1] 1 |}
                    [frame_at 1] 1 eq_refl eq_refl)).
Defined.

(** *** Re-admission *)

Section Readmission.
Import StreamProcessor Pipeline.
Implicit Types (s : Sys) (sid : string) (now : Z).

(** Each queue holds a stream at most once. *)
Definition queues_wf s : Prop :=
  NoDup (Js.okeys (StreamRouter.processingQueue (router s)))
  ∧ NoDup (Js.okeys (processingQueue (processor s))).

Lemma queues_wf_same s s' :
  StreamRouter.processingQueue (router s')
  = StreamRouter.processingQueue (router s) →
  processingQueue (processor s') = processingQueue (processor s) →
  queues_wf s → queues_wf s'.
Proof. unfold queues_wf. by intros -> ->. Qed.

Lemma loop_head_router p now s : router (loop_head p now s).2 = router s.
Proof. unfold loop_head. unfold_pass. by repeat case_match. Qed.

Lemma processNextBatch_queues_wf now s :
  queues_wf s → queues_wf (processNextBatch now s).
Proof.
  intros [Hr Hq]. unfold processNextBatch.
  destruct (negb _ || _); [done|].
  destruct (getNextProcessingJob s) as [job|]; [|done].
  unfold processStream.
  match goal with |- context [loop_head ?p now ?t] =>
    pose proof (loop_head_router p now t) as Hrt;
    pose proof (loop_head_sched p now t) as [_ Hsched];
    destruct (loop_head p now t) as [p' s2] end.
  simpl in Hrt, Hsched. injection Hsched as Hq' _ _ _.
  split; simpl; rewrite ?Hrt, ?Hq'; simpl; [done|].
  by apply odelete_NoDup.
Qed.

Lemma addStreamToQueue_queues_wf sid prio now s :
  queues_wf s → queues_wf (addStreamToQueue sid prio now s).
Proof.
  intros H. unfold addStreamToQueue.
  destruct (Js.oget sid _); [by apply (queues_wf_same s)|].
  cbv zeta.
  match goal with |- context [processNextBatch now ?t] => set (s2 := t) end.
  assert (queues_wf s2).
  { destruct H as [Hr Hq]. split; simpl; [done|]. by apply oset_NoDup. }
  destruct (_ && _); [by apply processNextBatch_queues_wf|done].
Qed.

Lemma removeStreamFromQueue_queues_wf sid s :
  queues_wf s → queues_wf (removeStreamFromQueue sid s).
Proof. intros [Hr Hq]. split; simpl; [done|]. by apply odelete_NoDup. Qed.

Lemma on_buffer_event_queues_wf e now s :
  queues_wf s → queues_wf (on_buffer_event e now s).
Proof.
  intros H. destruct e; simpl; try done.
  - destruct (_ && _); [by apply addStreamToQueue_queues_wf|done].
  - by destruct (Js.oget _ _).
Qed.

Lemma deliver_queues_wf evs now s :
  queues_wf s → queues_wf (deliver evs now s).
Proof.
  revert s. induction evs as [|e evs IH]; intros s H; [done|].
  simpl. apply IH. by apply on_buffer_event_queues_wf.
Qed.

Lemma addFrame_queues_wf sid frame now s :
  queues_wf s → queues_wf (addFrame sid frame now s).2.
Proof.
  intros H. unfold addFrame.
  destruct (StreamBuffer.addFrame _ _ _) as [[r b'] evs].
  by apply deliver_queues_wf.
Qed.

Lemma foldl_addFrame_queues_wf sid fs now s :
  queues_wf s → queues_wf (foldl (λ s frame, (addFrame sid frame now s).2) s fs).
Proof.
  revert s. induction fs as [|f fs IH]; intros s H; [done|].
  simpl. apply IH. by apply addFrame_queues_wf.
Qed.

Lemma routeToAI_queues_wf sid prio now s :
  queues_wf s → queues_wf (routeToAI sid prio now s).
Proof.
  intros [Hr Hq]. unfold routeToAI.
  match goal with |- queues_wf (emits _ ?t) =>
    apply (queues_wf_same t); [done..|] end.
  apply addStreamToQueue_queues_wf. split; simpl; [|done].
  by apply oset_NoDup.
Qed.

Lemma removeRoute_queues_wf sid s :
  queues_wf s → queues_wf (removeRoute sid s).
Proof.
  intros [Hr Hq]. unfold removeRoute.
  apply removeStreamFromQueue_queues_wf. split; simpl; [|done].
  by apply odelete_NoDup.
Qed.

Lemma queues_wf_emit e s : queues_wf s → queues_wf (emit e s).
Proof. done. Qed.

Lemma handleDisconnection_queues_wf sid now s :
  queues_wf s → queues_wf (handleDisconnection sid now s).
Proof.
  intros H. unfold handleDisconnection. cbv zeta.
  apply queues_wf_emit, removeStreamFromQueue_queues_wf, removeRoute_queues_wf.
  unfold removeStream. destruct (StreamBuffer.removeStream _ _) as [b' evs].
  apply deliver_queues_wf. by destruct (activeStreams s !! sid).
Qed.

Lemma step_queues_wf now a s : queues_wf s → queues_wf (step now a s).
Proof.
  intros H. destruct a; simpl.
  - by apply addFrame_queues_wf.
  - unfold getNextFrame.
    destruct (StreamBuffer.getNextFrame _ _) as [[r b'] evs].
    by apply deliver_queues_wf.
  - unfold getFrames.
    destruct (StreamBuffer.getFrames _ _ _) as [[r b'] evs].
    by apply deliver_queues_wf.
  - unfold clearBuffer. destruct (StreamBuffer.clearBuffer _ _) as [b' evs].
    by apply deliver_queues_wf.
  - unfold removeStream. destruct (StreamBuffer.removeStream _ _) as [b' evs].
    by apply deliver_queues_wf.
  - by apply routeToAI_queues_wf.
  - by apply removeRoute_queues_wf.
  - unfold start. destruct (isProcessing _); [done|].
    match goal with |- queues_wf (emit _ ?t) =>
      apply (queues_wf_same t); [done..|] end.
    by apply processNextBatch_queues_wf.
  - destruct H as [Hr _]. split; simpl; [done|]. apply NoDup_nil_2.
  - by apply addStreamToQueue_queues_wf.
  - by apply removeStreamFromQueue_queues_wf.
  - unfold addVideoStream. destruct (validateStream stream); [|done].
    destruct (negb _); [done|].
    match goal with |- queues_wf (emit _ ?t) =>
      apply (queues_wf_same t); [done..|] end.
    apply foldl_addFrame_queues_wf.
    match goal with |- queues_wf (set_sessions _ _ ?t) =>
      apply (queues_wf_same t); [done..|] end.
    destruct (userSessions s !! userId stream) as [existing|]; [|done].
    destruct (Js.truthy existing); [|done].
    by apply handleDisconnection_queues_wf.
  - by apply handleDisconnection_queues_wf.
  - unfold batchDone.
    destruct (passes _ !! i) as [p|]; [|done].
    destruct (point p); try done.
    destruct ok; by apply (queues_wf_same s).
  - unfold yieldDone.
    destruct (passes _ !! i) as [p|]; [|done].
    destruct (point p); try done.
    pose proof (loop_head_router p now s) as Hrt.
    pose proof (loop_head_sched p now s) as [_ Hsched].
    destruct (loop_head p now s) as [p' s1].
    simpl in Hrt, Hsched. injection Hsched as Hq' _ _ _.
    apply (queues_wf_same s); simpl; [by rewrite Hrt|done|done].
  - unfold passThrows.
    destruct (passes _ !! i) as [p|]; [|done].
    destruct (point p); try done; by apply (queues_wf_same s).
  - unfold passFinish.
    destruct (passes _ !! i) as [p|]; [|done].
    destruct (point p) as [| |threw]; try done.
    match goal with |- queues_wf (upd_processor _ ?t) =>
      apply (queues_wf_same t); [done..|] end.
    destruct threw; [|done]. unfold handleProcessingError.
    repeat case_match; by apply (queues_wf_same s).
  - unfold fire. destruct (tasks _ !! k) as [task|]; [|done].
    destruct task; apply processNextBatch_queues_wf; try done.
    destruct H as [Hr Hq]. split; simpl; [done|]. by apply oset_NoDup.
Qed.

Lemma run_queues_wf tr s : queues_wf s → queues_wf (run tr s).
Proof.
  revert s. induction tr as [|[now a] tr IH]; intros s H; [done|].
  simpl. apply IH. by apply step_queues_wf.
Qed.

Lemma loop_head_heap p now s :
  heap (processor (loop_head p now s).2) = heap (processor s).
Proof. unfold loop_head. unfold_pass. by repeat case_match. Qed.

(** [processNextBatch] leaves the router and the job objects alone, and
    takes at most one entry out of the queue. *)
Lemma processNextBatch_effect now s :
  router (processNextBatch now s) = router s
  ∧ heap (processor (processNextBatch now s)) = heap (processor s)
  ∧ (processingQueue (processor (processNextBatch now s))
     = processingQueue (processor s)
     ∨ ∃ sid, processingQueue (processor (processNextBatch now s))
              = Js.odelete sid (processingQueue (processor s))).
Proof.
  unfold processNextBatch. destruct (negb _ || _); [by auto|].
  destruct (getNextProcessingJob s) as [job|]; [|by auto].
  unfold processStream.
  match goal with |- context [loop_head ?p now ?t] =>
    pose proof (loop_head_router p now t) as Hrt;
    pose proof (loop_head_heap p now t) as Hh;
    pose proof (loop_head_sched p now t) as [_ Hsched];
    destruct (loop_head p now t) as [p' s2] end.
  simpl in Hrt, Hh, Hsched. injection Hsched as Hq' _ _ _.
  simpl. rewrite Hrt, Hh, Hq'. simpl. split; [done|]. split; [done|].
  right. by eexists.
Qed.

Lemma addStreamToQueue_router sid prio now s :
  router (addStreamToQueue sid prio now s) = router s.
Proof.
  unfold addStreamToQueue. destruct (Js.oget sid _); [done|].
  cbv zeta. destruct (_ && _); [|done].
  by rewrite (proj1 (processNextBatch_effect _ _)).
Qed.

(** The job found for [sid] once it has been admitted with priority
    [prio] has at least that priority, and exactly that priority when
    the stream was not queued before. *)
Lemma addStreamToQueue_job sid prio now s r job :
  job_of sid (processor (addStreamToQueue sid prio now s)) = Some (r, job) →
  prio <= priority job
  ∧ (Js.oget sid (processingQueue (processor s)) = None → priority job = prio).
Proof.
  unfold addStreamToQueue.
  destruct (Js.oget sid (processingQueue (processor s))) as [r0|] eqn:E.
  - unfold job_of. simpl. rewrite E. simpl.
    rewrite list_lookup_alter. destruct (decide (r0 = r0)); [|done].
    destruct (heap (processor s) !! r0) as [job0|]; [|done]. simpl.
    intros [= <- <-]. simpl. split; [lia|done].
  - cbv zeta.
    match goal with |- context [processNextBatch now ?t] => set (s2 := t) end.
    assert (Hnew : ∀ s',
      heap (processor s') = heap (processor s2) →
      (processingQueue (processor s') = processingQueue (processor s2)
       ∨ ∃ x, processingQueue (processor s')
              = Js.odelete x (processingQueue (processor s2))) →
      job_of sid (processor s') = Some (r, job) → priority job = prio).
    { intros s' Hh Hq. unfold job_of. rewrite Hh.
      assert (Js.oget sid (processingQueue (processor s')) = None
              ∨ Js.oget sid (processingQueue (processor s'))
                = Some (length (heap (processor s)))) as [->| ->].
      { destruct Hq as [->|[x ->]].
        - right. subst s2. simpl. apply oget_oset_eq.
        - destruct (decide (x = sid)) as [->|Hne].
          + left. apply oget_odelete_eq.
          + right. rewrite oget_odelete_ne by done.
            subst s2. simpl. apply oget_oset_eq. }
      - done.
      - subst s2. simpl. rewrite lookup_app_r by done.
        rewrite Nat.sub_diag. simpl. by intros [= <- <-]. }
    destruct (_ && _).
    + destruct (processNextBatch_effect now s2) as (_ & Hh & Hq).
      intros Hjob. specialize (Hnew _ Hh Hq Hjob). split; [lia|done].
    + intros Hjob. specialize (Hnew s2 eq_refl (or_introl eq_refl) Hjob).
      split; [lia|done].
Qed.

End Readmission.

Section ReadmissionClaim.
Import StreamProcessor Pipeline.

Lemma routeToAI_job sid prio now s r job :
  job_of sid (processor (routeToAI sid prio now s)) = Some (r, job) →
  prio <= priority job
  ∧ (Js.oget sid (processingQueue (processor s)) = None → priority job = prio).
Proof.
  unfold routeToAI. simpl. intros Hjob.
  by apply addStreamToQueue_job in Hjob.
Qed.

(** Admitting a stream whose job is queued raises the priority of that
    very job. *)
Lemma routeToAI_requeue sid prio now s r job :
  job_of sid (processor s) = Some (r, job) →
  job_of sid (processor (routeToAI sid prio now s))
  = Some (r, with_priority job (Z.max (priority job) prio)).
Proof.
  unfold job_of. intros Hjob.
  destruct (Js.oget sid (processingQueue (processor s))) as [r'|] eqn:E;
    [|done].
  simpl in Hjob. destruct (heap (processor s) !! r') as [job'|] eqn:Eh;
    [|done].
  simpl in Hjob. injection Hjob as -> ->.
  unfold routeToAI, addStreamToQueue. simpl. rewrite E. simpl. rewrite E. simpl.
  rewrite list_lookup_alter. destruct (decide (r = r)); [|done].
  by rewrite Eh.
Qed.

Lemma routeToAI_router_queue sid prio now s :
  StreamRouter.processingQueue (router (routeToAI sid prio now s))
  = Js.oset sid prio (StreamRouter.processingQueue (router s)).
Proof. unfold routeToAI. simpl. by rewrite addStreamToQueue_router. Qed.

(** C4, as stated, fails on the router: re-admitting with a lower
    priority overwrites the higher one. *)
Lemma C4_counterexample :
  let s := run [(0, RouteToAI "s2" 5); (1, RouteToAI "s2" 1)] (create 30 5) in
  Js.oget "s2" (StreamRouter.processingQueue (router s)) = Some 1
  ∧ Z.max 5 1 ≠ 1.
Proof. by vm_compute. Qed.

(** C4 (amended): in every reachable state, admitting a stream through
    the router with [p1] and then with [p2] leaves exactly one router
    entry for it, whose priority is [p2], the last one given (which may
    be lower than [p1]); the coordinator's queue never holds two jobs
    for the stream; and a job that is still queued after the first
    admission stays the only one, keeps its identity and gets the
    priority [max(old, p2)], which is at least [max(p1, p2)], and equal
    to it when the stream had no job before. *)
Theorem C4_readmission_overwrites_route_and_raises_job
    (bufferSize max : Z) (tr : list (Z * Action))
    (sid : string) (p1 p2 now1 now2 : Z) :
  let s := run tr (create bufferSize max) in
  let s1 := routeToAI sid p1 now1 s in
  let s2 := routeToAI sid p2 now2 s1 in
  Js.ocount sid (StreamRouter.processingQueue (router s2)) = 1%nat
  ∧ Js.oget sid (StreamRouter.processingQueue (router s2)) = Some p2
  ∧ (Js.ocount sid (processingQueue (processor s2)) <= 1)%nat
  ∧ (∀ r job,
       job_of sid (processor s1) = Some (r, job) →
       Js.ocount sid (processingQueue (processor s2)) = 1%nat
       ∧ job_of sid (processor s2)
         = Some (r, with_priority job (Z.max (priority job) p2))
       ∧ Z.max p1 p2 <= Z.max (priority job) p2
       ∧ (Js.oget sid (processingQueue (processor s)) = None →
          Z.max (priority job) p2 = Z.max p1 p2)).
Proof.
  intros s s1 s2.
  assert (Hwf : queues_wf s2).
  { apply routeToAI_queues_wf, routeToAI_queues_wf, run_queues_wf.
    split; apply NoDup_nil_2. }
  destruct Hwf as [Hr Hq].
  pose proof (routeToAI_router_queue sid p2 now2 s1) as Hrt. fold s2 in Hrt.
  split; [|split; [|split]].
  - eapply ocount_present; [done|]. rewrite Hrt. apply oget_oset_eq.
  - rewrite Hrt. apply oget_oset_eq.
  - destruct (Js.oget sid (processingQueue (processor s2))) as [r|] eqn:E.
    + by rewrite (ocount_present _ _ _ Hq E).
    + rewrite (ocount_absent _ _ E). lia.
  - intros r job Hjob. subst s1 s2.
    pose proof (routeToAI_job _ _ _ _ _ _ Hjob) as [Hle Heq].
    pose proof (routeToAI_requeue sid p2 now2 _ _ _ Hjob) as Hsecond.
    split; [|split; [done|]].
    + unfold job_of in Hsecond.
      destruct (Js.oget sid (processingQueue (processor _))) as [r'|] eqn:E
        in Hsecond; [|done].
      by rewrite (ocount_present _ _ _ Hq E).
    + split; [lia|]. intros Hnone. by rewrite (Heq Hnone).
Qed.

End ReadmissionClaim.

(** The amended C4 on the scenario of the specification: ["s2"] admitted
    with priority 1, then with priority 5. *)
Lemma C4_witness :
  let s1 := Pipeline.routeToAI "s2" 1 0 (Pipeline.create 30 5) in
  let s2 := Pipeline.routeToAI "s2" 5 1 s1 in
  Js.ocount "s2" (StreamProcessor.processingQueue (Pipeline.processor s2))
  = 1%nat
  ∧ (snd <$> StreamProcessor.job_of "s2" (Pipeline.processor s2))
    = Some {| StreamProcessor.job_streamId := "s2";
              StreamProcessor.priority := 5;
              StreamProcessor.queuedAt := 0;
              StreamProcessor.frameCount := 0;
              StreamProcessor.retryCount := 0 |}.
Proof.
  pose proof (C4_readmission_overwrites_route_and_raises_job
                30 5 [] "s2" 1 5 0 1) as (_ & _ & _ & H).
  destruct (H 0%nat
              {| StreamProcessor.job_streamId := "s2";
                 StreamProcessor.priority := 1;
                 StreamProcessor.queuedAt := 0;
                 StreamProcessor.frameCount := 0;
                 StreamProcessor.retryCount := 0 |} eq_refl)
    as (Hcount & Hjob & _).
  split; [exact Hcount|]. exact (f_equal (fmap snd) Hjob).
Defined.

(** ** Teardown *)

Section Teardown.
Import StreamProcessor Pipeline.
Implicit Types (s : Sys) (sid : string) (now : Z).

(** The coordinator once [removeStreamFromQueue sid] has run. *)
Definition without_stream sid (pr : StreamProcessor.t) : StreamProcessor.t :=
  set_metrics (delete sid (processingMetrics pr))
    (set_active (activeProcessing pr ∖ {[sid]})
       (set_queue (Js.odelete sid (processingQueue pr)) pr)).

(** The state that a disconnection of [sid] leaves, log apart. *)
Definition disconnected sid s : Sys :=
  {| buffer :=
       StreamBuffer.with_buffers (buffer s)
         (delete sid (StreamBuffer.buffers (buffer s)));
     router := StreamRouter.removeRoute_delete sid (router s);
     processor := without_stream sid (processor s);
     activeStreams := delete sid (activeStreams s);
     userSessions :=
       match activeStreams s !! sid with
       | Some stream => delete (userId stream) (userSessions s)
       | None => userSessions s
       end;
     log := [] |}.

(** Every user session points to a registered stream of that user. *)
Definition sessions_consistent s : Prop :=
  ∀ uid sid, userSessions s !! uid = Some sid →
    ∃ stream, activeStreams s !! sid = Some stream ∧ userId stream = uid.

Lemma difference_singleton_idemp (A : gset string) (x : string) :
  A ∖ {[x]} ∖ {[x]} = A ∖ {[x]}.
Proof.
  apply set_eq. intros y. rewrite !elem_of_difference. tauto.
Qed.

Lemma without_stream_idemp sid pr :
  without_stream sid (without_stream sid pr) = without_stream sid pr.
Proof.
  destruct pr as [h q a m pm ip ps ts]. unfold without_stream. simpl.
  unfold set_metrics, set_active, set_queue. simpl.
  rewrite odelete_idemp.
  rewrite difference_singleton_idemp.
  assert (delete sid (delete sid pm) = delete sid pm) as ->; [|done].
  apply map_eq. intros k. rewrite !lookup_delete. by case_decide.
Qed.

Lemma sys_eq s t :
  buffer s = buffer t → router s = router t → processor s = processor t →
  activeStreams s = activeStreams t → userSessions s = userSessions t →
  log s = log t → s = t.
Proof. destruct s, t. simpl. by intros -> -> -> -> -> ->. Qed.

(** [removeStream] drops the array of the stream and nothing else. *)
Lemma removeStream_effect sid now s :
  buffer (removeStream sid now s)
  = StreamBuffer.with_buffers (buffer s)
      (delete sid (StreamBuffer.buffers (buffer s)))
  ∧ router (removeStream sid now s) = router s
  ∧ processor (removeStream sid now s) = processor s
  ∧ activeStreams (removeStream sid now s) = activeStreams s
  ∧ userSessions (removeStream sid now s) = userSessions s.
Proof.
  unfold removeStream, StreamBuffer.removeStream.
  destruct (StreamBuffer.buffers (buffer s) !! sid) as [frames|] eqn:E.
  - done.
  - rewrite delete_id by done. by destruct (buffer s).
Qed.

Lemma handleDisconnection_state sid now s :
  set_log [] (handleDisconnection sid now s) = disconnected sid s.
Proof.
  unfold handleDisconnection.
  match goal with |- context [removeStream sid now ?t] => set (s1 := t) end.
  destruct (removeStream_effect sid now s1) as (Hb & Hr & Hp & Ha & Hu).
  assert (Hs1 : buffer s1 = buffer s ∧ router s1 = router s
                ∧ processor s1 = processor s
                ∧ activeStreams s1 = delete sid (activeStreams s)
                ∧ userSessions s1
                  = match activeStreams s !! sid with
                    | Some stream => delete (userId stream) (userSessions s)
                    | None => userSessions s
                    end).
  { subst s1. destruct (activeStreams s !! sid) as [stream|] eqn:E.
    - done.
    - by rewrite delete_id. }
  destruct Hs1 as (Hb1 & Hr1 & Hp1 & Ha1 & Hu1).
  set (s2 := removeStream sid now s1) in *. clearbody s2 s1.
  apply sys_eq.
  - transitivity (buffer s2); [reflexivity|]. by rewrite Hb, Hb1.
  - transitivity (StreamRouter.removeRoute_delete sid (router s2));
      [reflexivity|]. by rewrite Hr, Hr1.
  - transitivity (without_stream sid (without_stream sid (processor s2)));
      [reflexivity|]. by rewrite without_stream_idemp, Hp, Hp1.
  - transitivity (activeStreams s2); [reflexivity|]. by rewrite Ha, Ha1.
  - transitivity (userSessions s2); [reflexivity|]. by rewrite Hu, Hu1.
  - reflexivity.
Qed.

(** What a state shares with its copy without log. *)
Lemma unlogged s t :
  set_log [] s = t →
  buffer s = buffer t ∧ router s = router t ∧ processor s = processor t
  ∧ activeStreams s = activeStreams t ∧ userSessions s = userSessions t.
Proof. by intros <-. Qed.

Lemma disconnected_log sid s : disconnected sid (set_log [] s) = disconnected sid s.
Proof. done. Qed.

Lemma disconnected_idemp sid s :
  disconnected sid (disconnected sid s) = disconnected sid s.
Proof.
  unfold disconnected. simpl. rewrite without_stream_idemp.
  rewrite lookup_delete_eq.
  assert (delete sid (delete sid (activeStreams s)) = delete sid (activeStreams s))
    as ->.
  { apply map_eq. intros k. rewrite !lookup_delete. by case_decide. }
  assert (delete sid (delete sid (StreamBuffer.buffers (buffer s)))
          = delete sid (StreamBuffer.buffers (buffer s))) as ->.
  { apply map_eq. intros k. rewrite !lookup_delete. by case_decide. }
  unfold StreamRouter.removeRoute_delete. simpl. rewrite odelete_idemp.
  by rewrite difference_singleton_idemp.
Qed.

(** The events of a disconnection that finds nothing left to remove. *)
Lemma handleDisconnection_log sid now s :
  StreamBuffer.buffers (buffer s) !! sid = None →
  log (handleDisconnection sid now s)
  = log s
    ++ [Rt (StreamRouter.RouteRemoved sid);
        Pr (QueueRemoved sid
              (Js.len (Js.odelete sid (processingQueue (processor s)))));
        Pr (QueueRemoved sid
              (Js.len (Js.odelete sid (processingQueue (processor s)))));
        StreamDisconnected sid].
Proof.
  intros Hb. unfold handleDisconnection, removeRoute, removeStreamFromQueue.
  unfold removeStream, StreamBuffer.removeStream.
  assert (∀ s', buffer s' = buffer s →
            StreamBuffer.buffers (buffer s') !! sid = None) as Hb'.
  { by intros s' ->. }
  destruct (activeStreams s !! sid); rewrite Hb' by done; simpl;
    rewrite odelete_idemp; by rewrite <-!(assoc_L (++)).
Qed.

End Teardown.

Section TeardownClaim.
Import StreamProcessor Pipeline.

(** A stream description that passes validation, and the service state
    once it has been added to a fresh pipeline. *)
Definition sample_stream : VideoStream :=
  {| streamId := "s1"; userId := "u1";
     config := Some {| resolution := Some {| res_width := 1280;
                                             res_height := 720 |};
                       frameRate := 30; bitrate := 2000000;
                       audioEnabled := true |};
     frames := Some [frame_at 1; frame_at 2] |}.

Definition sample_state : Sys :=
  run [(0, Start); (1, AddVideoStream sample_stream)] (create 30 5).

(** The same stream id, registered anew by a second user, and the
    service state after both registrations: the first user still has
    the session, the stream is registered to the second. *)
Definition second_stream : VideoStream :=
  {| streamId := "s1"; userId := "u2";
     config := config sample_stream; frames := frames sample_stream |}.

Definition shared_state : Sys :=
  run [(0, Start); (1, AddVideoStream sample_stream);
       (2, AddVideoStream second_stream)] (create 30 5).

(** C7, as stated, fails on the user sessions: after one call and
    after two, the first user of a stream id that a second user
    registered anew still has a session that maps to the stream. *)
Lemma C7_counterexample :
  let s1 := handleDisconnection "s1" 3 shared_state in
  let s2 := handleDisconnection "s1" 4 s1 in
  activeStreams shared_state !! "s1" = Some second_stream
  ∧ userSessions s1 !! "u1" = Some "s1"
  ∧ userSessions s2 !! "u1" = Some "s1"
  ∧ ¬ (∀ uid, userSessions s2 !! uid ≠ Some "s1").
Proof.
  intros s1 s2.
  assert (H2 : userSessions s2 !! "u1" = Some "s1") by (by vm_compute).
  split; [by vm_compute|]. split; [by vm_compute|]. split; [done|].
  intros H. by apply (H "u1").
Qed.

(** C7 (amended): in any state of the service (stream known or not,
    torn down in part or in full), [handleDisconnection] returns
    without error, and calling it a second time leaves the state the
    first call left: no buffer for the stream (size 0), no job entry,
    no membership of the active set, no router admission, no
    registration, and no session of the user the stream was registered
    to. The sessions of all other users are left as they were: a
    session that maps to the stream after the call was there before it
    and belongs to a user other than the registered one; there is none
    when every session points to a registered stream of its user. The
    second call emits no error event. *)
Theorem C7_handleDisconnection_is_idempotent
    (s : Sys) (sid : string) (now1 now2 : Z) :
  let s1 := handleDisconnection sid now1 s in
  let s2 := handleDisconnection sid now2 s1 in
  set_log [] s2 = set_log [] s1
  ∧ (StreamBuffer.buffers (buffer s1) !! sid = None
     ∧ StreamBuffer.getBufferSize sid (buffer s1) = 0
     ∧ Js.oget sid (processingQueue (processor s1)) = None
     ∧ (sid ∉ activeProcessing (processor s1))
     ∧ Js.oget sid (StreamRouter.processingQueue (router s1)) = None
     ∧ StreamRouter.isRouted sid (router s1) = false
     ∧ activeStreams s1 !! sid = None
     ∧ (∀ stream, activeStreams s !! sid = Some stream →
          userSessions s1 !! userId stream = None)
     ∧ userSessions s1
       = match activeStreams s !! sid with
         | Some stream => delete (userId stream) (userSessions s)
         | None => userSessions s
         end
     ∧ (∀ uid, userSessions s1 !! uid = Some sid →
          userSessions s !! uid = Some sid
          ∧ ∀ stream, activeStreams s !! sid = Some stream →
                      userId stream ≠ uid)
     ∧ (sessions_consistent s → ∀ uid, userSessions s1 !! uid ≠ Some sid))
  ∧ (∃ evs, log s2 = log s1 ++ evs ∧ ∀ x, StreamError x ∉ evs).
Proof.
  intros s1 s2.
  pose proof (handleDisconnection_state sid now1 s) as H1. fold s1 in H1.
  pose proof (handleDisconnection_state sid now2 s1) as H2. fold s2 in H2.
  pose proof (handleDisconnection_log sid now2 s1) as Hlog. fold s2 in Hlog.
  clearbody s2. clearbody s1.
  apply unlogged in H1 as (Hb & Hr & Hp & Ha & Hu).
  unfold disconnected in Hb, Hr, Hp, Ha, Hu.
  cbn [buffer router processor activeStreams userSessions] in Hb, Hr, Hp, Ha, Hu.
  assert (Hbuf : StreamBuffer.buffers (buffer s1) !! sid = None).
  { rewrite Hb. apply lookup_delete_eq. }
  split; [|split].
  - rewrite H2. unfold disconnected.
    apply sys_eq;
      cbn [buffer router processor activeStreams userSessions log set_log].
    + rewrite Hb. cbn [StreamBuffer.buffers StreamBuffer.with_buffers].
      unfold StreamBuffer.with_buffers. f_equal. apply map_eq. intros k.
      rewrite !lookup_delete. by case_decide.
    + rewrite Hr. unfold StreamRouter.removeRoute_delete.
      cbn [StreamRouter.processingQueue StreamRouter.activeRoutes].
      by rewrite odelete_idemp, difference_singleton_idemp.
    + by rewrite Hp, without_stream_idemp.
    + rewrite Ha. apply map_eq. intros k. rewrite !lookup_delete.
      by case_decide.
    + by rewrite Ha, lookup_delete_eq.
    + done.
  - split; [done|]. split.
    { unfold StreamBuffer.getBufferSize. by rewrite Hbuf. }
    split; [rewrite Hp; apply oget_odelete_eq|].
    split.
    { rewrite Hp. simpl. rewrite elem_of_difference, elem_of_singleton. tauto. }
    split; [rewrite Hr; apply oget_odelete_eq|].
    split.
    { rewrite Hr. unfold StreamRouter.isRouted. simpl.
      apply bool_decide_eq_false_2.
      rewrite elem_of_difference, elem_of_singleton. tauto. }
    split; [rewrite Ha; apply lookup_delete_eq|].
    split.
    { intros stream Hs. rewrite Hu, Hs. apply lookup_delete_eq. }
    split; [exact Hu|].
    split.
    { intros uid. rewrite Hu.
      destruct (activeStreams s !! sid) as [stream|] eqn:Hs.
      - intros [Hne Hin]%lookup_delete_Some. split; [done|].
        by intros stream' [= <-].
      - intros Hin. split; [done|]. by intros stream' [=]. }
    intros Hcons uid. rewrite Hu.
    destruct (activeStreams s !! sid) as [stream|] eqn:Hs.
    + rewrite lookup_delete. case_decide as Huid; [done|].
      intros Hin. destruct (Hcons _ _ Hin) as (stream' & Hs' & Hu').
      rewrite Hs in Hs'. injection Hs' as <-. by subst.
    + intros Hin. destruct (Hcons _ _ Hin) as (stream' & Hs' & _).
      by rewrite Hs in Hs'.
  - eexists. split; [by apply Hlog|].
    intros x Hin. repeat (apply elem_of_cons in Hin as [Hin|Hin]; [done|]).
    by apply not_elem_of_nil in Hin.
Qed.

(** C7 at two calls in a row on the stream of the sample state, and on
    the stream that two users registered: the second call changes
    nothing but the log and emits no error; the registered user has no
    session left, and the session of the first user of the shared
    stream is the only one that maps to it. *)
Lemma C7_witness :
  (let s1 := handleDisconnection "s1" 2 sample_state in
   let s2 := handleDisconnection "s1" 3 s1 in
   set_log [] s2 = set_log [] s1
   ∧ activeStreams s2 !! "s1" = None
   ∧ userSessions s2 !! "u1" = None
   ∧ ∃ evs, log s2 = log s1 ++ evs ∧ ∀ x, StreamError x ∉ evs)
  ∧ (let s1 := handleDisconnection "s1" 3 shared_state in
     let s2 := handleDisconnection "s1" 4 s1 in
     set_log [] s2 = set_log [] s1
     ∧ userSessions s2 !! "u2" = None
     ∧ userSessions s2 = delete "u2" (userSessions shared_state)
     ∧ ∃ evs, log s2 = log s1 ++ evs ∧ ∀ x, StreamError x ∉ evs).
Proof.
  split.
  - intros s1 s2.
    destruct (C7_handleDisconnection_is_idempotent sample_state "s1" 2 3)
      as (Heq & (_ & _ & _ & _ & _ & _ & Ha & Hown & _) & Hlog).
    fold s1 in Heq, Ha, Hown, Hlog. fold s2 in Heq, Hlog.
    specialize (Hown sample_stream eq_refl).
    clearbody s2. clearbody s1.
    pose proof (unlogged _ _ Heq) as (_ & _ & _ & Ha2 & Hu2).
    cbn [activeStreams userSessions set_log] in Ha2, Hu2.
    rewrite Ha2, Hu2. split; [done|]. split; [exact Ha|].
    split; [exact Hown|exact Hlog].
  - intros s1 s2.
    destruct (C7_handleDisconnection_is_idempotent shared_state "s1" 3 4)
      as (Heq & (_ & _ & _ & _ & _ & _ & _ & Hown & Hses & _) & Hlog).
    fold s1 in Heq, Hown, Hses, Hlog. fold s2 in Heq, Hlog.
    specialize (Hown second_stream eq_refl).
    change (activeStreams shared_state !! "s1")
      with (Some second_stream) in Hses.
    clearbody s2. clearbody s1.
    pose proof (unlogged _ _ Heq) as (_ & _ & _ & _ & Hu2).
    cbn [userSessions set_log] in Hu2.
    rewrite Hu2. split; [done|]. split; [exact Hown|].
    split; [exact Hses|exact Hlog].
Defined.

End TeardownClaim.

(** ** Validation *)

Section Validation.
Import Pipeline.

(** A sequence of white-space characters. *)
Inductive white : string → Prop :=
| white_nil : white ""
| white_1 a s : Js.is_space1 a = true → white s → white (String a s)
| white_2 a b s :
    Js.is_space2 a b = true → white s → white (String a (String b s))
| white_3 a b c s :
    Js.is_space3 a b c = true → white s →
    white (String a (String b (String c s))).

(** The string has a character that [trim] keeps. *)
Definition present (s : string) : Prop := ¬ white s.

Lemma string_length_ind (P : string → Prop) :
  (∀ s, (∀ t, (String.length t < String.length s)%nat → P t) → P s) →
  ∀ s, P s.
Proof.
  intros H s. induction s as [s IH] using (induction_ltof1 _ String.length).
  apply H. intros t Ht. by apply IH.
Qed.

(** The first byte of a two-byte or three-byte white-space character
    is not a character of its own. *)
Lemma is_space2_lead a b : Js.is_space2 a b = true → Js.is_space1 a = false.
Proof.
  unfold Js.is_space2, Js.is_space1.
  intros [Ha _]%andb_true_iff. apply Nat.eqb_eq in Ha. by rewrite Ha.
Qed.

Lemma is_space3_lead a b c :
  Js.is_space3 a b c = true →
  Js.is_space1 a = false ∧ Js.is_space2 a b = false.
Proof.
  unfold Js.is_space3, Js.is_space2, Js.is_space1.
  generalize (nat_of_ascii a), (nat_of_ascii b), (nat_of_ascii c).
  intros x y z H.
  assert (Hx : x = 225%nat ∨ x = 226%nat ∨ x = 227%nat ∨ x = 239%nat).
  { rewrite !orb_true_iff, !andb_true_iff, !Nat.eqb_eq in H.
    destruct H as [[[[((-> & _) & _)|((-> & _) & _)]|((-> & _) & _)]
                    |((-> & _) & _)]|((-> & _) & _)]; auto. }
  by destruct Hx as [->|[->|[->| ->]]].
Qed.

Lemma all_space_white s : Js.all_space s = true ↔ white s.
Proof.
  split.
  - induction s as [s IH] using string_length_ind.
    destruct s as [|a t]; [intros _; apply white_nil|].
    cbn [Js.all_space]. destruct (Js.is_space1 a) eqn:E1.
    { intros H. apply white_1; [done|]. apply IH; [simpl; lia|done]. }
    destruct t as [|b u]; [done|].
    destruct (Js.is_space2 a b) eqn:E2.
    { intros H. apply white_2; [done|]. apply IH; [simpl; lia|done]. }
    destruct u as [|c v]; [done|].
    destruct (Js.is_space3 a b c) eqn:E3; [|done].
    intros H. apply white_3; [done|]. apply IH; [simpl; lia|done].
  - induction 1 as [|a s Ha _ IH|a b s Hab _ IH|a b c s Habc _ IH];
      cbn [Js.all_space]; [done|by rewrite Ha| |].
    + by rewrite (is_space2_lead _ _ Hab), Hab.
    + destruct (is_space3_lead _ _ _ Habc) as [-> ->]. by rewrite Habc.
Qed.

(** [trimStart] strips white space only. *)
Lemma trim_start_all_space s :
  Js.all_space (Js.trim_start s) = Js.all_space s.
Proof.
  induction s as [s IH] using string_length_ind.
  destruct s as [|a t]; [done|].
  cbn [Js.trim_start Js.all_space]. destruct (Js.is_space1 a) eqn:E1.
  { apply IH. simpl. lia. }
  destruct t as [|b u]; [by cbn [Js.all_space]; rewrite E1|].
  destruct (Js.is_space2 a b) eqn:E2.
  { apply IH. simpl. lia. }
  destruct u as [|c v]; [by cbn [Js.all_space]; rewrite E1, E2|].
  destruct (Js.is_space3 a b c) eqn:E3.
  { apply IH. simpl. lia. }
  cbn [Js.all_space]. by rewrite E1, E2, E3.
Qed.

Lemma trim_end_empty s : Js.trim_end s = "" ↔ Js.all_space s = true.
Proof.
  destruct s as [|a t]; [done|]. cbn [Js.trim_end].
  by destruct (Js.all_space (String a t)).
Qed.

(** [trim] leaves nothing exactly when every character is white space. *)
Lemma trim_empty s : Js.trim s = "" ↔ Js.all_space s = true.
Proof. unfold Js.trim. by rewrite trim_end_empty, trim_start_all_space. Qed.

Lemma blank_present s : blank s = false ↔ present s.
Proof.
  unfold present. rewrite <-all_space_white. unfold blank.
  destruct (String.eqb_spec (Js.trim s) "") as [Ht|Ht].
  - rewrite orb_true_r. apply trim_empty in Ht. by rewrite Ht.
  - rewrite orb_false_r.
    assert (Js.all_space s = false) as ->.
    { destruct (Js.all_space s) eqn:E; [|done]. by apply trim_empty in E. }
    destruct s; [by destruct Ht|done].
Qed.

(** A stream description on which no check of [validateStream]
    fails. *)
Definition acceptable (stream : VideoStream) : Prop :=
  present (streamId stream) ∧ present (userId stream)
  ∧ ∃ c res,
      config stream = Some c ∧ resolution c = Some res
      ∧ Js.le (res_width res) 0 = false ∧ Js.le (res_height res) 0 = false
      ∧ Js.le (frameRate c) 0 = false ∧ Js.gt (frameRate c) 120 = false
      ∧ Js.le (bitrate c) 0 = false.

(** A stream description with all that validation is to require: both
    ids present, a configuration, both resolution axes above 0, a frame
    rate in (0, 120] and a bit rate above 0. *)
Definition well_formed (stream : VideoStream) : Prop :=
  present (streamId stream) ∧ present (userId stream)
  ∧ ∃ c res w h f b,
      config stream = Some c ∧ resolution c = Some res
      ∧ res_width res = Js.Int w ∧ res_height res = Js.Int h
      ∧ frameRate c = Js.Int f ∧ bitrate c = Js.Int b
      ∧ 0 < w ∧ 0 < h ∧ 0 < f <= 120 ∧ 0 < b.

(** None of the four numbers of the configuration is [NaN]. *)
Definition numeric (stream : VideoStream) : Prop :=
  ∀ c res,
    config stream = Some c → resolution c = Some res →
    res_width res ≠ Js.NaN ∧ res_height res ≠ Js.NaN
    ∧ frameRate c ≠ Js.NaN ∧ bitrate c ≠ Js.NaN.

Definition no_frames (stream : VideoStream) : Prop :=
  frames stream = None ∨ frames stream = Some [].

Definition high_resolution (stream : VideoStream) : Prop :=
  ∃ c res,
    config stream = Some c ∧ resolution c = Some res
    ∧ (Js.gt (res_width res) 1920 = true ∨ Js.gt (res_height res) 1080 = true).

Definition with_frames (stream : VideoStream) (fs : option (list VideoFrame))
  : VideoStream :=
  {| streamId := streamId stream; userId := userId stream;
     config := config stream; frames := fs |}.

Definition frames_warning : string := "No video frames present in stream".

Definition resolution_warning : string :=
  "High resolution may impact processing performance".

Lemma frames_warning_spec (stream : VideoStream) :
  let w := match frames stream with
           | None => [frames_warning]
           | Some fs => if Js.len fs =? 0 then [frames_warning] else []
           end in
  (In frames_warning w ↔ no_frames stream)
  ∧ ¬ In resolution_warning w.
Proof.
  unfold no_frames. destruct (frames stream) as [fs|]; simpl.
  - destruct fs as [|f fs]; simpl.
    + split; [by intuition|]. by intros [[=]|[]].
    + split; [|by intros []]. split; [by intros []|]. by intros [[=]|[=]].
  - split; [by intuition|]. by intros [[=]|[]].
Qed.

Lemma validateStream_no_config stream :
  config stream = None →
  ∃ r, validateStream stream = Ok r ∧ isValid r = false ∧ errors r ≠ []
       ∧ warnings r = match frames stream with
                      | None => [frames_warning]
                      | Some fs =>
                          if Js.len fs =? 0 then [frames_warning] else []
                      end.
Proof.
  intros Hc. unfold validateStream. rewrite Hc. eexists. split; [done|].
  simpl. split; [|split; [|done]].
  - rewrite !len_app. pose proof (len_nonneg
      (if blank (streamId stream) then ["Stream ID is required"] else [])).
    pose proof (len_nonneg
      (if blank (userId stream) then ["User ID is required"] else [])).
    apply Z.eqb_neq. unfold Js.len at 3. simpl. lia.
  - destruct (blank (streamId stream)), (blank (userId stream)); done.
Qed.

Lemma validateStream_config stream c res :
  config stream = Some c → resolution c = Some res →
  ∃ r, validateStream stream = Ok r
       ∧ (isValid r = true ↔ acceptable stream)
       ∧ (isValid r = true ↔ errors r = [])
       ∧ warnings r
         = (if Js.gt (res_width res) 1920 || Js.gt (res_height res) 1080
            then [resolution_warning] else [])
           ++ match frames stream with
              | None => [frames_warning]
              | Some fs => if Js.len fs =? 0 then [frames_warning] else []
              end.
Proof.
  intros Hc Hres. unfold validateStream. rewrite Hc, Hres.
  eexists. split; [done|]. unfold acceptable. simpl.
  pose proof (blank_present (streamId stream)) as P1.
  pose proof (blank_present (userId stream)) as P2.
  split; [|split; [|done]].
  - destruct (blank (streamId stream)), (blank (userId stream)),
      (Js.le (res_width res) 0) eqn:Ew, (Js.le (res_height res) 0) eqn:Eh,
      (Js.le (frameRate c) 0) eqn:Ef, (Js.gt (frameRate c) 120) eqn:Eg,
      (Js.le (bitrate c) 0) eqn:Eb; simpl;
      (split;
       [try discriminate; intros _;
        (split; [by apply P1|]); (split; [by apply P2|]);
        by exists c, res
       |intros (Hsid & Huid & c' & res' & Hc' & Hres' & Hw & Hh & Hf & Hg & Hb);
        try (apply P1 in Hsid; discriminate);
        try (apply P2 in Huid; discriminate);
        rewrite Hc in Hc'; injection Hc' as <-;
        rewrite Hres in Hres'; injection Hres' as <-;
        congruence]).
  - destruct (blank (streamId stream)), (blank (userId stream)),
      (Js.le (res_width res) 0), (Js.le (res_height res) 0),
      (Js.le (frameRate c) 0), (Js.gt (frameRate c) 120),
      (Js.le (bitrate c) 0);
      simpl; split; done.
Qed.

(** On numbers other than [NaN], the checks are the ranges. *)
Lemma well_formed_acceptable stream :
  (well_formed stream → acceptable stream)
  ∧ (acceptable stream → numeric stream → well_formed stream).
Proof.
  unfold well_formed, acceptable, numeric. split.
  - intros (Hs & Hu & c & res & w & h & f & b & Hc & Hr & Hw & Hh & Hf & Hb
            & ? & ? & ? & ?).
    split; [done|]. split; [done|]. exists c, res.
    rewrite Hw, Hh, Hf, Hb. cbn [Js.le Js.gt].
    repeat split; try done; (apply Z.leb_gt || apply Z.ltb_ge); lia.
  - intros (Hs & Hu & c & res & Hc & Hr & Hw & Hh & Hf & Hg & Hb) Hnum.
    destruct (Hnum c res Hc Hr) as (Nw & Nh & Nf & Nb).
    split; [done|]. split; [done|].
    destruct (res_width res) as [w|] eqn:Ew; [|done].
    destruct (res_height res) as [h|] eqn:Eh; [|done].
    destruct (frameRate c) as [f|] eqn:Ef; [|done].
    destruct (bitrate c) as [b|] eqn:Eb; [|done].
    cbn [Js.le Js.gt] in Hw, Hh, Hf, Hg, Hb.
    apply Z.leb_gt in Hw, Hh, Hf, Hb. apply Z.ltb_ge in Hg.
    exists c, res, w, h, f, b. repeat split; try done; lia.
Qed.

End Validation.

(** A description that is well formed but for its frame rate, which is
    [NaN]; and one whose configuration has no resolution. *)
Definition nan_frame_rate : VideoStream :=
  {| streamId := "s1"; userId := "u1";
     config := Some {| resolution := Some {| res_width := 1280;
                                             res_height := 720 |};
                       frameRate := Js.NaN; bitrate := 2000000;
                       audioEnabled := true |};
     frames := Some [frame_at 1] |}.

Definition no_resolution : VideoStream :=
  {| streamId := "s1"; userId := "u1";
     config := Some {| resolution := None; frameRate := 30;
                       bitrate := 2000000; audioEnabled := true |};
     frames := Some [frame_at 1] |}.

(** C9 (what the code does where the claim fails, and elsewhere):
    on a description whose configuration has no resolution,
    [validateStream] throws and returns no result, although it tests
    for the missing resolution itself and returns a result, with an
    error, when the whole configuration is missing; on every other
    description it returns a result, whose [isValid] is [true] exactly
    when no check fails, which is exactly when [errors] is empty, with
    the frames warning exactly for absent or empty frames and the
    performance warning exactly above 1920 x 1080; neither warning, and
    no change of the frames, changes [isValid] or [errors]. On numbers
    other than [NaN] no check fails exactly when both ids and the
    configuration are present, both resolution axes are above 0, the
    frame rate lies in (0, 120] and the bit rate is above 0. On [NaN]
    every check passes: a description whose frame rate is [NaN] is
    valid without any error. *)
Theorem C9_validateStream_throws_without_resolution_and_accepts_NaN :
  (∀ stream c,
     config stream = Some c → resolution c = None →
     ∃ m, Pipeline.validateStream stream = Pipeline.Throw m)
  ∧ Pipeline.validateStream no_resolution
    = Pipeline.Throw "TypeError: Cannot read properties of undefined"
  ∧ (∀ stream,
       config stream = None →
       ∃ r, Pipeline.validateStream stream = Pipeline.Ok r
            ∧ isValid r = false
            ∧ In "Stream configuration is required" (errors r))
  ∧ (∀ stream,
       (∀ c, config stream = Some c → is_Some (resolution c)) →
       ∃ r,
         Pipeline.validateStream stream = Pipeline.Ok r
         ∧ (isValid r = true ↔ acceptable stream)
         ∧ (numeric stream → (isValid r = true ↔ well_formed stream))
         ∧ (isValid r = true ↔ errors r = [])
         ∧ (In frames_warning (warnings r) ↔ no_frames stream)
         ∧ (In resolution_warning (warnings r) ↔ high_resolution stream)
         ∧ (∀ fs, ∃ r',
              Pipeline.validateStream (with_frames stream fs) = Pipeline.Ok r'
              ∧ isValid r' = isValid r ∧ errors r' = errors r))
  ∧ (∀ stream, well_formed stream → acceptable stream)
  ∧ (∀ stream, acceptable stream → numeric stream → well_formed stream)
  ∧ (Pipeline.validateStream nan_frame_rate
     = Pipeline.Ok {| isValid := true; errors := []; warnings := [] |}
     ∧ ¬ well_formed nan_frame_rate).
Proof.
  split; [|split; [done|split; [|split; [|split; [|split]]]]].
  - intros stream c Hc Hr. unfold Pipeline.validateStream.
    rewrite Hc, Hr. by eexists.
  - intros stream Hc. unfold Pipeline.validateStream. rewrite Hc.
    eexists. split; [done|]. cbn [isValid errors]. split.
    + apply Z.eqb_neq. rewrite !len_app.
      pose proof (len_nonneg
        (if Pipeline.blank (streamId stream)
         then ["Stream ID is required"] else [])).
      pose proof (len_nonneg
        (if Pipeline.blank (userId stream)
         then ["User ID is required"] else [])).
      unfold Js.len at 3. simpl. lia.
    + rewrite !in_app_iff. right. right. by left.
  - intros stream Hres.
    pose proof (frames_warning_spec stream) as [Hfw Hrw].
    assert (Hwf : ∀ r, (isValid r = true ↔ acceptable stream) →
                       numeric stream →
                       (isValid r = true ↔ well_formed stream)).
    { intros r Hv Hnum. rewrite Hv. split.
      - intros Hacc. by apply well_formed_acceptable.
      - apply well_formed_acceptable. }
    destruct (config stream) as [c|] eqn:Hc.
    + destruct (Hres c eq_refl) as [res Hr].
      destruct (validateStream_config stream c res Hc Hr)
        as (r & Hv & Hvalid & Herr & Hw).
      exists r. split; [done|]. split; [done|].
      split; [by apply Hwf|]. split; [done|].
      rewrite Hw. split; [|split].
      * rewrite in_app_iff, Hfw. split; [|by right].
        intros [Hin|Hin]; [|done].
        by destruct (_ || _); [destruct Hin as [[=]|[]]|destruct Hin].
      * rewrite in_app_iff. unfold high_resolution. split.
        -- intros [Hin|Hin]; [|done].
           exists c, res. split; [done|]. split; [done|].
           destruct (Js.gt (res_width res) 1920); [by left|].
           destruct (Js.gt (res_height res) 1080); [by right|].
           by destruct Hin.
        -- intros (c' & res' & Hc' & Hr' & Hbig).
           rewrite Hc in Hc'. injection Hc' as <-.
           rewrite Hr in Hr'. injection Hr' as <-. left.
           destruct Hbig as [-> | ->]; [by left|].
           rewrite orb_true_r. by left.
      * intros fs. unfold Pipeline.validateStream in *. simpl.
        rewrite Hc, Hr in *. injection Hv as <-. by eexists.
    + destruct (validateStream_no_config stream Hc)
        as (r & Hv & Hinv & Herr & Hw).
      assert (Hvalid : isValid r = true ↔ acceptable stream).
      { rewrite Hinv. split; [done|].
        intros (_ & _ & c & res & Hc' & _). congruence. }
      exists r. split; [done|]. split; [done|].
      split; [by apply Hwf|]. rewrite Hinv, Hw.
      split; [|split; [done|split]].
      * split; [done|]. by intros ?.
      * split; [by intros ?%Hrw|].
        intros (c & res & Hc' & _). congruence.
      * intros fs. unfold Pipeline.validateStream in *. simpl.
        rewrite Hc in *. injection Hv as <-. by eexists.
  - intros stream. apply well_formed_acceptable.
  - intros stream. apply well_formed_acceptable.
  - split; [done|].
    intros (_ & _ & c & res & w & h & f & b & [= <-] & _ & _ & _ & Hf & _).
    discriminate Hf.
Qed.

(** * Further properties

    What the code shows about the operations that the statements above
    do not reach: the buffer's queries, [clearBuffer] and the event
    payloads; the router's choice, its two tables and its routing rules
    ([addRoutingRule], [removeRoutingRule], [shouldRoute],
    [setupDefaultRoutingRules]); the coordinator's choice of a job, its
    listeners, its retry path, [stop], and the passes it suspends; and
    the service's [addVideoStream] and [routeToProcessor]. *)

(** ** The frame buffer: event payloads, queries, round trips *)

Section BufferProtocol.
Import StreamBuffer.
Implicit Types (b : StreamBuffer.t) (sid : string) (frame : VideoFrame).

(** The stream and the [bufferSize] that an event carries. *)
Definition reported_size (e : Event) : option (string * Z) :=
  match e with
  | HighWater sid n | LowWater sid n | FrameAdded sid n _
  | FrameRetrieved sid n _ | FramesRetrieved sid _ n | Overflow sid _ n =>
      Some (sid, n)
  | Cleared _ _ | Removed _ _ => None
  end.

(** The stream and the [clearedFrames] that an event carries. *)
Definition reported_cleared (e : Event) : option (string * Z) :=
  match e with
  | Cleared sid n | Removed sid n => Some (sid, n)
  | _ => None
  end.

Lemma getBufferSize_insert sid sid' l b :
  getBufferSize sid' (with_buffers b (<[sid := l]> (buffers b)))
  = if decide (sid = sid') then Js.len l else getBufferSize sid' b.
Proof. by rewrite !getBufferSize_content, content_insert; case_decide. Qed.

Lemma event_sizes_addFrame sid frame b e sid' n :
  e ∈ (addFrame sid frame b).2 → reported_size e = Some (sid', n) →
  n = getBufferSize sid' (addFrame sid frame b).1.2.
Proof.
  unfold addFrame, handleOverflow.
  destruct (maxBufferSize b <=? _).
  - destruct (Js.splice0 _ _) as [removed rest]. cbn [fst snd].
    intros ->%list_elem_of_singleton [= <- <-].
    rewrite getBufferSize_insert. by case_decide.
  - cbn [fst snd]. rewrite elem_of_app, list_elem_of_singleton.
    intros [He| ->].
    + destruct (_ =? _); [|by apply not_elem_of_nil in He].
      apply list_elem_of_singleton in He as ->. intros [= <- <-].
      rewrite getBufferSize_insert. by case_decide.
    + intros [= <- <-]. rewrite getBufferSize_insert. by case_decide.
Qed.

Lemma event_sizes_getNextFrame sid b e sid' n :
  e ∈ (getNextFrame sid b).2 → reported_size e = Some (sid', n) →
  n = getBufferSize sid' (getNextFrame sid b).1.2.
Proof.
  unfold getNextFrame.
  destruct (buffers b !! sid) as [[|frame rest]|];
    cbn [Js.shift fst snd]; try by intros ?%not_elem_of_nil.
  rewrite elem_of_app, list_elem_of_singleton.
  intros [He| ->].
  - destruct (_ =? _); [|by apply not_elem_of_nil in He].
    apply list_elem_of_singleton in He as ->. intros [= <- <-].
    rewrite getBufferSize_insert. by case_decide.
  - intros [= <- <-]. rewrite getBufferSize_insert. by case_decide.
Qed.

Lemma event_sizes_getFrames sid count b e sid' n :
  e ∈ (getFrames sid count b).2 → reported_size e = Some (sid', n) →
  n = getBufferSize sid' (getFrames sid count b).1.2.
Proof.
  unfold getFrames.
  destruct (buffers b !! sid) as [l|];
    cbn [fst snd]; [|by intros ?%not_elem_of_nil].
  destruct (Js.len l =? 0); cbn [fst snd]; [by intros ?%not_elem_of_nil|].
  destruct (Js.splice0 _ _) as [out rest]. cbn [fst snd].
  intros ->%list_elem_of_singleton [= <- <-].
  rewrite getBufferSize_insert. by case_decide.
Qed.

(** X1 (event payloads): whatever call is made on the buffer, every
    event it emits that carries a [bufferSize] reports the size the
    stream has when the call returns, and every event that carries
    [clearedFrames] reports the size the stream had when the call was
    made. *)
Theorem X1_events_report_the_size_after_the_call c b e sid n :
  e ∈ (call c b).2 →
  (reported_size e = Some (sid, n) → n = getBufferSize sid (call c b).1.2)
  ∧ (reported_cleared e = Some (sid, n) → n = getBufferSize sid b).
Proof.
  destruct c as [sid0 frame|sid0|sid0 count|sid0|sid0]; cbn [call].
  - pose proof (event_sizes_addFrame sid0 frame b e sid n) as H.
    destruct (addFrame sid0 frame b) as [[ok b'] evs] eqn:E. cbn [fst snd] in *.
    intros He. split; [by apply H|].
    revert He. unfold addFrame, handleOverflow in E.
    destruct (maxBufferSize b <=? _).
    + destruct (Js.splice0 _ _). injection E as <- <- <-.
      by intros ->%list_elem_of_singleton.
    + injection E as <- <- <-.
      rewrite elem_of_app, list_elem_of_singleton. intros [He| ->]; [|done].
      destruct (_ =? _); [|by apply not_elem_of_nil in He].
      by apply list_elem_of_singleton in He as ->.
  - pose proof (event_sizes_getNextFrame sid0 b e sid n) as H.
    destruct (getNextFrame sid0 b) as [[r b'] evs] eqn:E. cbn [fst snd] in *.
    intros He. split; [by apply H|].
    revert He. unfold getNextFrame in E.
    destruct (buffers b !! sid0) as [[|frame rest]|]; cbn [Js.shift] in E;
      injection E as <- <- <-; try by intros ?%not_elem_of_nil.
    rewrite elem_of_app, list_elem_of_singleton. intros [He| ->]; [|done].
    destruct (_ =? _); [|by apply not_elem_of_nil in He].
    by apply list_elem_of_singleton in He as ->.
  - intros He. split; [by apply event_sizes_getFrames|].
    revert He. unfold getFrames.
    destruct (buffers b !! sid0) as [l|]; [|by intros ?%not_elem_of_nil].
    destruct (Js.len l =? 0); [by intros ?%not_elem_of_nil|].
    destruct (Js.splice0 _ _). by intros ->%list_elem_of_singleton.
  - unfold clearBuffer, getBufferSize.
    destruct (buffers b !! sid0) as [l|] eqn:E; cbn [fst snd];
      [|by intros ?%not_elem_of_nil].
    intros ->%list_elem_of_singleton. split; [done|].
    intros [= <- <-]. by rewrite E.
  - unfold removeStream, getBufferSize.
    destruct (buffers b !! sid0) as [l|] eqn:E; cbn [fst snd];
      [|by intros ?%not_elem_of_nil].
    intros ->%list_elem_of_singleton. split; [done|].
    intros [= <- <-]. by rewrite E.
Qed.

(** X1 at the push that overflows a full stream of capacity 30. *)
Lemma X1_witness :
  let b := (run (pushes "s1" 30) (create 30)).1.2 in
  21 = getBufferSize "s1" (call (AddFrame "s1" (frame_at 31)) b).1.2.
Proof.
  intros b.
  refine (proj1 (X1_events_report_the_size_after_the_call
                   (AddFrame "s1" (frame_at 31)) b
                   (Overflow "s1" 9 21) "s1" 21 _) eq_refl).
  vm_compute. left.
Defined.

(** X2 (queries against operations): [peekNextFrame] names the frame
    that the next [getNextFrame] hands back, [isEmpty] holds exactly
    when that pop would answer [null], and [isFull] holds exactly when
    the next [addFrame] would be refused. *)
Theorem X2_queries_predict_the_next_operation sid frame b :
  peekNextFrame sid b = (getNextFrame sid b).1.1
  ∧ (isEmpty sid b = true ↔ (getNextFrame sid b).1.1 = None)
  ∧ isFull sid b = negb (addFrame sid frame b).1.1.
Proof.
  split; [|split].
  - unfold peekNextFrame, getNextFrame.
    by destruct (buffers b !! sid) as [[|f l]|].
  - unfold isEmpty, getBufferSize, getNextFrame.
    by destruct (buffers b !! sid) as [[|f l]|].
  - unfold isFull. rewrite getBufferSize_content.
    unfold addFrame, handleOverflow. fold (content sid b).
    destruct (maxBufferSize b <=? _); [|done].
    by destruct (Js.splice0 _ _).
Qed.

(** [frames.forEach(f => buffer.addFrame(sid, f))]: whether every push
    was admitted, and the buffer afterwards. *)
Fixpoint push_all sid (fs : list VideoFrame) b : bool * StreamBuffer.t :=
  match fs with
  | [] => (true, b)
  | frame :: fs' =>
      let '(ok, b', _) := addFrame sid frame b in
      let '(oks, b'') := push_all sid fs' b' in
      (ok && oks, b'')
  end.

Lemma push_all_below sid fs b :
  Js.len (content sid b) + Js.len fs <= maxBufferSize b →
  (push_all sid fs b).1 = true
  ∧ maxBufferSize (push_all sid fs b).2 = maxBufferSize b
  ∧ content sid (push_all sid fs b).2 = content sid b ++ fs
  ∧ ∀ sid', sid' ≠ sid →
      buffers (push_all sid fs b).2 !! sid' = buffers b !! sid'.
Proof.
  revert b. induction fs as [|frame fs IH]; intros b Hle.
  - cbn [push_all fst snd]. by rewrite app_nil_r.
  - cbn [push_all].
    assert (Hlt : Js.len (content sid b) < maxBufferSize b).
    { pose proof (len_nonneg fs). unfold Js.len in *. simpl in Hle. lia. }
    destruct (addFrame_below sid frame b Hlt) as (evs & -> & _).
    set (b1 := with_buffers b _).
    assert (Hc1 : content sid b1 = content sid b ++ [frame]).
    { unfold b1. rewrite content_insert. by case_decide. }
    destruct (IH b1) as (Hok & Hmax & Hc & Hother).
    { rewrite Hc1, len_app. unfold Js.len in *. simpl in *. lia. }
    destruct (push_all sid fs b1) as [oks b2]. cbn [fst snd] in *.
    split; [by rewrite Hok|]. split; [done|]. split.
    + by rewrite Hc, Hc1, <-(assoc_L (++)).
    + intros sid' Hne. rewrite Hother by done.
      unfold b1. cbn [buffers with_buffers]. by rewrite lookup_insert_ne.
Qed.

(** X3 (round trip): frames pushed to a stream that holds nothing, no
    more of them than the capacity, are all admitted, and one drain of
    that many frames hands them back in the order they were pushed and
    leaves the stream empty; the other streams are as before. *)
Theorem X3_pushed_frames_come_back_in_order sid fs b :
  content sid b = [] →
  Js.len fs <= maxBufferSize b →
  let '(ok, b1) := push_all sid fs b in
  let '(out, b2, _) := getFrames sid (Js.len fs) b1 in
  ok = true ∧ out = fs ∧ content sid b2 = []
  ∧ ∀ sid', sid' ≠ sid → buffers b2 !! sid' = buffers b !! sid'.
Proof.
  intros Hc Hle.
  destruct (push_all_below sid fs b) as (Hok & _ & Hc1 & Hother).
  { rewrite Hc. unfold Js.len at 1. simpl. lia. }
  destruct (push_all sid fs b) as [ok b1]. cbn [fst snd] in *.
  rewrite Hc in Hc1. cbn [app] in Hc1.
  unfold getFrames. unfold content in Hc1.
  destruct (buffers b1 !! sid) as [l|] eqn:E; simpl in Hc1.
  - subst l. destruct (Js.len fs =? 0) eqn:E0.
    + apply Z.eqb_eq, len_zero in E0. subst fs.
      repeat split; try done. unfold content. by rewrite E.
    + unfold Js.splice0.
      replace (Z.to_nat (Z.min (Z.max (Z.min (Js.len fs) (Js.len fs)) 0)
                           (Js.len fs))) with (length fs)
        by (unfold Js.len; lia).
      rewrite firstn_all, drop_all.
      repeat split; try done.
      * rewrite content_insert. by case_decide.
      * intros sid' Hne. cbn [buffers with_buffers].
        rewrite lookup_insert_ne by done. by apply Hother.
  - subst fs. repeat split; try done. unfold content. by rewrite E.
Qed.

(** X3 at three frames pushed to a fresh buffer of capacity 30. *)
Lemma X3_witness :
  let fs := [frame_at 1; frame_at 2; frame_at 3] in
  (getFrames "s1" 3 (push_all "s1" fs (create 30)).2).1.1 = fs.
Proof.
  intros fs.
  pose proof (X3_pushed_frames_come_back_in_order "s1" fs (create 30)
                eq_refl (proj1 (Z.leb_le 3 30) eq_refl)) as H.
  destruct (push_all "s1" fs (create 30)) as [ok b1].
  change (Js.len fs) with 3 in H. cbn [snd].
  destruct (getFrames "s1" 3 b1) as [[out b2] evs].
  exact (proj1 (proj2 H)).
Defined.

(** X4 (clearing against removing): [clearBuffer] keeps the stream with
    an empty array, so that clearing again emits [buffer:cleared] again,
    with 0 frames; [removeStream] forgets the stream, so that removing
    again is silent. Both report the number of frames discarded and
    leave every other stream alone. *)
Theorem X4_clear_keeps_the_stream_remove_forgets_it sid l b :
  buffers b !! sid = Some l →
  let '(b1, evs1) := clearBuffer sid b in
  let '(b2, evs2) := removeStream sid b in
  evs1 = [Cleared sid (Js.len l)]
  ∧ evs2 = [Removed sid (Js.len l)]
  ∧ buffers b1 !! sid = Some []
  ∧ buffers b2 !! sid = None
  ∧ clearBuffer sid b1 = (b1, [Cleared sid 0])
  ∧ removeStream sid b2 = (b2, [])
  ∧ ∀ sid', sid' ≠ sid →
      buffers b1 !! sid' = buffers b !! sid'
      ∧ buffers b2 !! sid' = buffers b !! sid'.
Proof.
  intros E. unfold clearBuffer, removeStream. rewrite E.
  cbn [buffers with_buffers].
  rewrite lookup_insert_eq, lookup_delete_eq.
  repeat split; try done.
  - unfold with_buffers. cbn [buffers maxBufferSize lowWaterMark highWaterMark].
    by rewrite insert_insert_eq.
  - by rewrite lookup_insert_ne.
  - by rewrite lookup_delete_ne.
Qed.

(** X4 at a stream that holds three frames. *)
Lemma X4_witness :
  let b := (push_all "s1" [frame_at 1; frame_at 2; frame_at 3] (create 30)).2 in
  (clearBuffer "s1" b).2 = [Cleared "s1" 3]
  ∧ (removeStream "s1" b).2 = [Removed "s1" 3].
Proof.
  intros b.
  pose proof (X4_clear_keeps_the_stream_remove_forgets_it "s1"
                [frame_at 1; frame_at 2; frame_at 3] b eq_refl) as H.
  destruct (clearBuffer "s1" b) as [b1 evs1].
  destruct (removeStream "s1" b) as [b2 evs2].
  exact (conj (proj1 H) (proj1 (proj2 H))).
Defined.

(** X5 (capacity that is not positive): such a buffer admits nothing.
    Every push is refused, leaves the stream's array as it was, still
    creates the stream's entry, and reports an overflow that evicted 0
    frames. *)
Theorem X5_no_capacity_no_admission sid frame b :
  maxBufferSize b <= 0 →
  let '(ok, b', evs) := addFrame sid frame b in
  ok = false
  ∧ buffers b' !! sid = Some (content sid b)
  ∧ evs = [Overflow sid 0 (Js.len (content sid b))].
Proof.
  intros Hle. unfold addFrame, handleOverflow. fold (content sid b).
  pose proof (len_nonneg (content sid b)) as Hn.
  destruct (Z.leb_spec (maxBufferSize b) (Js.len (content sid b))); [|lia].
  assert (Hk : Z.to_nat (Z.min (Z.max (Js.floor_tenths 3 (maxBufferSize b)) 0)
                           (Js.len (content sid b))) = 0%nat).
  { unfold Js.floor_tenths.
    assert ((3 * maxBufferSize b) `div` 10 <= 0); [|lia].
    apply Z.div_le_upper_bound; lia. }
  unfold Js.splice0. rewrite Hk. cbn [take drop].
  cbn [buffers with_buffers]. by rewrite lookup_insert_eq.
Qed.

(** X5 at a buffer created with capacity 0. *)
Lemma X5_witness :
  (addFrame "s1" (frame_at 1) (create 0)).1.1 = false.
Proof.
  pose proof (X5_no_capacity_no_admission "s1" (frame_at 1) (create 0)
                (proj1 (Z.leb_le 0 0) eq_refl)) as H.
  destruct (addFrame "s1" (frame_at 1) (create 0)) as [[ok b'] evs].
  exact (proj1 H).
Defined.

End BufferProtocol.

(** ** Highest-priority scans *)

Section Best.
Context {A B : Type} (cand : A → option (Z * B)).

(** One round of the loop that [getNextStreamForProcessing] and
    [getNextProcessingJob] share: an entry that is a candidate replaces
    the current choice only when its priority is strictly higher. *)
Definition best_step (acc : Z * option B) (x : A) : Z * option B :=
  match cand x with
  | Some (p, v) => if acc.1 <? p then (p, Some v) else acc
  | None => acc
  end.

(** Either no candidate beats the initial bound, or the result is the
    first candidate of the highest priority. *)
Lemma foldl_best l h0 r0 :
  (foldl best_step (h0, r0) l = (h0, r0)
   ∧ ∀ x p v, x ∈ l → cand x = Some (p, v) → p <= h0)
  ∨ ∃ l1 x l2 p v,
      l = l1 ++ x :: l2 ∧ cand x = Some (p, v)
      ∧ foldl best_step (h0, r0) l = (p, Some v) ∧ h0 < p
      ∧ (∀ y q w, y ∈ l1 → cand y = Some (q, w) → q < p)
      ∧ (∀ y q w, y ∈ l2 → cand y = Some (q, w) → q <= p).
Proof.
  revert h0 r0. induction l as [|a l IH]; intros h0 r0.
  { left. split; [done|]. by intros x p v ?%not_elem_of_nil. }
  cbn [foldl].
  assert (Hstep : best_step (h0, r0) a
                  = match cand a with
                    | Some (p, v) => if h0 <? p then (p, Some v) else (h0, r0)
                    | None => (h0, r0)
                    end) by done.
  rewrite Hstep. clear Hstep.
  assert (Hkeep :
    (∀ p v, cand a = Some (p, v) → p <= h0) →
    (foldl best_step (h0, r0) l = (h0, r0)
     ∧ ∀ x p v, x ∈ a :: l → cand x = Some (p, v) → p <= h0)
    ∨ ∃ l1 x l2 p v,
        a :: l = l1 ++ x :: l2 ∧ cand x = Some (p, v)
        ∧ foldl best_step (h0, r0) l = (p, Some v) ∧ h0 < p
        ∧ (∀ y q w, y ∈ l1 → cand y = Some (q, w) → q < p)
        ∧ (∀ y q w, y ∈ l2 → cand y = Some (q, w) → q <= p)).
  { intros Ha. destruct (IH h0 r0) as [[Heq Hall]|Hex].
    - left. split; [done|]. intros x p v [->|Hx]%elem_of_cons; eauto.
    - right. destruct Hex as (l1 & x & l2 & p & v & -> & Hc & Hf & Hlt & H1 & H2).
      exists (a :: l1), x, l2, p, v. repeat split; try done.
      intros y q w [->|Hy]%elem_of_cons Hq; [|by eauto].
      specialize (Ha _ _ Hq). lia. }
  destruct (cand a) as [[p v]|] eqn:Ea; [|by apply Hkeep].
  destruct (Z.ltb_spec h0 p) as [Hlt|Hge]; cbv beta iota.
  - right. destruct (IH p (Some v)) as [[Heq Hall]|Hex].
    + exists [], a, l, p, v. repeat split; try done.
      by intros y q w ?%not_elem_of_nil.
    + destruct Hex as (l1 & x & l2 & p' & v' & -> & Hc & Hf & Hlt' & H1 & H2).
      exists (a :: l1), x, l2, p', v'. repeat split; try done; [lia|].
      intros y q w [->|Hy]%elem_of_cons Hq; [|by eauto].
      rewrite Ea in Hq. injection Hq as <- <-. done.
  - apply Hkeep. by intros ? ? [= <- <-].
Qed.

End Best.

(** ** The router *)

Section RouterFacts.
Import StreamRouter.
Implicit Types (r : StreamRouter.t) (sid : string).

Lemma foldl_scan_best acc q :
  foldl scan acc q = foldl (best_step (λ e, Some (e.2, e.1))) acc q.
Proof.
  revert acc. induction q as [|e q IH]; intros acc; [done|].
  cbn [foldl]. rewrite <-IH. by destruct acc.
Qed.

(** X6 (the router's choice): [getNextStreamForProcessing] answers the
    first stream, in admission order, among those of the highest
    priority, provided that priority is above -1; it answers [null]
    exactly when no admitted stream has a priority above -1, which
    includes the empty queue. It does not take the stream out of the
    queue. *)
Theorem X6_router_offers_the_first_stream_of_highest_priority r :
  match getNextStreamForProcessing r with
  | Some sid =>
      ∃ l1 p l2,
        processingQueue r = l1 ++ (sid, p) :: l2
        ∧ -1 < p
        ∧ (∀ e, e ∈ l1 → e.2 < p)
        ∧ (∀ e, e ∈ l2 → e.2 <= p)
  | None => ∀ e, e ∈ processingQueue r → e.2 <= -1
  end.
Proof.
  unfold getNextStreamForProcessing.
  assert (H : match (foldl scan (-1, None) (processingQueue r)).2 with
              | Some sid =>
                  ∃ l1 p l2,
                    processingQueue r = l1 ++ (sid, p) :: l2
                    ∧ -1 < p
                    ∧ (∀ e, e ∈ l1 → e.2 < p)
                    ∧ (∀ e, e ∈ l2 → e.2 <= p)
              | None => ∀ e, e ∈ processingQueue r → e.2 <= -1
              end).
  { rewrite foldl_scan_best.
    destruct (foldl_best (λ e : string * Z, Some (e.2, e.1))
                (processingQueue r) (-1) None) as [[-> Hall]|Hex].
    - cbn [snd]. intros e He. by eapply Hall.
    - destruct Hex as (l1 & [sid p0] & l2 & p & v & Hq & [= <- <-] & -> & Hlt
                       & H1 & H2).
      cbn [snd fst] in *. exists l1, p0, l2. repeat split; try done.
      + intros e He. by eapply H1.
      + intros e He. by eapply H2. }
  destruct (processingQueue r) as [|e q] eqn:E; [|done].
  by intros e ?%not_elem_of_nil.
Qed.

(** The calls that change the router's queue, for traces. *)
Inductive RouterCall :=
| Route (sid : string) (priority : Z)
| Unroute (sid : string).

Definition router_call (r : StreamRouter.t) (c : RouterCall) : StreamRouter.t :=
  match c with
  | Route sid priority => routeToAI_set sid priority r
  | Unroute sid => removeRoute_delete sid r
  end.

Definition router_run (cs : list RouterCall) : StreamRouter.t :=
  foldl router_call create cs.

(** The queue and the set of routes hold the same streams, once each. *)
Definition routes_wf r : Prop :=
  NoDup (Js.okeys (processingQueue r))
  ∧ ∀ sid, isRouted sid r = Js.ohas sid (processingQueue r).

Lemma router_call_wf r c : routes_wf r → routes_wf (router_call r c).
Proof.
  intros [Hnd Hsame]. unfold routes_wf, isRouted in *.
  destruct c as [sid p|sid]; cbn [router_call routeToAI_set removeRoute_delete
                                   processingQueue activeRoutes].
  - split; [by apply oset_NoDup|]. intros sid'.
    rewrite ohas_oset, <-Hsame.
    rewrite <-bool_decide_or. apply bool_decide_ext.
    rewrite elem_of_union, elem_of_singleton.
    split; (intros [?|?]; [left; congruence|by right]).
  - split; [by apply odelete_NoDup|]. intros sid'.
    rewrite ohas_odelete, <-Hsame.
    rewrite <-bool_decide_not, <-bool_decide_and. apply bool_decide_ext.
    rewrite elem_of_difference, elem_of_singleton.
    split; intros [? ?]; (split; [congruence || done|congruence || done]).
Qed.

Lemma router_run_wf cs : routes_wf (router_run cs).
Proof.
  unfold router_run.
  assert (H : ∀ r, routes_wf r → routes_wf (foldl router_call r cs)).
  { induction cs as [|c cs IH]; intros r Hr; [done|].
    cbn [foldl]. by apply IH, router_call_wf. }
  apply H. split; [apply NoDup_nil_2|done].
Qed.

Lemma odelete_oset_absent {V} k (v : V) (m : Js.omap V) :
  Js.oget k m = None → Js.odelete k (Js.oset k v m) = m.
Proof.
  induction m as [|[k' v'] m IH]; cbn [Js.oget Js.oset Js.odelete].
  - by rewrite String.eqb_refl.
  - destruct (String.eqb_spec k k') as [->|Hne]; [done|].
    intros H. cbn [Js.odelete].
    destruct (String.eqb_spec k k'); [done|]. by rewrite IH.
Qed.

(** X7 (the router's two tables): after any sequence of [routeToAI] and
    [removeRoute] calls on a new router, [isRouted] holds of exactly the
    streams that are in the queue, each of them is there once, and
    routing a stream that is not routed and removing it again gives the
    router back as it was, whatever the priority. *)
Theorem X7_routes_and_queue_hold_the_same_streams cs :
  let r := router_run cs in
  (∀ sid, isRouted sid r = Js.ohas sid (processingQueue r))
  ∧ NoDup (Js.okeys (processingQueue r))
  ∧ (∀ sid priority,
       isRouted sid r = false →
       removeRoute_delete sid (routeToAI_set sid priority r) = r).
Proof.
  intros r. destruct (router_run_wf cs) as [Hnd Hsame]. fold r in Hnd, Hsame.
  split; [done|]. split; [done|].
  intros sid priority Hno.
  assert (Hq : Js.oget sid (processingQueue r) = None).
  { rewrite Hsame in Hno. unfold Js.ohas in Hno.
    by destruct (Js.oget sid (processingQueue r)). }
  assert (Ha : sid ∉ activeRoutes r).
  { unfold isRouted in Hno. by apply bool_decide_eq_false in Hno. }
  unfold removeRoute_delete, routeToAI_set.
  cbn [processingQueue activeRoutes].
  rewrite odelete_oset_absent by done.
  rewrite difference_union_distr_l_L, difference_diag_L, (left_id_L ∅ (∪)).
  rewrite difference_disjoint_L by (by apply disjoint_singleton_r).
  by destruct r.
Qed.

(** X7 at a router that has admitted two streams and removed one. *)
Lemma X7_witness :
  let r := router_run [Route "s1" 1; Route "s2" 5; Unroute "s1"] in
  removeRoute_delete "s1" (routeToAI_set "s1" 9 r) = r.
Proof.
  intros r.
  exact (proj2 (proj2 (X7_routes_and_queue_hold_the_same_streams
                         [Route "s1" 1; Route "s2" 5; Unroute "s1"]))
           "s1" 9 eq_refl).
Defined.

End RouterFacts.

(** *** Routing rules ([addRoutingRule], [removeRoutingRule],
    [shouldRoute], [setupDefaultRoutingRules])

    The rule table is the router's third field. No method reads or
    writes it together with the queue, so it is kept beside
    [StreamRouter.t]. A rule applied to a stream answers [true] or
    [false], or throws; [None] stands for an exception. *)

Module RoutingRules.

Definition Rule : Type := VideoStream → option bool.

Inductive Event :=
| RuleAdded (name : string)
| RuleRemoved (name : string)
| RuleFailed (streamId : string) (ruleName : string)
| RuleError (streamId : string) (ruleName : string).

(** [addRoutingRule] *)
Definition addRoutingRule (name : string) (rule : Rule)
    (rules : Js.omap Rule) : Js.omap Rule * list Event :=
  (Js.oset name rule rules, [RuleAdded name]).

(** [removeRoutingRule] *)
Definition removeRoutingRule (name : string) (rules : Js.omap Rule)
  : Js.omap Rule * list Event :=
  (Js.odelete name rules, [RuleRemoved name]).

(** [shouldRoute] *)
Fixpoint shouldRoute (rules : Js.omap Rule) (stream : VideoStream)
  : bool * list Event :=
  match rules with
  | [] => (true, [])
  | (name, rule) :: rest =>
      match rule stream with
      | Some true => shouldRoute rest stream
      | Some false => (false, [RuleFailed (streamId stream) name])
      | None => (false, [RuleError (streamId stream) name])
      end
  end.

(** [!!(stream.streamId && stream.userId && stream.config)] *)
Definition valid_stream : Rule := λ stream,
  Some (Js.truthy (streamId stream) && Js.truthy (userId stream)
        && match config stream with Some _ => true | None => false end).

(** [!!(stream.frames && stream.frames.length > 0)] *)
Definition has_frames : Rule := λ stream,
  Some match frames stream with
       | Some fs => 0 <? Js.len fs
       | None => false
       end.

(** [const { width, height } = stream.config.resolution; ...]: reading
    [resolution] of a missing configuration throws, and so does
    destructuring a missing resolution. *)
Definition supported_resolution : Rule := λ stream,
  match config stream with
  | None => None
  | Some c =>
      match resolution c with
      | None => None
      | Some r =>
          Some (Js.ge (res_width r) 320 && Js.ge (res_height r) 240
                && Js.le (res_width r) 3840 && Js.le (res_height r) 2160)
      end
  end.

(** [setupDefaultRoutingRules], run by the constructor on the empty
    table. *)
Definition setupDefaultRoutingRules (rules : Js.omap Rule)
  : Js.omap Rule * list Event :=
  let '(r1, e1) := addRoutingRule "valid_stream" valid_stream rules in
  let '(r2, e2) := addRoutingRule "has_frames" has_frames r1 in
  let '(r3, e3) := addRoutingRule "supported_resolution" supported_resolution r2 in
  (r3, e1 ++ e2 ++ e3).

Definition create : Js.omap Rule := (setupDefaultRoutingRules []).1.

End RoutingRules.

Section RuleFacts.
Import RoutingRules.
Implicit Types (rules : Js.omap Rule) (stream : VideoStream).

(** What the three default rules ask of a stream. *)
Definition routable stream : Prop :=
  streamId stream ≠ "" ∧ userId stream ≠ ""
  ∧ ∃ c res fs,
      config stream = Some c ∧ resolution c = Some res
      ∧ frames stream = Some fs ∧ fs ≠ []
      ∧ ∃ w h,
          res_width res = Js.Int w ∧ res_height res = Js.Int h
          ∧ 320 <= w <= 3840 ∧ 240 <= h <= 2160.

Lemma truthy_nonempty (s : string) : Js.truthy s = true ↔ s ≠ "".
Proof. by destruct s. Qed.

(** A rejection names one rule and the stream. *)
Lemma shouldRoute_events rules stream :
  let '(ok, evs) := shouldRoute rules stream in
  if ok then evs = []
  else ∃ name,
         Js.ohas name rules = true
         ∧ (evs = [RuleFailed (streamId stream) name]
            ∨ evs = [RuleError (streamId stream) name]).
Proof.
  induction rules as [|[name rule] rules IH]; [done|].
  cbn [shouldRoute].
  assert (Hhere : Js.ohas name ((name, rule) :: rules) = true).
  { unfold Js.ohas. cbn [Js.oget]. by rewrite String.eqb_refl. }
  destruct (rule stream) as [[|]|]; [|by eauto|by eauto].
  destruct (shouldRoute rules stream) as [[|] evs]; [done|].
  destruct IH as (name' & Hhas & Hev). exists name'. split; [|done].
  unfold Js.ohas in *. cbn [Js.oget]. by destruct (String.eqb name' name).
Qed.

Lemma valid_stream_true stream :
  valid_stream stream = Some true
  ↔ streamId stream ≠ "" ∧ userId stream ≠ "" ∧ ∃ c, config stream = Some c.
Proof.
  unfold valid_stream. rewrite <-!truthy_nonempty.
  destruct (Js.truthy (streamId stream)), (Js.truthy (userId stream)),
    (config stream) as [c|]; cbn [andb];
    (split; intros H;
     [try done; by eauto|by destruct H as (? & ? & c' & ?)]).
Qed.

Lemma has_frames_true stream :
  has_frames stream = Some true ↔ ∃ fs, frames stream = Some fs ∧ fs ≠ [].
Proof.
  unfold has_frames. destruct (frames stream) as [[|f fs]|].
  - split; [done|]. by intros (fs & [= <-] & ?).
  - split; [by eauto|]. intros _. by f_equal.
  - split; [done|]. by intros (fs & ? & ?).
Qed.

Lemma supported_resolution_true stream :
  supported_resolution stream = Some true
  ↔ ∃ c res, config stream = Some c ∧ resolution c = Some res
      ∧ ∃ w h,
          res_width res = Js.Int w ∧ res_height res = Js.Int h
          ∧ 320 <= w <= 3840 ∧ 240 <= h <= 2160.
Proof.
  unfold supported_resolution. destruct (config stream) as [c|].
  - destruct (resolution c) as [res|] eqn:Eres.
    + split.
      * intros [= H]. exists c, res. split; [done|]. split; [done|].
        destruct (res_width res) as [w|]; [|done].
        destruct (res_height res) as [h|];
          [|by rewrite andb_false_r in H].
        cbn [Js.ge Js.le] in H. rewrite !andb_true_iff, !Z.leb_le in H.
        exists w, h. repeat split; try done; lia.
      * intros (c' & res' & [= <-] & Hres & w & h & Hw & Hh & ? & ?).
        rewrite Eres in Hres. injection Hres as <-. f_equal.
        rewrite Hw, Hh. cbn [Js.ge Js.le].
        rewrite !andb_true_iff, !Z.leb_le. lia.
    + split; [done|]. intros (c' & res' & [= <-] & Hres & _). congruence.
  - split; [done|]. by intros (c' & res' & ? & _).
Qed.

Lemma routable_rules stream :
  routable stream
  ↔ valid_stream stream = Some true ∧ has_frames stream = Some true
    ∧ supported_resolution stream = Some true.
Proof.
  rewrite valid_stream_true, has_frames_true, supported_resolution_true.
  unfold routable. split.
  - intros (? & ? & c & res & fs & ? & ? & ? & ? & Hres).
    split; [by eauto|]. split; [by eauto|]. by exists c, res.
  - intros ((? & ? & _) & (fs & ? & ?) & (c & res & ? & ? & Hres)).
    split; [done|]. split; [done|]. by exists c, res, fs.
Qed.

(** X8 (the default rules): a new router routes exactly the streams
    that have a non-empty stream id and user id, a configuration whose
    resolution lies between 320 x 240 and 3840 x 2160, and at least one
    frame. [shouldRoute] never throws: a stream whose configuration has
    no resolution is rejected with [rule:error]. A rejection emits one
    event, which names the first rule that did not pass in the order
    valid_stream, has_frames, supported_resolution. *)
Theorem X8_default_rules_route_exactly_routable_streams stream :
  let '(ok, evs) := shouldRoute create stream in
  (ok = true ↔ routable stream)
  ∧ (ok = true → evs = [])
  ∧ (valid_stream stream = Some false →
     evs = [RuleFailed (streamId stream) "valid_stream"])
  ∧ (valid_stream stream = Some true → has_frames stream = Some false →
     evs = [RuleFailed (streamId stream) "has_frames"])
  ∧ (valid_stream stream = Some true → has_frames stream = Some true →
     supported_resolution stream = None →
     evs = [RuleError (streamId stream) "supported_resolution"])
  ∧ (valid_stream stream = Some true → has_frames stream = Some true →
     supported_resolution stream = Some false →
     evs = [RuleFailed (streamId stream) "supported_resolution"]).
Proof.
  change create
    with [("valid_stream", valid_stream); ("has_frames", has_frames);
          ("supported_resolution", supported_resolution)].
  cbn [shouldRoute]. generalize (routable_rules stream).
  assert (Hcases : ∀ v f r ok (evs : list Event),
            (routable stream ↔ v = Some true ∧ f = Some true ∧ r = Some true) →
            ok = bool_decide (v = Some true ∧ f = Some true ∧ r = Some true) →
            (ok = true → evs = []) →
            (ok = true ↔ routable stream) ∧ (ok = true → evs = [])).
  { intros v f r ok evs Hrt -> Hev. split; [|done].
    rewrite Hrt. apply bool_decide_eq_true. }
  destruct (valid_stream stream) as [[|]|] eqn:Ev;
    [|intros Hrt;
      destruct (Hcases _ _ _ false
                  [RuleFailed (streamId stream) "valid_stream"] Hrt)
        as [? ?]; [by rewrite bool_decide_eq_false_2 by (by intros [? _])
                  |done|split; [done|]; split; [done|]; by repeat split]
     |by unfold valid_stream in Ev].
  destruct (has_frames stream) as [[|]|] eqn:Ef;
    [|intros Hrt;
      destruct (Hcases _ _ _ false
                  [RuleFailed (streamId stream) "has_frames"] Hrt)
        as [? ?]; [by rewrite bool_decide_eq_false_2 by (by intros (_ & ? & _))
                  |done|split; [done|]; split; [done|]; by repeat split]
     |by unfold has_frames in Ef].
  destruct (supported_resolution stream) as [[|]|] eqn:Er; intros Hrt.
  - destruct (Hcases _ _ _ true [] Hrt) as [? ?];
      [by rewrite bool_decide_eq_true_2|done|split; [done|]; split; [done|]; by repeat split].
  - destruct (Hcases _ _ _ false
                [RuleFailed (streamId stream) "supported_resolution"] Hrt)
      as [? ?]; [by rewrite bool_decide_eq_false_2 by (by intros (_ & _ & ?))
                |done|split; [done|]; split; [done|]; by repeat split].
  - destruct (Hcases _ _ _ false
                [RuleError (streamId stream) "supported_resolution"] Hrt)
      as [? ?]; [by rewrite bool_decide_eq_false_2 by (by intros (_ & _ & ?))
                |done|split; [done|]; split; [done|]; by repeat split].
Qed.

(** X8 at a 1280 x 720 stream with one frame, and at the same stream
    without its frame. *)
Lemma X8_witness :
  let stream fs :=
    {| streamId := "s1"; userId := "u1";
       config := Some {| resolution := Some {| res_width := 1280;
                                               res_height := 720 |};
                         frameRate := 30; bitrate := 1;
                         audioEnabled := false |};
       frames := Some fs |} in
  shouldRoute create (stream [frame_at 1]) = (true, [])
  ∧ (shouldRoute create (stream [])).2 = [RuleFailed "s1" "has_frames"].
Proof.
  intros stream. split; [reflexivity|].
  pose proof (X8_default_rules_route_exactly_routable_streams (stream []))
    as H.
  destruct (shouldRoute create (stream [])) as [ok evs].
  exact (proj1 (proj2 (proj2 (proj2 H))) eq_refl eq_refl).
Defined.

(** X9 (custom rules): a rule added under a name that is not in the
    table is consulted after all the rules already there, so that it can
    only turn an acceptance into a rejection; a rule added under a name
    that is in the table takes the place of the old one, at the old
    position; removing a rule that was added under a new name gives the
    table back as it was. *)
Theorem X9_added_rule_is_consulted_last_or_in_place name rule rules stream :
  (Js.oget name rules = None →
   shouldRoute (addRoutingRule name rule rules).1 stream
   = (if (shouldRoute rules stream).1
      then shouldRoute [(name, rule)] stream
      else shouldRoute rules stream)
   ∧ (removeRoutingRule name (addRoutingRule name rule rules).1).1 = rules)
  ∧ (Js.ohas name rules = true →
     Js.okeys (addRoutingRule name rule rules).1 = Js.okeys rules)
  ∧ Js.oget name (addRoutingRule name rule rules).1 = Some rule.
Proof.
  unfold addRoutingRule, removeRoutingRule. cbn [fst].
  split; [|split].
  - intros Hno. split; [|by apply odelete_oset_absent].
    induction rules as [|[name' rule'] rules IH]; [done|].
    cbn [Js.oget] in Hno. cbn [Js.oset].
    destruct (String.eqb name name'); [done|].
    cbn [shouldRoute].
    destruct (rule' stream) as [[|]|]; [by apply IH|done|done].
  - intros Hhas. by rewrite okeys_oset, Hhas.
  - apply oget_oset_eq.
Qed.

(** X9 at a rule that refuses every stream, added to the default
    table. *)
Lemma X9_witness :
  let stream :=
    {| streamId := "s1"; userId := "u1";
       config := Some {| resolution := Some {| res_width := 1280;
                                               res_height := 720 |};
                         frameRate := 30; bitrate := 1;
                         audioEnabled := false |};
       frames := Some [frame_at 1] |} in
  shouldRoute (addRoutingRule "never" (λ _, Some false) create).1 stream
  = (false, [RuleFailed "s1" "never"]).
Proof.
  intros stream.
  exact (proj1 (proj1 (X9_added_rule_is_consulted_last_or_in_place "never"
                         (λ _, Some false) create stream) eq_refl)).
Defined.

End RuleFacts.

(** ** The coordinator *)

Section CoordinatorFacts.
Import StreamProcessor Pipeline.
Implicit Types (s : Sys) (sid : string) (now : Z).

(** A job that [getNextProcessingJob] does not skip. *)
Definition eligible s (job : ProcessingJob) : Prop :=
  (job_streamId job ∉ activeProcessing (processor s))
  ∧ StreamBuffer.isEmpty (job_streamId job) (buffer s) = false.

(** The priority and the job that a queue entry puts forward. *)
Definition candidate s (e : string * nat) : option (Z * ProcessingJob) :=
  match heap (processor s) !! e.2 with
  | None => None
  | Some job =>
      if bool_decide (job_streamId job ∈ activeProcessing (processor s))
      then None
      else if StreamBuffer.isEmpty (job_streamId job) (buffer s) then None
      else Some (priority job, job)
  end.

Lemma candidate_Some s e q job :
  candidate s e = Some (q, job)
  ↔ heap (processor s) !! e.2 = Some job ∧ eligible s job ∧ q = priority job.
Proof.
  unfold candidate, eligible.
  destruct (heap (processor s) !! e.2) as [j|]; [|by split; [|intros [? _]]].
  case_bool_decide as Hin.
  - split; [done|]. by intros ([= <-] & [? _] & _).
  - destruct (StreamBuffer.isEmpty (job_streamId j) (buffer s)) eqn:E.
    + split; [done|]. intros ([= <-] & [_ ?] & _). congruence.
    + split; [by intros [= <- <-]|]. by intros ([= <-] & _ & ->).
Qed.

Lemma foldl_select_best s acc q :
  foldl (select s) acc q = foldl (best_step (candidate s)) acc q.
Proof.
  revert acc. induction q as [|e q IH]; intros acc; [done|].
  cbn [foldl]. rewrite <-IH. f_equal.
  unfold select, best_step, candidate. destruct acc as [hp sel].
  destruct (heap (processor s) !! e.2) as [j|]; [|done].
  case_bool_decide; [done|].
  by destruct (StreamBuffer.isEmpty _ _).
Qed.

(** X10 (the coordinator's choice): [getNextProcessingJob] answers the
    first job, in queue order, among the eligible jobs of the highest
    priority, provided that priority is above -1; a job is eligible
    when its stream is not being processed and has a buffered frame.
    It answers [null] exactly when no eligible job has a priority above
    -1. *)
Theorem X10_coordinator_picks_the_first_eligible_job_of_highest_priority s :
  match getNextProcessingJob s with
  | Some job =>
      ∃ l1 k r l2,
        processingQueue (processor s) = l1 ++ (k, r) :: l2
        ∧ heap (processor s) !! r = Some job
        ∧ eligible s job
        ∧ -1 < priority job
        ∧ (∀ e j, e ∈ l1 → heap (processor s) !! e.2 = Some j →
                  eligible s j → priority j < priority job)
        ∧ (∀ e j, e ∈ l2 → heap (processor s) !! e.2 = Some j →
                  eligible s j → priority j <= priority job)
  | None =>
      ∀ e j, e ∈ processingQueue (processor s) →
             heap (processor s) !! e.2 = Some j →
             eligible s j → priority j <= -1
  end.
Proof.
  unfold getNextProcessingJob.
  assert (H : match (foldl (select s) (-1, None)
                       (processingQueue (processor s))).2 with
              | Some job =>
                  ∃ l1 k r l2,
                    processingQueue (processor s) = l1 ++ (k, r) :: l2
                    ∧ heap (processor s) !! r = Some job
                    ∧ eligible s job
                    ∧ -1 < priority job
                    ∧ (∀ e j, e ∈ l1 → heap (processor s) !! e.2 = Some j →
                              eligible s j → priority j < priority job)
                    ∧ (∀ e j, e ∈ l2 → heap (processor s) !! e.2 = Some j →
                              eligible s j → priority j <= priority job)
              | None =>
                  ∀ e j, e ∈ processingQueue (processor s) →
                         heap (processor s) !! e.2 = Some j →
                         eligible s j → priority j <= -1
              end).
  { rewrite foldl_select_best.
    destruct (foldl_best (candidate s) (processingQueue (processor s))
                (-1) None) as [[-> Hall]|Hex].
    - cbn [snd]. intros e j He Hj Hel.
      eapply (Hall e _ j); [done|]. by apply candidate_Some.
    - destruct Hex as (l1 & [k r] & l2 & p & job & Hq & Hc & -> & Hlt
                       & H1 & H2).
      apply candidate_Some in Hc as (Hj & Hel & ->). cbn [snd fst] in *.
      exists l1, k, r, l2. repeat split; try done; try apply Hel.
      + intros e j He Hej Helj.
        eapply (H1 e _ j); [done|]. by apply candidate_Some.
      + intros e j He Hej Helj.
        eapply (H2 e _ j); [done|]. by apply candidate_Some. }
  destruct (processingQueue (processor s)) as [|e q] eqn:E; [|done].
  by intros e j ?%not_elem_of_nil.
Qed.

(** *** What the listeners do to a job *)

Lemma job_of_Some sid pr r job :
  job_of sid pr = Some (r, job)
  ↔ Js.oget sid (processingQueue pr) = Some r ∧ heap pr !! r = Some job.
Proof.
  unfold job_of. destruct (Js.oget sid (processingQueue pr)) as [r'|];
    cbn [mbind option_bind]; [|by split; [|intros [? _]]].
  destruct (heap pr !! r') as [j|] eqn:E; cbn [mbind option_bind].
  - split; [by intros [= <- <-]|]. intros [[= <-] Hj]. congruence.
  - split; [done|]. intros [[= <-] Hj]. congruence.
Qed.

(** X11 (overflow raises the priority): when a push finds the stream at
    capacity while a job for it is queued, the push is refused and the
    job's priority becomes [min (priority + 1) 10]: one more than it
    was, or 10 if that is less, so that a job queued with a priority
    above 10 comes down to 10. Nothing else of the coordinator
    changes. *)
Theorem X11_overflow_moves_a_queued_job_one_step_towards_ten
    sid frame now s r job :
  0 <= StreamBuffer.maxBufferSize (buffer s)
    <= Js.len (content sid (buffer s)) →
  job_of sid (processor s) = Some (r, job) →
  let '(ok, s') := addFrame sid frame now s in
  ok = false
  ∧ job_of sid (processor s')
    = Some (r, with_priority job (Z.min (priority job + 1) 10))
  ∧ processor s'
    = set_heap (<[r := with_priority job (Z.min (priority job + 1) 10)]>
                  (heap (processor s))) (processor s).
Proof.
  intros Hfull [Hq Hj]%job_of_Some. unfold addFrame.
  rewrite (addFrame_at_capacity sid frame (buffer s) Hfull).
  cbv zeta. cbn [deliver foldl on_buffer_event].
  cbn [processor emit set_log set_buffer]. rewrite Hq.
  cbn [upd_processor processor set_processor emit set_log set_buffer].
  assert (Hheap : alter (λ job0, with_priority job0 (Z.min (priority job0 + 1) 10))
                    r (heap (processor s))
                  = <[r := with_priority job (Z.min (priority job + 1) 10)]>
                      (heap (processor s))).
  { apply list_eq. intros i. destruct (decide (i = r)) as [->|Hne].
    - rewrite list_lookup_alter_eq, Hj.
      by rewrite list_lookup_insert_eq by (by eapply lookup_lt_Some).
    - by rewrite list_lookup_alter_ne, list_lookup_insert_ne by done. }
  rewrite Hheap. split; [done|]. split; [|done].
  apply job_of_Some. cbn [set_heap processingQueue heap]. split; [done|].
  by rewrite list_lookup_insert_eq by (by eapply lookup_lt_Some).
Qed.

(** X11 at a full stream of capacity 2 whose job was queued with
    priority 1 before the coordinator was started. *)
Lemma X11_witness :
  let s := run [(0, AddFrame "s1" (frame_at 1)); (1, AddFrame "s1" (frame_at 2))]
             (create 2 5) in
  ∃ r job,
    job_of "s1" (processor (addFrame "s1" (frame_at 3) 2 s).2) = Some (r, job)
    ∧ priority job = 2.
Proof.
  intros s.
  pose proof (X11_overflow_moves_a_queued_job_one_step_towards_ten
                "s1" (frame_at 3) 2 s 0%nat
                {| job_streamId := "s1"; priority := 1; queuedAt := 0;
                   frameCount := 1; retryCount := 0 |}
                (conj (proj1 (Z.leb_le 0 2) eq_refl)
                   (proj1 (Z.leb_le 2 2) eq_refl))
                eq_refl) as H.
  destruct (addFrame "s1" (frame_at 3) 2 s) as [ok s'].
  destruct H as (_ & H & _). eexists _, _. split; [exact H|reflexivity].
Defined.

(** *** Streams the coordinator knows *)

(** The stream is queued or being processed. *)
Definition known sid s : Prop :=
  Js.ohas sid (processingQueue (processor s)) = true
  ∨ sid ∈ activeProcessing (processor s).

Lemma known_same sid s s' :
  processingQueue (processor s') = processingQueue (processor s) →
  activeProcessing (processor s') = activeProcessing (processor s) →
  known sid s → known sid s'.
Proof. unfold known. by intros -> ->. Qed.

(** [processNextBatch] either leaves the queue and the active set alone
    or moves one stream from the queue to the active set. *)
Lemma processNextBatch_admits now s :
  (processingQueue (processor (processNextBatch now s))
   = processingQueue (processor s)
   ∧ activeProcessing (processor (processNextBatch now s))
     = activeProcessing (processor s))
  ∨ ∃ job,
      getNextProcessingJob s = Some job
      ∧ processingQueue (processor (processNextBatch now s))
        = Js.odelete (job_streamId job) (processingQueue (processor s))
      ∧ activeProcessing (processor (processNextBatch now s))
        = {[job_streamId job]} ∪ activeProcessing (processor s).
Proof.
  unfold processNextBatch. destruct (negb _ || _); [by auto|].
  destruct (getNextProcessingJob s) as [job|]; [|by auto].
  unfold processStream.
  match goal with |- context [loop_head ?p now ?t] =>
    pose proof (loop_head_sched p now t) as [_ Hsched];
    destruct (loop_head p now t) as [p' s2] end.
  simpl in Hsched. injection Hsched as Hq' Ha' _ _.
  right. exists job. simpl. by rewrite Hq', Ha'.
Qed.

Lemma processNextBatch_known x now s :
  known x s → known x (processNextBatch now s).
Proof.
  intros Hk. destruct (processNextBatch_admits now s)
    as [[Hq Ha]|(job & _ & Hq & Ha)].
  - by apply (known_same x s).
  - unfold known. rewrite Hq, Ha, ohas_odelete.
    destruct (decide (job_streamId job = x)) as [->|Hne].
    + right. apply elem_of_union_l. by apply elem_of_singleton.
    + destruct Hk as [Hk|Hk].
      * left. by rewrite Hk, bool_decide_eq_false_2.
      * right. by apply elem_of_union_r.
Qed.

Lemma addStreamToQueue_keeps x sid prio now s :
  known x s → known x (addStreamToQueue sid prio now s).
Proof.
  intros Hk. unfold addStreamToQueue.
  destruct (Js.oget sid _) eqn:E; [by apply (known_same x s)|].
  cbv zeta.
  match goal with |- context [processNextBatch now ?t] => set (s2 := t) end.
  assert (known x s2).
  { unfold known, s2. simpl. rewrite ohas_oset.
    destruct Hk as [->|Hk]; [left; apply orb_true_r|by right]. }
  destruct (_ && _); [by apply processNextBatch_known|done].
Qed.

Lemma addStreamToQueue_known sid prio now s :
  known sid (addStreamToQueue sid prio now s).
Proof.
  unfold addStreamToQueue.
  destruct (Js.oget sid _) eqn:E.
  { left. simpl. unfold Js.ohas. by rewrite E. }
  cbv zeta.
  match goal with |- context [processNextBatch now ?t] => set (s2 := t) end.
  assert (known sid s2).
  { left. unfold s2. simpl. rewrite ohas_oset.
    by rewrite bool_decide_eq_true_2. }
  destruct (_ && _); [by apply processNextBatch_known|done].
Qed.

Lemma on_buffer_event_keeps x e now s :
  known x s → known x (on_buffer_event e now s).
Proof.
  intros Hk. destruct e; simpl; try done.
  - destruct (_ && _); [by apply addStreamToQueue_keeps|done].
  - destruct (Js.oget _ _); [|done]. by apply (known_same x s).
Qed.

Lemma deliver_keeps x evs now s : known x s → known x (deliver evs now s).
Proof.
  revert s. induction evs as [|e evs IH]; intros s Hk; [done|].
  simpl. apply IH. apply on_buffer_event_keeps. by apply (known_same x s).
Qed.

Lemma frame_added_known sid n ts now s :
  known sid (on_buffer_event (StreamBuffer.FrameAdded sid n ts) now s).
Proof.
  cbn [on_buffer_event].
  destruct (Js.ohas sid _) eqn:Eq; cbn [negb andb]; [by left|].
  case_bool_decide as Ha; cbn [negb]; [by right|].
  apply addStreamToQueue_known.
Qed.

(** X12 (no stream is overlooked): after a push that was admitted,
    after [addStreamToQueue], after [routeToAI], and after the retry
    timer of a stream has fired, the stream is queued or being
    processed; and none of the four ever makes the coordinator drop
    another stream that it had queued or was processing. *)
Theorem X12_admitted_streams_are_queued_or_active sid now s :
  (∀ frame, (addFrame sid frame now s).1 = true →
            known sid (addFrame sid frame now s).2)
  ∧ (∀ prio, known sid (addStreamToQueue sid prio now s))
  ∧ (∀ prio, known sid (routeToAI sid prio now s))
  ∧ (∀ k r delay, tasks (processor s) !! k = Some (RetryTimer sid r delay) →
                  known sid (fire k now s))
  ∧ (∀ x, known x s →
          (∀ frame, known x (addFrame sid frame now s).2)
          ∧ (∀ prio, known x (addStreamToQueue sid prio now s))
          ∧ (∀ prio, known x (routeToAI sid prio now s))
          ∧ (∀ k, known x (fire k now s))).
Proof.
  split; [|split; [|split; [|split]]].
  - intros frame. unfold addFrame, StreamBuffer.addFrame.
    destruct (_ <=? _).
    { by destruct (StreamBuffer.handleOverflow _ _ _). }
    intros _. cbn [snd]. unfold deliver. rewrite foldl_app. cbn [foldl].
    apply frame_added_known.
  - intros prio. apply addStreamToQueue_known.
  - intros prio. unfold routeToAI. cbv zeta.
    match goal with |- known _ (emits _ ?t) => apply (known_same sid t); [done..|] end.
    apply addStreamToQueue_known.
  - intros k r delay Hk. unfold fire. rewrite Hk.
    apply processNextBatch_known. left. simpl. rewrite ohas_oset.
    by rewrite bool_decide_eq_true_2.
  - intros x Hx. split; [|split; [|split]].
    + intros frame. unfold addFrame.
      destruct (StreamBuffer.addFrame _ _ _) as [[ok b'] evs]. cbn [snd].
      apply deliver_keeps. by apply (known_same x s).
    + intros prio. by apply addStreamToQueue_keeps.
    + intros prio. unfold routeToAI. cbv zeta.
      match goal with |- known _ (emits _ ?t) => apply (known_same x t); [done..|] end.
      apply addStreamToQueue_keeps. by apply (known_same x s).
    + intros k. unfold fire.
      destruct (tasks (processor s) !! k) as [[| |sid' r d]|]; [..|done].
      * apply processNextBatch_known. by apply (known_same x s).
      * apply processNextBatch_known. by apply (known_same x s).
      * apply processNextBatch_known. unfold known. simpl. rewrite ohas_oset.
        destruct Hx as [->|Hx]; [left; apply orb_true_r|by right].
Qed.

(** X12 at the first push to a pipeline that has not been started. *)
Lemma X12_witness :
  known "s1" (addFrame "s1" (frame_at 1) 0 (create 30 5)).2.
Proof.
  exact (proj1 (X12_admitted_streams_are_queued_or_active "s1" 0 (create 30 5))
           (frame_at 1) eq_refl).
Defined.

(** *** The retry path of [handleProcessingError] *)

Lemma or_zero_id n : or_zero n = n.
Proof. unfold or_zero. destruct (Z.eqb_spec n 0); congruence. Qed.

(** An error on a stream whose job is queued and has fewer than three
    retries behind it. *)
Lemma handleProcessingError_retry sid s r job :
  job_of sid (processor s) = Some (r, job) →
  retryCount job < 3 →
  let n := retryCount job + 1 in
  let s' := handleProcessingError sid s in
  log s' = log s ++ [Pr (ProcessingRetry sid n (2 ^ n * 1000))]
  ∧ tasks (processor s')
    = tasks (processor s) ++ [RetryTimer sid r (2 ^ n * 1000)]
  ∧ job_of sid (processor s') = Some (r, with_retryCount job n)
  ∧ processingQueue (processor s') = processingQueue (processor s)
  ∧ activeProcessing (processor s') = activeProcessing (processor s).
Proof.
  intros Hjob Hlt n s'. unfold s', handleProcessingError. rewrite Hjob.
  destruct (Z.ltb_spec (retryCount job) 3); [|lia].
  apply job_of_Some in Hjob as [Hq Hj].
  cbn [retryCount with_retryCount]. fold n.
  repeat split; try done.
  apply job_of_Some. split; [done|]. simpl.
  by rewrite list_lookup_insert_eq by (by eapply lookup_lt_Some).
Qed.

(** An error on a stream whose job is queued and has three retries or
    more behind it. *)
Lemma handleProcessingError_exhausted sid s r job :
  job_of sid (processor s) = Some (r, job) →
  3 <= retryCount job →
  handleProcessingError sid s
  = emit (Pr (ProcessingFailed sid (retryCount job))) s.
Proof.
  intros Hjob Hge. unfold handleProcessingError. rewrite Hjob.
  destruct (Z.ltb_spec (retryCount job) 3); [lia|]. by rewrite or_zero_id.
Qed.

(** X13 (retry budget): while the job of a stream stays queued, four
    errors in a row on that stream give three retries, announced with
    delays of 2000, 4000 and 8000 ms, and then a failure that reports 3
    retries. The three timers hold the same job object, whose retry
    count is 3 in the end; the queue and the active set are not
    touched. *)
Theorem X13_three_retries_with_doubling_delays_then_failure sid s r job :
  job_of sid (processor s) = Some (r, job) →
  retryCount job = 0 →
  let s' := Nat.iter 4 (handleProcessingError sid) s in
  log s'
  = log s ++ [Pr (ProcessingRetry sid 1 2000); Pr (ProcessingRetry sid 2 4000);
              Pr (ProcessingRetry sid 3 8000); Pr (ProcessingFailed sid 3)]
  ∧ tasks (processor s')
    = tasks (processor s)
      ++ [RetryTimer sid r 2000; RetryTimer sid r 4000; RetryTimer sid r 8000]
  ∧ job_of sid (processor s') = Some (r, with_retryCount job 3)
  ∧ processingQueue (processor s') = processingQueue (processor s)
  ∧ activeProcessing (processor s') = activeProcessing (processor s).
Proof.
  intros Hjob H0. unfold Nat.iter. cbn [nat_rect]. cbv zeta.
  destruct (handleProcessingError_retry sid s r job Hjob)
    as (Hl1 & Ht1 & Hj1 & Hq1 & Ha1); [lia|].
  rewrite H0 in Hl1, Ht1, Hj1. cbn [Z.add] in Hl1, Ht1, Hj1.
  set (s1 := handleProcessingError sid s) in *. clearbody s1.
  destruct (handleProcessingError_retry sid s1 r _ Hj1)
    as (Hl2 & Ht2 & Hj2 & Hq2 & Ha2); [simpl; lia|].
  cbn [retryCount with_retryCount Z.add Pos.add Pos.succ] in Hl2, Ht2, Hj2.
  set (s2 := handleProcessingError sid s1) in *. clearbody s2.
  destruct (handleProcessingError_retry sid s2 r _ Hj2)
    as (Hl3 & Ht3 & Hj3 & Hq3 & Ha3); [simpl; lia|].
  cbn [retryCount with_retryCount Z.add Pos.add Pos.succ] in Hl3, Ht3, Hj3.
  set (s3 := handleProcessingError sid s2) in *. clearbody s3.
  rewrite (handleProcessingError_exhausted sid s3 r _ Hj3) by (simpl; lia).
  cbn [log emit set_log processor retryCount with_retryCount].
  rewrite Hl3, Hl2, Hl1, Ht3, Ht2, Ht1, Hq3, Hq2, Hq1, Ha3, Ha2, Ha1.
  rewrite <-!(assoc_L (++)). by repeat split.
Qed.

(** X13 at a job that was queued before the coordinator was started. *)
Lemma X13_witness :
  let s := (addFrame "s1" (frame_at 1) 0 (create 30 5)).2 in
  drop 2 (log (Nat.iter 4 (handleProcessingError "s1") s))
  = [Pr (ProcessingRetry "s1" 1 2000); Pr (ProcessingRetry "s1" 2 4000);
     Pr (ProcessingRetry "s1" 3 8000); Pr (ProcessingFailed "s1" 3)].
Proof.
  intros s.
  destruct (X13_three_retries_with_doubling_delays_then_failure "s1" s 0%nat
              {| job_streamId := "s1"; priority := 1; queuedAt := 0;
                 frameCount := 1; retryCount := 0 |} eq_refl eq_refl)
    as (H & _).
  rewrite H. reflexivity.
Defined.

End CoordinatorFacts.

(** ** Suspended passes *)

Section PassInvariant.
Import StreamProcessor Pipeline.
Implicit Types (s : Sys) (sid : string) (now : Z).

(** A property of passes that holds wherever a pass can be suspended:
    at the [await] that [loop_head] reaches, after the [finally] block,
    and in the 1 ms delay. *)
Variable Q : Pass → Prop.
Hypothesis Q_loop : ∀ p now s, Q (loop_head p now s).1.
Hypothesis Q_settle : ∀ p threw now s, Q (settle p threw now s).1.
Hypothesis Q_yield : ∀ p, point p = AwaitYield → Q p.

Definition all_passes s : Prop := ∀ p, p ∈ passes (processor s) → Q p.

Lemma all_passes_same s s' :
  passes (processor s') = passes (processor s) →
  all_passes s → all_passes s'.
Proof. unfold all_passes. by intros ->. Qed.

Lemma all_passes_replace i p' s s1 :
  passes (processor s1) = passes (processor s) →
  Q p' → all_passes s →
  all_passes
    (upd_processor (λ pr, set_passes (<[i := p']> (passes pr)) pr) s1).
Proof.
  intros Hps Hp' H q Hq. simpl in Hq. rewrite Hps in Hq.
  apply list_elem_of_lookup in Hq as [j Hj].
  apply list_lookup_insert_Some in Hj as [(_ & <- & _)|[_ Hj]]; [done|].
  apply H. by eapply list_elem_of_lookup_2.
Qed.

Lemma processNextBatch_all_passes now s :
  all_passes s → all_passes (processNextBatch now s).
Proof.
  intros H. unfold processNextBatch.
  destruct (negb _ || _); [done|].
  destruct (getNextProcessingJob s) as [job|];
    [|by apply (all_passes_same s)].
  unfold processStream.
  match goal with |- context [loop_head ?p now ?t] =>
    pose proof (Q_loop p now t) as Hq;
    pose proof (loop_head_sched p now t) as [_ Hsched];
    destruct (loop_head p now t) as [p' s2] end.
  simpl in Hq, Hsched. injection Hsched as _ _ Hps _.
  intros q Hin. simpl in Hin. rewrite Hps in Hin. simpl in Hin.
  apply elem_of_app in Hin as [Hin|Hin]; [by apply H|].
  by apply list_elem_of_singleton in Hin as ->.
Qed.

Lemma addStreamToQueue_all_passes sid prio now s :
  all_passes s → all_passes (addStreamToQueue sid prio now s).
Proof.
  intros H. unfold addStreamToQueue.
  destruct (Js.oget sid _); [by apply (all_passes_same s)|].
  cbv zeta.
  match goal with |- context [processNextBatch now ?t] => set (s2 := t) end.
  assert (all_passes s2) by done.
  destruct (_ && _); [by apply processNextBatch_all_passes|done].
Qed.

Lemma on_buffer_event_all_passes e now s :
  all_passes s → all_passes (on_buffer_event e now s).
Proof.
  intros H. destruct e; simpl; try done.
  - destruct (_ && _); [by apply addStreamToQueue_all_passes|done].
  - by destruct (Js.oget _ _).
Qed.

Lemma deliver_all_passes evs now s :
  all_passes s → all_passes (deliver evs now s).
Proof.
  revert s. induction evs as [|e evs IH]; intros s H; [done|].
  simpl. apply IH. by apply on_buffer_event_all_passes.
Qed.

Lemma addFrame_all_passes sid frame now s :
  all_passes s → all_passes (addFrame sid frame now s).2.
Proof.
  intros H. unfold addFrame.
  destruct (StreamBuffer.addFrame _ _ _) as [[r b'] evs].
  by apply deliver_all_passes.
Qed.

Lemma foldl_addFrame_all_passes sid fs now s :
  all_passes s →
  all_passes (foldl (λ s frame, (addFrame sid frame now s).2) s fs).
Proof.
  revert s. induction fs as [|f fs IH]; intros s H; [done|].
  simpl. apply IH. by apply addFrame_all_passes.
Qed.

Lemma processor_set_log l s : processor (set_log l s) = processor s.
Proof. done. Qed.

Lemma buffer_set_log l s : buffer (set_log l s) = buffer s.
Proof. done. Qed.

Lemma handleDisconnection_processor sid now s :
  processor (handleDisconnection sid now s) = without_stream sid (processor s).
Proof.
  rewrite <-(processor_set_log [] (handleDisconnection sid now s)).
  by rewrite handleDisconnection_state.
Qed.

Lemma handleDisconnection_buffer sid now s :
  buffer (handleDisconnection sid now s)
  = StreamBuffer.with_buffers (buffer s)
      (delete sid (StreamBuffer.buffers (buffer s))).
Proof.
  rewrite <-(buffer_set_log [] (handleDisconnection sid now s)).
  by rewrite handleDisconnection_state.
Qed.

Lemma handleDisconnection_passes sid now s :
  passes (processor (handleDisconnection sid now s)) = passes (processor s).
Proof. by rewrite handleDisconnection_processor. Qed.

Lemma handleProcessingError_passes sid s :
  passes (processor (handleProcessingError sid s)) = passes (processor s).
Proof.
  unfold handleProcessingError.
  destruct (job_of sid (processor s)) as [[r job]|]; [|done].
  by destruct (retryCount job <? 3).
Qed.

Lemma step_all_passes now a s : all_passes s → all_passes (step now a s).
Proof.
  intros H. destruct a; cbn [step].
  - by apply addFrame_all_passes.
  - unfold getNextFrame.
    destruct (StreamBuffer.getNextFrame _ _) as [[r b'] evs].
    by apply deliver_all_passes.
  - unfold getFrames.
    destruct (StreamBuffer.getFrames _ _ _) as [[r b'] evs].
    by apply deliver_all_passes.
  - unfold clearBuffer. destruct (StreamBuffer.clearBuffer _ _) as [b' evs].
    by apply deliver_all_passes.
  - unfold removeStream. destruct (StreamBuffer.removeStream _ _) as [b' evs].
    by apply deliver_all_passes.
  - unfold routeToAI. cbv zeta.
    match goal with |- all_passes (emits _ ?t) =>
      apply (all_passes_same t); [done|] end.
    by apply addStreamToQueue_all_passes.
  - done.
  - unfold start. destruct (isProcessing _); [done|].
    match goal with |- all_passes (emit _ ?t) =>
      apply (all_passes_same t); [done|] end.
    by apply processNextBatch_all_passes.
  - done.
  - by apply addStreamToQueue_all_passes.
  - done.
  - unfold addVideoStream. destruct (validateStream stream); [|done].
    destruct (negb _); [done|].
    match goal with |- all_passes (emit _ ?t) =>
      apply (all_passes_same t); [done|] end.
    apply foldl_addFrame_all_passes.
    match goal with |- all_passes (set_sessions _ _ ?t) =>
      apply (all_passes_same t); [done|] end.
    destruct (userSessions s !! userId stream) as [existing|]; [|done].
    destruct (Js.truthy existing); [|done].
    apply (all_passes_same s); [|done]. apply handleDisconnection_passes.
  - apply (all_passes_same s); [|done]. apply handleDisconnection_passes.
  - unfold batchDone.
    destruct (passes _ !! i) as [p|] eqn:Hi; [|done].
    destruct (point p); try done.
    destruct ok; cbv zeta beta iota;
      match goal with |- all_passes (emits _ ?t) =>
        apply (all_passes_same t); [done|] end;
      (apply (all_passes_replace _ _ s); [done|by apply Q_yield|done]).
  - unfold yieldDone.
    destruct (passes _ !! i) as [p|] eqn:Hi; [|done].
    destruct (point p); try done.
    pose proof (Q_loop p now s) as Hq.
    pose proof (loop_head_sched p now s) as [_ Hsched].
    destruct (loop_head p now s) as [p' s1].
    simpl in Hq, Hsched. injection Hsched as _ _ Hps _.
    by apply (all_passes_replace _ _ s).
  - unfold passThrows.
    destruct (passes _ !! i) as [p|] eqn:Hi; [|done].
    pose proof (Q_settle p true now s) as Hq.
    destruct (point p); try done; by apply (all_passes_replace _ _ s).
  - unfold passFinish.
    destruct (passes _ !! i) as [p|] eqn:Hi; [|done].
    destruct (point p) as [| |threw]; try done.
    intros q Hq. simpl in Hq.
    assert (Hps : passes (processor (if threw
                                     then handleProcessingError (pass_streamId p) s
                                     else s))
                  = passes (processor s)).
    { destruct threw; [apply handleProcessingError_passes|done]. }
    rewrite Hps in Hq. apply H.
    eapply elem_of_sublist; [exact Hq|apply sublist_delete].
  - unfold fire.
    destruct (tasks _ !! k) as [[| |sid r d]|] eqn:Hk; [..|done];
      by apply processNextBatch_all_passes.
Qed.

Lemma run_all_passes tr s : all_passes s → all_passes (run tr s).
Proof.
  revert s. induction tr as [|[now a] tr IH]; intros s H; [done|].
  simpl. by apply IH, step_all_passes.
Qed.

End PassInvariant.

Section BatchSize.
Import StreamProcessor Pipeline.
Implicit Types (s : Sys) (sid : string) (now : Z).

(** A pass that waits for [processBatch] holds between one and five
    frames. *)
Definition batch_in_bounds (p : Pass) : Prop :=
  ∀ frames t, point p = AwaitBatch frames t → 1 <= Js.len frames <= 5.

Lemma loop_head_batch p now s : batch_in_bounds (loop_head p now s).1.
Proof.
  unfold batch_in_bounds, loop_head, settle.
  destruct (isProcessing (processor s)); [|done].
  pose proof (getFrames_prefix (pass_streamId p) 5 (buffer s)) as Hpre.
  destruct (StreamBuffer.getFrames (pass_streamId p) 5 (buffer s))
    as [[fs b'] evs].
  destruct Hpre as (_ & Hle & _).
  destruct (Z.eqb_spec (Js.len fs) 0) as [|Hne]; [done|].
  cbn [fst point at_point]. intros frames t [= <- <-].
  pose proof (len_nonneg fs). lia.
Qed.

(** X14 (batch size): in every state that a run of the pipeline can
    reach, each pass that is waiting for [processBatch] was handed at
    least one frame and at most five. *)
Theorem X14_every_batch_holds_one_to_five_frames bufferSize max tr p frames t :
  p ∈ passes (processor (run tr (create bufferSize max))) →
  point p = AwaitBatch frames t →
  1 <= Js.len frames <= 5.
Proof.
  assert (Hall : all_passes batch_in_bounds (run tr (create bufferSize max))).
  { apply run_all_passes.
    - apply loop_head_batch.
    - intros p0 threw now s fs t0 H. discriminate H.
    - intros p0 Hp0 fs t0 H. congruence.
    - by intros q ?%not_elem_of_nil. }
  intros Hp. by apply Hall.
Qed.

(** X14 at seven frames pushed to a started pipeline: the first push
    starts a pass with a batch of one frame. *)
Lemma X14_witness :
  let s := run ((0, Start) :: ((λ i, (i, AddFrame "s1" (frame_at i))) <$> seqZ 1 7))
             (create 30 5) in
  let p := {| pass_streamId := "s1"; pass_startTime := 1;
              pass_processedFrames := 0; pass_errors := 0;
              point := AwaitBatch [frame_at 1] 1 |} in
  passes (processor s) !! 0%nat = Some p ∧ 1 <= Js.len [frame_at 1] <= 5.
Proof.
  intros s p.
  assert (Hp : passes (processor s) !! 0%nat = Some p) by (vm_compute; reflexivity).
  split; [exact Hp|].
  exact (X14_every_batch_holds_one_to_five_frames 30 5
           ((0, Start) :: ((λ i, (i, AddFrame "s1" (frame_at i))) <$> seqZ 1 7))
           p [frame_at 1] 1 (list_elem_of_lookup_2 _ _ _ Hp) eq_refl).
Defined.

End BatchSize.

(** ** Stopping and disconnecting while passes are suspended *)

Section Halting.
Import StreamProcessor Pipeline.
Implicit Types (s : Sys) (sid : string) (now : Z).

(** The turns that the event loop takes on its own. *)
Definition continuation (a : Action) : bool :=
  match a with
  | BatchDone _ _ | YieldDone _ | PassThrows _ | PassFinish _ | Fire _ => true
  | _ => false
  end.

(** The coordinator is stopped and processes nothing. *)
Definition halted s : Prop :=
  isProcessing (processor s) = false ∧ activeProcessing (processor s) = ∅.

Lemma processNextBatch_stopped now s :
  isProcessing (processor s) = false → processNextBatch now s = s.
Proof. intros H. unfold processNextBatch. by rewrite H. Qed.

Lemma loop_head_stopped p now s :
  isProcessing (processor s) = false →
  loop_head p now s = settle p false now s.
Proof. intros H. unfold loop_head. by rewrite H. Qed.

Lemma handleProcessingError_frame sid s :
  buffer (handleProcessingError sid s) = buffer s
  ∧ isProcessing (processor (handleProcessingError sid s))
    = isProcessing (processor s)
  ∧ activeProcessing (processor (handleProcessingError sid s))
    = activeProcessing (processor s).
Proof.
  unfold handleProcessingError.
  destruct (job_of sid (processor s)) as [[r job]|]; [|done].
  by destruct (retryCount job <? 3).
Qed.

Lemma step_halted now a s :
  continuation a = true → halted s →
  halted (step now a s) ∧ buffer (step now a s) = buffer s.
Proof.
  intros Ha [Hp Hact]. destruct a; try discriminate Ha; cbn [step].
  - unfold batchDone. destruct (passes _ !! i) as [p|]; [|done].
    destruct (point p); try done. by destruct ok.
  - unfold yieldDone. destruct (passes _ !! i) as [p|]; [|done].
    destruct (point p); try done.
    by rewrite loop_head_stopped.
  - unfold passThrows. destruct (passes _ !! i) as [p|]; [|done].
    by destruct (point p).
  - unfold passFinish. destruct (passes _ !! i) as [p|]; [|done].
    destruct (point p) as [| |threw]; try done.
    assert (Hs1 : buffer (if threw
                          then handleProcessingError (pass_streamId p) s
                          else s) = buffer s
                  ∧ isProcessing (processor (if threw
                          then handleProcessingError (pass_streamId p) s
                          else s)) = false
                  ∧ activeProcessing (processor (if threw
                          then handleProcessingError (pass_streamId p) s
                          else s)) = ∅).
    { destruct threw; [|done].
      destruct (handleProcessingError_frame (pass_streamId p) s)
        as (-> & -> & ->). done. }
    destruct Hs1 as (Hb1 & Hp1 & Ha1).
    unfold halted. cbn [upd_processor set_processor processor buffer
                         set_passes set_tasks set_active isProcessing
                         activeProcessing].
    rewrite Hb1, Hp1, Ha1. split; [split; [done|]|done].
    apply difference_disjoint_L, disjoint_empty_l.
  - unfold fire. destruct (tasks _ !! k) as [[| |sid r d]|]; [..|done];
      by rewrite processNextBatch_stopped.
Qed.

Lemma run_halted tr s :
  forallb (λ na, continuation na.2) tr = true → halted s →
  halted (run tr s) ∧ buffer (run tr s) = buffer s.
Proof.
  revert s. induction tr as [|[now a] tr IH]; intros s Htr H; [done|].
  cbn [forallb] in Htr. apply andb_true_iff in Htr as [Ha Htr].
  destruct (step_halted now a s Ha H) as [Hh Hb].
  destruct (IH _ Htr Hh) as [Hh' Hb'].
  change (run ((now, a) :: tr) s) with (run tr (step now a s)).
  split; [done|]. by rewrite Hb', Hb.
Qed.

(** X15 (stopping): [stop] does not cancel the passes that are
    suspended, but whatever the event loop resumes afterwards, in
    whatever order, takes no frame out of any buffer and activates no
    stream; a pass that was in its 1 ms delay ends the next time it
    is resumed, with the counts it had. *)
Theorem X15_after_stop_nothing_is_drained_or_activated s :
  (∀ tr, forallb (λ na, continuation na.2) tr = true →
         let s' := run tr (stop s) in
         buffer s' = buffer s
         ∧ isProcessing (processor s') = false
         ∧ activeProcessing (processor s') = ∅)
  ∧ passes (processor (stop s)) = passes (processor s)
  ∧ (∀ i p now,
       passes (processor s) !! i = Some p → point p = AwaitYield →
       passes (processor (yieldDone i now (stop s))) !! i
       = Some (at_point p (Settled false))).
Proof.
  split; [|split; [done|]].
  - intros tr Htr s'. subst s'.
    destruct (run_halted tr (stop s) Htr) as [[Hp Ha] Hb]; [done|].
    by rewrite Hb.
  - intros i p now Hi Hpt. unfold yieldDone.
    change (passes (processor (stop s))) with (passes (processor s)).
    rewrite Hi, Hpt. rewrite loop_head_stopped by done.
    unfold settle. cbv zeta.
    cbn [upd_processor set_processor processor emit set_log set_passes
          set_metrics passes].
    change (passes (processor (stop s))) with (passes (processor s)).
    by rewrite list_lookup_insert_eq by (by eapply lookup_lt_Some).
Qed.

(** X15 at a pipeline stopped while a pass waits for its batch. *)
Lemma X15_witness :
  let s := run [(0, Start); (1, AddFrame "s1" (frame_at 1));
                (2, AddFrame "s1" (frame_at 2))] (create 30 5) in
  let s' := run [(4, BatchDone 0 true); (5, YieldDone 0); (6, PassFinish 0);
                 (7, Fire 0)] (stop s) in
  buffer s' = buffer s
  ∧ isProcessing (processor s') = false
  ∧ activeProcessing (processor s') = ∅.
Proof.
  intros s.
  exact (proj1 (X15_after_stop_nothing_is_drained_or_activated s)
           [(4, BatchDone 0 true); (5, YieldDone 0); (6, PassFinish 0);
            (7, Fire 0)] eq_refl).
Defined.

(** A pass resumed from its delay when its stream has no buffer. *)
Lemma yieldDone_without_buffer i p now s :
  passes (processor s) !! i = Some p →
  point p = AwaitYield →
  StreamBuffer.buffers (buffer s) !! pass_streamId p = None →
  let s2 := yieldDone i now s in
  passes (processor s2) !! i = Some (at_point p (Settled false))
  ∧ processingMetrics (processor s2) !! pass_streamId p
    = Some {| m_totalTime := now - pass_startTime p;
              m_processedFrames := pass_processedFrames p;
              m_errors := pass_errors p;
              m_queueDepth := 0 |}
  ∧ log s2
    = log s ++ [Pr (ProcessingCompleted (pass_streamId p)
                      (now - pass_startTime p)
                      (pass_processedFrames p) (pass_errors p))].
Proof.
  intros Hi Hpt Hb.
  assert (Hloop : loop_head p now s = settle p false now s).
  { unfold loop_head. destruct (isProcessing (processor s)); [|done].
    unfold StreamBuffer.getFrames. rewrite Hb.
    cbn [Js.len length Z.of_nat Z.eqb]. cbv zeta.
    unfold settle. cbv zeta. f_equal.
    unfold emits, emit, upd_processor. simpl. rewrite app_nil_r.
    by destruct s. }
  cbv zeta. unfold yieldDone. rewrite Hi, Hpt, Hloop.
  unfold settle. cbv zeta.
  cbn [upd_processor set_processor processor emit set_log set_passes
        set_metrics passes processingMetrics log].
  unfold StreamBuffer.getBufferSize. rewrite Hb.
  rewrite list_lookup_insert_eq by (by eapply lookup_lt_Some).
  by rewrite lookup_insert_eq.
Qed.

(** X16 (disconnecting a stream that is being processed):
    [handleDisconnection] deletes the stream's metrics but does not
    cancel its suspended pass. When the pass is resumed from its 1 ms
    delay it finds no buffer for the stream, ends, emits
    [processing:completed] and stores metrics for the stream again,
    with a queue depth of 0. *)
Theorem X16_disconnection_does_not_cancel_a_suspended_pass i p now now' s :
  passes (processor s) !! i = Some p →
  point p = AwaitYield →
  let sid := pass_streamId p in
  let s1 := handleDisconnection sid now s in
  let s2 := yieldDone i now' s1 in
  let totalTime := now' - pass_startTime p in
  passes (processor s1) !! i = Some p
  ∧ processingMetrics (processor s1) !! sid = None
  ∧ passes (processor s2) !! i = Some (at_point p (Settled false))
  ∧ processingMetrics (processor s2) !! sid
    = Some {| m_totalTime := totalTime;
              m_processedFrames := pass_processedFrames p;
              m_errors := pass_errors p;
              m_queueDepth := 0 |}
  ∧ log s2
    = log s1 ++ [Pr (ProcessingCompleted sid totalTime
                       (pass_processedFrames p) (pass_errors p))].
Proof.
  intros Hi Hpt. cbv zeta.
  assert (Hi1 : passes (processor (handleDisconnection (pass_streamId p) now s))
                !! i = Some p).
  { rewrite handleDisconnection_processor. exact Hi. }
  split; [exact Hi1|]. split.
  { rewrite handleDisconnection_processor. apply lookup_delete_eq. }
  apply yieldDone_without_buffer; [exact Hi1|exact Hpt|].
  rewrite handleDisconnection_buffer. apply lookup_delete_eq.
Qed.

(** X16 at a stream disconnected while its first batch has just been
    processed. *)
Lemma X16_witness :
  let s := run [(0, Start); (1, AddFrame "s1" (frame_at 1));
                (2, BatchDone 0 true)] (create 30 5) in
  let s2 := yieldDone 0 4 (handleDisconnection "s1" 3 s) in
  processingMetrics (processor s2) !! "s1"
  = Some {| m_totalTime := 3; m_processedFrames := 1; m_errors := 0;
            m_queueDepth := 0 |}.
Proof.
  intros s.
  exact (proj1 (proj2 (proj2 (proj2
           (X16_disconnection_does_not_cancel_a_suspended_pass 0
              {| pass_streamId := "s1"; pass_startTime := 1;
                 pass_processedFrames := 1; pass_errors := 0;
                 point := AwaitYield |} 3 4 s eq_refl eq_refl))))).
Defined.

End Halting.

(** ** The service: sessions and routing *)

Section Sessions.
Import StreamProcessor Pipeline.
Implicit Types (s : Sys) (sid : string) (now : Z).

(** What the coordinator and the buffer never write. *)
Definition outer s := (router s, activeStreams s, userSessions s).

Lemma loop_head_outer p now s : outer (loop_head p now s).2 = outer s.
Proof. unfold loop_head. unfold_pass. by repeat case_match. Qed.

Lemma processNextBatch_outer now s : outer (processNextBatch now s) = outer s.
Proof.
  unfold processNextBatch. destruct (negb _ || _); [done|].
  destruct (getNextProcessingJob s) as [job|]; [|done].
  unfold processStream.
  match goal with |- context [loop_head ?p now ?t] =>
    pose proof (loop_head_outer p now t) as Ho;
    destruct (loop_head p now t) as [p' s2] end.
  exact Ho.
Qed.

Lemma addStreamToQueue_outer sid prio now s :
  outer (addStreamToQueue sid prio now s) = outer s.
Proof.
  unfold addStreamToQueue. destruct (Js.oget sid _); [done|].
  cbv zeta. destruct (_ && _); [|done].
  by rewrite processNextBatch_outer.
Qed.

Lemma on_buffer_event_outer e now s : outer (on_buffer_event e now s) = outer s.
Proof.
  destruct e; simpl; try done.
  - destruct (_ && _); [by rewrite addStreamToQueue_outer|done].
  - by destruct (Js.oget _ _).
Qed.

Lemma deliver_outer evs now s : outer (deliver evs now s) = outer s.
Proof.
  revert s. induction evs as [|e evs IH]; intros s; [done|].
  simpl. by rewrite IH, on_buffer_event_outer.
Qed.

Lemma addFrame_outer sid frame now s :
  outer (addFrame sid frame now s).2 = outer s.
Proof.
  unfold addFrame. destruct (StreamBuffer.addFrame _ _ _) as [[r b'] evs].
  cbn [snd]. by rewrite deliver_outer.
Qed.

Lemma foldl_addFrame_outer sid fs now s :
  outer (foldl (λ s frame, (addFrame sid frame now s).2) s fs) = outer s.
Proof.
  revert s. induction fs as [|f fs IH]; intros s; [done|].
  simpl. by rewrite IH, addFrame_outer.
Qed.

Lemma handleProcessingError_outer sid s :
  outer (handleProcessingError sid s) = outer s.
Proof.
  unfold handleProcessingError.
  destruct (job_of sid (processor s)) as [[r job]|]; [|done].
  by destruct (retryCount job <? 3).
Qed.

Lemma outer_set_log l s : outer (set_log l s) = outer s.
Proof. done. Qed.

Lemma outer_inv s s' :
  outer s = outer s' →
  router s = router s' ∧ activeStreams s = activeStreams s'
  ∧ userSessions s = userSessions s'.
Proof. unfold outer. by intros [= -> -> ->]. Qed.

Lemma handleDisconnection_sessions sid now s :
  activeStreams (handleDisconnection sid now s) = delete sid (activeStreams s)
  ∧ userSessions (handleDisconnection sid now s)
    = match activeStreams s !! sid with
      | Some stream => delete (userId stream) (userSessions s)
      | None => userSessions s
      end
  ∧ router (handleDisconnection sid now s)
    = StreamRouter.removeRoute_delete sid (router s).
Proof.
  pose proof (outer_set_log [] (handleDisconnection sid now s)) as H.
  rewrite handleDisconnection_state in H.
  symmetry in H. apply outer_inv in H as (Hr & Ha & Hu).
  rewrite Hr, Ha, Hu. done.
Qed.

(** The session maps after a turn: only [addVideoStream] and
    [handleDisconnection] write them. *)
Lemma step_sessions now a s :
  match a with
  | AddVideoStream _ | HandleDisconnection _ => True
  | _ => activeStreams (step now a s) = activeStreams s
         ∧ userSessions (step now a s) = userSessions s
  end.
Proof.
  assert (Hview : ∀ s', outer s' = outer s →
            activeStreams s' = activeStreams s
            ∧ userSessions s' = userSessions s).
  { intros s' H. unfold outer in H. by injection H as _ -> ->. }
  destruct a; cbn [step]; try done.
  - apply Hview, addFrame_outer.
  - unfold getNextFrame.
    destruct (StreamBuffer.getNextFrame _ _) as [[r b'] evs]. cbn [snd].
    apply Hview. by rewrite deliver_outer.
  - unfold getFrames.
    destruct (StreamBuffer.getFrames _ _ _) as [[r b'] evs]. cbn [snd].
    apply Hview. by rewrite deliver_outer.
  - unfold clearBuffer. destruct (StreamBuffer.clearBuffer _ _) as [b' evs].
    apply Hview. by rewrite deliver_outer.
  - unfold removeStream. destruct (StreamBuffer.removeStream _ _) as [b' evs].
    apply Hview. by rewrite deliver_outer.
  - unfold routeToAI. cbv zeta.
    match goal with |- context [addStreamToQueue ?x ?y now ?t] =>
      pose proof (addStreamToQueue_outer x y now t) as Ho;
      set (s3 := addStreamToQueue x y now t) in * end.
    clearbody s3. apply outer_inv in Ho as (_ & Ha & Hu).
    split; [exact Ha|exact Hu].
  - unfold start. destruct (isProcessing _); [done|].
    match goal with |- context [processNextBatch now ?t] =>
      pose proof (processNextBatch_outer now t) as Ho;
      set (s3 := processNextBatch now t) in * end.
    clearbody s3. apply outer_inv in Ho as (_ & Ha & Hu).
    split; [exact Ha|exact Hu].
  - apply Hview, addStreamToQueue_outer.
  - unfold batchDone. destruct (passes _ !! i) as [p|]; [|done].
    destruct (point p); try done. by destruct ok.
  - unfold yieldDone. destruct (passes _ !! i) as [p|]; [|done].
    destruct (point p); try done.
    pose proof (loop_head_outer p now s) as Ho.
    destruct (loop_head p now s) as [p' s1]. by apply Hview.
  - unfold passThrows. destruct (passes _ !! i) as [p|]; [|done].
    by destruct (point p).
  - unfold passFinish. destruct (passes _ !! i) as [p|]; [|done].
    destruct (point p) as [| |threw]; try done.
    destruct threw; [|done].
    pose proof (handleProcessingError_outer (pass_streamId p) s) as Ho.
    set (s1 := handleProcessingError (pass_streamId p) s) in *.
    clearbody s1. by apply Hview.
  - unfold fire. destruct (tasks _ !! k) as [[| |sid r d]|]; [..|done];
      apply Hview; by rewrite processNextBatch_outer.
Qed.

(** *** Registered streams *)

(** Every registered stream is stored under its own id, has passed
    validation, and is the session of its user. *)
Definition registered_ok s : Prop :=
  ∀ sid st, activeStreams s !! sid = Some st →
    streamId st = sid ∧ acceptable st
    ∧ userSessions s !! userId st = Some sid.

Lemma addVideoStream_acceptable stream now s s' :
  addVideoStream stream now s = Ok s' → acceptable stream.
Proof.
  unfold addVideoStream.
  destruct (config stream) as [c|] eqn:Hc.
  - destruct (resolution c) as [res|] eqn:Hres.
    + destruct (validateStream_config stream c res Hc Hres)
        as (v & -> & Hvalid & _).
      destruct (isValid v); [|done]. intros _. by apply Hvalid.
    + unfold validateStream. by rewrite Hc, Hres.
  - destruct (validateStream_no_config stream Hc) as (v & -> & -> & _). done.
Qed.

(** The session maps that a registration leaves. *)
Lemma addVideoStream_sessions stream now s s' :
  addVideoStream stream now s = Ok s' →
  let s1 := match userSessions s !! userId stream with
            | Some existing =>
                if Js.truthy existing
                then handleDisconnection existing now s else s
            | None => s
            end in
  activeStreams s' = <[streamId stream := stream]> (activeStreams s1)
  ∧ userSessions s' = <[userId stream := streamId stream]> (userSessions s1)
  ∧ router s' = router s1.
Proof.
  unfold addVideoStream. destruct (validateStream stream); [|done].
  destruct (negb _); [done|]. intros [= <-]. cbv zeta.
  match goal with |- context [foldl ?f ?t ?l] =>
    pose proof (foldl_addFrame_outer (streamId stream) l now t) as Ho;
    set (s3 := foldl f t l) in * end.
  clearbody s3. apply outer_inv in Ho as (Hr & Ha & Hu).
  split; [exact Ha|]. split; [exact Hu|exact Hr].
Qed.

Lemma present_truthy (x : string) : present x → Js.truthy x = true.
Proof. intros H. destruct x; [|done]. destruct H. apply white_nil. Qed.

Lemma handleDisconnection_registered sid now s :
  registered_ok s → registered_ok (handleDisconnection sid now s).
Proof.
  intros H sid' st'.
  destruct (handleDisconnection_sessions sid now s) as (-> & -> & _).
  intros [Hne Hst']%lookup_delete_Some.
  destruct (H _ _ Hst') as (Hid & Hacc & Hses).
  split; [done|]. split; [done|].
  destruct (activeStreams s !! sid) as [st|] eqn:E; [|done].
  rewrite lookup_delete_ne; [done|]. intros Heq.
  destruct (H _ _ E) as (_ & _ & Hs0). congruence.
Qed.

Lemma addVideoStream_registered stream now s s' :
  registered_ok s → addVideoStream stream now s = Ok s' → registered_ok s'.
Proof.
  intros H Hadd.
  pose proof (addVideoStream_acceptable _ _ _ _ Hadd) as Hacc.
  destruct (addVideoStream_sessions _ _ _ _ Hadd) as (Ha & Hu & _).
  cbv zeta in Ha, Hu.
  set (s1 := match userSessions s !! userId stream with
             | Some existing =>
                 if Js.truthy existing
                 then handleDisconnection existing now s else s
             | None => s
             end) in *.
  assert (H1 : registered_ok s1).
  { unfold s1. destruct (userSessions s !! userId stream) as [old|]; [|done].
    destruct (Js.truthy old); [|done]. by apply handleDisconnection_registered. }
  assert (Hfresh : ∀ sid' st', activeStreams s1 !! sid' = Some st' →
                               userId st' ≠ userId stream).
  { intros sid' st' Hst' Heq. unfold s1 in Hst'.
    destruct (userSessions s !! userId stream) as [old|] eqn:Eold.
    - destruct (Js.truthy old) eqn:Et.
      + destruct (handleDisconnection_sessions old now s) as (Hd & _).
        rewrite Hd in Hst'.
        apply lookup_delete_Some in Hst' as [Hne Hst'].
        destruct (H _ _ Hst') as (_ & _ & Hses). congruence.
      + destruct (H _ _ Hst') as (Hid & Hacc' & Hses).
        assert (old = sid') as -> by congruence.
        destruct Hacc' as (Hp & _). rewrite Hid in Hp.
        apply present_truthy in Hp. congruence.
    - destruct (H _ _ Hst') as (_ & _ & Hses). congruence. }
  clearbody s1. intros k st. rewrite Ha, Hu.
  intros [[<- <-]|[Hne Hst]]%lookup_insert_Some.
  - split; [done|]. split; [done|]. apply lookup_insert_eq.
  - destruct (H1 _ _ Hst) as (Hid & Hacc' & Hses).
    split; [done|]. split; [done|].
    rewrite lookup_insert_ne; [done|]. intros Heq.
    by apply (Hfresh _ _ Hst).
Qed.

Lemma step_registered now a s : registered_ok s → registered_ok (step now a s).
Proof.
  intros H. pose proof (step_sessions now a s) as Hs.
  destruct a; cbv beta iota in Hs;
    lazymatch type of Hs with
    | True => idtac
    | _ => destruct Hs as [Ha Hu]; unfold registered_ok; by rewrite Ha, Hu
    end.
  - cbn [step]. destruct (addVideoStream stream now s) as [s'|] eqn:E; [|done].
    by eapply addVideoStream_registered.
  - by apply handleDisconnection_registered.
Qed.

Lemma run_registered tr s : registered_ok s → registered_ok (run tr s).
Proof.
  revert s. induction tr as [|[now a] tr IH]; intros s H; [done|].
  simpl. by apply IH, step_registered.
Qed.

(** X17 (one stream per user): in every state that a run of the
    pipeline can reach, each registered stream is stored under its own
    stream id, has passed validation, and is the session recorded for
    its user; so no user has two registered streams. *)
Theorem X17_every_registered_stream_is_valid_and_its_users_only_one
    bufferSize max tr :
  let s := run tr (create bufferSize max) in
  (∀ sid st, activeStreams s !! sid = Some st →
     streamId st = sid ∧ acceptable st
     ∧ userSessions s !! userId st = Some sid)
  ∧ (∀ sid1 sid2 st1 st2,
       activeStreams s !! sid1 = Some st1 →
       activeStreams s !! sid2 = Some st2 →
       userId st1 = userId st2 → sid1 = sid2).
Proof.
  intros s.
  assert (H : registered_ok s).
  { apply run_registered. by intros sid st ?. }
  split; [exact H|].
  intros sid1 sid2 st1 st2 H1 H2 Heq.
  destruct (H _ _ H1) as (_ & _ & Hs1).
  destruct (H _ _ H2) as (_ & _ & Hs2). congruence.
Qed.

(** X17 at a user who registers a second stream. *)
Lemma X17_witness :
  let stream sid :=
    {| streamId := sid; userId := "u1";
       config := Some {| resolution := Some {| res_width := 1280;
                                               res_height := 720 |};
                         frameRate := 30; bitrate := 1;
                         audioEnabled := false |};
       frames := Some [frame_at 1] |} in
  let s := run [(0, AddVideoStream (stream "s1"));
                (1, AddVideoStream (stream "s2"))] (create 30 5) in
  userSessions s !! "u1" = Some "s2".
Proof.
  intros stream s.
  refine (proj2 (proj2 (proj1
            (X17_every_registered_stream_is_valid_and_its_users_only_one 30 5
               [(0, AddVideoStream (stream "s1"));
                (1, AddVideoStream (stream "s2"))])
            "s2" (stream "s2") _))).
  vm_compute. reflexivity.
Defined.

(** *** A user who registers again *)

(** The stream has no buffer, no job in the queue, and is not being
    processed. *)
Definition gone sid s : Prop :=
  StreamBuffer.buffers (buffer s) !! sid = None
  ∧ Js.ohas sid (processingQueue (processor s)) = false
  ∧ sid ∉ activeProcessing (processor s).

Lemma gone_emit x e s : gone x s → gone x (emit e s).
Proof. done. Qed.

Lemma gone_set_sessions x a u s : gone x s → gone x (set_sessions a u s).
Proof. done. Qed.

Lemma loop_head_absent x p now s :
  StreamBuffer.buffers (buffer s) !! x = None →
  StreamBuffer.buffers (buffer (loop_head p now s).2) !! x = None.
Proof.
  intros Hx. unfold loop_head, settle, StreamBuffer.getFrames.
  destruct (isProcessing (processor s)); [|done].
  destruct (StreamBuffer.buffers (buffer s) !! pass_streamId p) as [l|] eqn:E;
    [|done].
  destruct (Js.len l =? 0); [done|].
  destruct (Js.splice0 _ l) as [fs rest]. cbv zeta.
  assert (Hins : StreamBuffer.buffers
                   (StreamBuffer.with_buffers (buffer s)
                      (<[pass_streamId p := rest]>
                         (StreamBuffer.buffers (buffer s)))) !! x = None).
  { simpl. rewrite lookup_insert_ne; [done|]. intros Heq. congruence. }
  by destruct (Js.len fs =? 0).
Qed.

Lemma processNextBatch_absent x now s :
  StreamBuffer.buffers (buffer s) !! x = None →
  StreamBuffer.buffers (buffer (processNextBatch now s)) !! x = None.
Proof.
  intros Hx. unfold processNextBatch. destruct (negb _ || _); [done|].
  destruct (getNextProcessingJob s) as [job|]; [|done].
  unfold processStream.
  match goal with |- context [loop_head ?p now ?t] =>
    pose proof (loop_head_absent x p now t Hx) as Hb;
    destruct (loop_head p now t) as [p' s2] end.
  exact Hb.
Qed.

Lemma isEmpty_absent x b :
  StreamBuffer.buffers b !! x = None → StreamBuffer.isEmpty x b = true.
Proof.
  intros H. unfold StreamBuffer.isEmpty, StreamBuffer.getBufferSize.
  by rewrite H.
Qed.

Lemma processNextBatch_gone x now s :
  gone x s → gone x (processNextBatch now s).
Proof.
  intros (Hb & Hq & Ha). split; [by apply processNextBatch_absent|].
  destruct (processNextBatch_admits now s) as [[-> ->]|(job & Hjob & -> & ->)];
    [done|].
  apply getNextProcessingJob_eligible in Hjob as [_ Hne].
  assert (job_streamId job ≠ x).
  { intros Heq. rewrite Heq, isEmpty_absent in Hne; done. }
  split.
  - by rewrite ohas_odelete, Hq, andb_false_r.
  - rewrite elem_of_union, elem_of_singleton. by intros [?|?].
Qed.

Lemma addStreamToQueue_gone x sid prio now s :
  sid ≠ x → gone x s → gone x (addStreamToQueue sid prio now s).
Proof.
  intros Hne (Hb & Hq & Ha). unfold addStreamToQueue.
  destruct (Js.oget sid _); [done|]. cbv zeta.
  match goal with |- context [processNextBatch now ?t] => set (s2 := t) end.
  assert (gone x s2).
  { split; [done|]. split; [|done]. unfold s2. simpl.
    by rewrite ohas_oset, Hq, bool_decide_eq_false_2. }
  destruct (_ && _); [by apply processNextBatch_gone|done].
Qed.

Lemma addFrame_gone x sid frame now s :
  sid ≠ x → gone x s → gone x (addFrame sid frame now s).2.
Proof.
  intros Hne (Hb & Hq & Ha). unfold addFrame, StreamBuffer.addFrame.
  destruct (_ <=? _).
  - destruct (StreamBuffer.handleOverflow _ _ _) as [rest evs] eqn:E.
    unfold StreamBuffer.handleOverflow in E.
    destruct (Js.splice0 _ _) as [removed rest']. injection E as <- <-.
    cbn [snd deliver foldl on_buffer_event].
    match goal with |- gone x (match ?o with _ => _ end) => destruct o end;
      (split; [|done]); simpl; by rewrite lookup_insert_ne.
  - cbn [snd]. unfold deliver. rewrite foldl_app. cbn [foldl on_buffer_event].
    match goal with |- context [foldl ?f ?t ?l] =>
      assert (Hg : gone x (foldl f t l)) end.
    { destruct (_ =? _); cbn [foldl on_buffer_event];
        (split; [|done]); simpl; by rewrite lookup_insert_ne. }
    match goal with |- context [foldl ?f ?t ?l] =>
      set (s1 := foldl f t l) in * end.
    clearbody s1.
    match goal with |- gone x (if ?c then _ else _) => destruct c end.
    + apply addStreamToQueue_gone; [done|]. exact Hg.
    + exact Hg.
Qed.

Lemma foldl_addFrame_gone x sid fs now s :
  sid ≠ x → gone x s →
  gone x (foldl (λ s frame, (addFrame sid frame now s).2) s fs).
Proof.
  intros Hne. revert s. induction fs as [|f fs IH]; intros s H; [done|].
  simpl. apply IH. by apply addFrame_gone.
Qed.

(** X18 (a user registers again): when [addVideoStream] succeeds on a
    description that carries a frame list, the stream is registered
    under its id and becomes the session of its user; the stream that
    was the user's session before, if it had another id, is no longer
    registered, has no buffer, no route, no queued job, and is not
    being processed. *)
Theorem X18_a_new_registration_replaces_the_users_previous_stream
    stream now s s' :
  is_Some (frames stream) →
  addVideoStream stream now s = Ok s' →
  activeStreams s' !! streamId stream = Some stream
  ∧ userSessions s' !! userId stream = Some (streamId stream)
  ∧ ∀ old,
      userSessions s !! userId stream = Some old →
      old ≠ "" → old ≠ streamId stream →
      activeStreams s' !! old = None
      ∧ StreamBuffer.buffers (buffer s') !! old = None
      ∧ StreamRouter.isRouted old (router s') = false
      ∧ Js.ohas old (StreamRouter.processingQueue (router s')) = false
      ∧ Js.ohas old (processingQueue (processor s')) = false
      ∧ (old ∉ activeProcessing (processor s')).
Proof.
  intros _ Hadd.
  destruct (addVideoStream_sessions _ _ _ _ Hadd) as (Ha & Hu & Hr).
  cbv zeta in Ha, Hu, Hr.
  split; [rewrite Ha; apply lookup_insert_eq|].
  split; [rewrite Hu; apply lookup_insert_eq|].
  intros old Hold Hne0 Hne. rewrite Hold in Ha, Hr.
  assert (Ht : Js.truthy old = true) by (by destruct old).
  rewrite Ht in Ha, Hr.
  destruct (handleDisconnection_sessions old now s) as (Ha1 & _ & Hr1).
  rewrite Ha1 in Ha. rewrite Hr1 in Hr.
  split.
  { rewrite Ha, lookup_insert_ne by done. apply lookup_delete_eq. }
  assert (Hg : gone old s').
  { revert Hadd. unfold addVideoStream.
    destruct (validateStream stream); [|done].
    destruct (negb _); [done|]. intros [= <-]. rewrite Hold, Ht. cbv zeta.
    apply gone_emit, foldl_addFrame_gone; [done|]. apply gone_set_sessions.
    unfold gone.
    rewrite handleDisconnection_buffer, handleDisconnection_processor.
    simpl. rewrite lookup_delete_eq, ohas_odelete, bool_decide_eq_true_2 by done.
    repeat split; try done.
    rewrite elem_of_difference, elem_of_singleton. by intros [_ ?]. }
  destruct Hg as (Hb & Hq & Hact).
  split; [done|]. rewrite Hr. unfold StreamRouter.isRouted. simpl.
  rewrite ohas_odelete, (bool_decide_eq_true_2 (old = old)) by done.
  repeat split; try done.
  apply bool_decide_eq_false.
  rewrite elem_of_difference, elem_of_singleton. by intros [_ ?].
Qed.

(** X18 at a user who registers "s2" while "s1" is their session. *)
Lemma X18_witness :
  let stream sid :=
    {| streamId := sid; userId := "u1";
       config := Some {| resolution := Some {| res_width := 1280;
                                               res_height := 720 |};
                         frameRate := 30; bitrate := 1;
                         audioEnabled := false |};
       frames := Some [frame_at 1] |} in
  let s := run [(0, AddVideoStream (stream "s1"))] (create 30 5) in
  ∃ s', addVideoStream (stream "s2") 1 s = Ok s'
        ∧ activeStreams s' !! "s1" = None
        ∧ StreamBuffer.buffers (buffer s') !! "s1" = None.
Proof.
  intros stream s.
  destruct (addVideoStream (stream "s2") 1 s) as [s'|] eqn:E;
    [|by vm_compute in E].
  exists s'. split; [done|].
  destruct (X18_a_new_registration_replaces_the_users_previous_stream
              (stream "s2") 1 s s' (mk_is_Some _ _ eq_refl) E) as (_ & _ & H).
  destruct (H "s1") as (H1 & H2 & _); [by vm_compute|done|done|].
  by split.
Defined.

(** [handleDisconnection] adds events to the log, none of them
    [stream:added]. *)
Lemma handleDisconnection_emits sid now s :
  ∃ evs, log (handleDisconnection sid now s) = log s ++ evs
         ∧ ∀ a b, StreamAdded a b ∉ evs.
Proof.
  unfold handleDisconnection, removeRoute, removeStreamFromQueue.
  unfold removeStream, StreamBuffer.removeStream.
  assert (Hb' : ∀ s', buffer s' = buffer s →
            StreamBuffer.buffers (buffer s') !! sid
            = StreamBuffer.buffers (buffer s) !! sid).
  { by intros s' ->. }
  destruct (activeStreams s !! sid); try (rewrite Hb' by done);
    destruct (StreamBuffer.buffers (buffer s) !! sid); simpl;
    rewrite <-!(assoc_L (++)); (eexists; split; [reflexivity|]);
    intros a b Hin;
    repeat (apply elem_of_cons in Hin as [Hin|Hin]; [discriminate Hin|]);
    by apply not_elem_of_nil in Hin.
Qed.

(** *** A description without a frame list

    [validateStream] only warns when [stream.frames] is missing, and
    [addVideoStream] then iterates over it. [addVideoStream_outcome] is
    the same method with the state it leaves when it throws: iterating
    over a missing frame list throws a [TypeError], after the session
    maps were written. *)

Definition addVideoStream_outcome (stream : VideoStream) (now : Z) (s : Sys)
  : Result unit * Sys :=
  match validateStream stream with
  | Throw m => (Throw m, s)
  | Ok validation =>
      if negb (isValid validation) then (Throw "Invalid stream", s)
      else
        let s1 :=
          match userSessions s !! userId stream with
          | Some existingStreamId =>
              if Js.truthy existingStreamId
              then handleDisconnection existingStreamId now s
              else s
          | None => s
          end in
        let s2 :=
          set_sessions (<[streamId stream := stream]> (activeStreams s1))
            (<[userId stream := streamId stream]> (userSessions s1)) s1 in
        match frames stream with
        | None => (Throw "TypeError: stream.frames is not iterable", s2)
        | Some fs =>
            let s3 :=
              foldl (λ s frame, (addFrame (streamId stream) frame now s).2) s2
                fs in
            (Ok tt, emit (StreamAdded (streamId stream) (userId stream)) s3)
        end
  end.

(** X22 (registration of a description without frames): on a
    description that carries a frame list, [addVideoStream] either
    throws and leaves the state as it was, or returns; on a valid
    description without a frame list it throws after the stream was
    registered and made the session of its user, and [stream:added] is
    not emitted. *)
Theorem X22_a_valid_stream_without_frames_is_registered_and_then_rejected
    stream now s :
  (∀ fs, frames stream = Some fs →
     match addVideoStream stream now s with
     | Ok s' => addVideoStream_outcome stream now s = (Ok tt, s')
     | Throw m => addVideoStream_outcome stream now s = (Throw m, s)
     end)
  ∧ (frames stream = None → acceptable stream →
     ∃ m s',
       addVideoStream_outcome stream now s = (Throw m, s')
       ∧ activeStreams s' !! streamId stream = Some stream
       ∧ userSessions s' !! userId stream = Some (streamId stream)
       ∧ (StreamAdded (streamId stream) (userId stream) ∈ log s' →
          StreamAdded (streamId stream) (userId stream) ∈ log s)).
Proof.
  split.
  - intros fs Hfs. unfold addVideoStream, addVideoStream_outcome.
    destruct (validateStream stream) as [v|m]; [|done].
    destruct (negb (isValid v)); [done|]. by rewrite Hfs.
  - intros Hnone (Hsid & Huid & c & res & Hc & Hres & Hrest).
    destruct (validateStream_config stream c res Hc Hres)
      as (v & Hv & Hvalid & _).
    assert (Hok : isValid v = true).
    { apply Hvalid. split; [done|]. split; [done|]. by exists c, res. }
    unfold addVideoStream_outcome. rewrite Hv, Hok, Hnone. cbn [negb].
    eexists _, _. split; [reflexivity|].
    cbn [activeStreams userSessions set_sessions log].
    split; [apply lookup_insert_eq|]. split; [apply lookup_insert_eq|].
    destruct (userSessions s !! userId stream) as [old|]; [|done].
    destruct (Js.truthy old); [|done].
    destruct (handleDisconnection_emits old now s) as (evs & -> & Hno).
    intros [Hin|Hin]%elem_of_app; [done|]. by apply Hno in Hin.
Qed.

(** X22 at a valid description without a frame list, on a new
    pipeline. *)
Lemma X22_witness :
  let stream :=
    {| streamId := "s1"; userId := "u1";
       config := Some {| resolution := Some {| res_width := 1280;
                                               res_height := 720 |};
                         frameRate := 30; bitrate := 1;
                         audioEnabled := false |};
       frames := None |} in
  ∃ m s',
    addVideoStream_outcome stream 0 (create 30 5) = (Throw m, s')
    ∧ activeStreams s' !! "s1" = Some stream.
Proof.
  intros stream.
  destruct (proj2 (X22_a_valid_stream_without_frames_is_registered_and_then_rejected
                     stream 0 (create 30 5)) eq_refl)
    as (m & s' & H1 & H2 & _).
  - split; [by apply blank_present|]. split; [by apply blank_present|].
    eexists _, _. split; [reflexivity|]. split; [reflexivity|].
    repeat split; done.
  - by exists m, s'.
Defined.

End Sessions.

(** *** [routeToProcessor]

    The events of the rule table and the service's [stream:route],
    which [Pipeline.Event] does not list, are returned beside the
    state, in emission order; [stream:error] goes to the log. The
    method has no [await]: its body runs in one turn, and a [throw]
    rejects the promise it returns. *)

Module Ingestion.
Import Pipeline.

Inductive Event :=
| Rule (e : RoutingRules.Event)
| StreamRoute (streamId : string) (timestamp : Z).

Definition routeToProcessor (rules : Js.omap RoutingRules.Rule)
    (sid : string) (now : Z) (s : Sys) : Result unit * Sys * list Event :=
  match activeStreams s !! sid with
  | None => (Throw "Stream not found", s, [])
  | Some stream =>
      let '(ok, evs) := RoutingRules.shouldRoute rules stream in
      if ok then
        let s1 := routeToAI sid 1 now s in
        let s2 := addStreamToQueue sid 1 now s1 in
        (Ok tt, s2, (Rule <$> evs) ++ [StreamRoute sid now])
      else
        (Throw "Stream failed routing rules", emit (StreamError sid) s,
         Rule <$> evs)
  end.

End Ingestion.

Section Routing.
Import StreamProcessor Pipeline Ingestion.
Implicit Types (s : Sys) (sid : string) (now : Z).

Lemma routeToAI_router sid prio now s :
  router (routeToAI sid prio now s)
  = StreamRouter.routeToAI_set sid prio (router s).
Proof. unfold routeToAI. simpl. by rewrite addStreamToQueue_router. Qed.

Lemma routeToAI_outer sid prio now s :
  activeStreams (routeToAI sid prio now s) = activeStreams s
  ∧ userSessions (routeToAI sid prio now s) = userSessions s.
Proof. exact (step_sessions now (RouteToAI sid prio) s). Qed.

(** X19 (routing a registered stream): [routeToProcessor] throws for a
    stream that is not registered and changes nothing; it throws for a
    registered stream that the rules reject, after one rule event and
    one [stream:error], and changes nothing but the log; otherwise it
    returns, and the stream is then routed with priority 1 in the
    router, whatever its priority there was before, is queued or being
    processed in the coordinator, with a job priority of at least 1 if
    it is queued, and [stream:route] was emitted. *)
Theorem X19_routeToProcessor_routes_registered_streams_that_pass_the_rules
    rules sid now s :
  match activeStreams s !! sid with
  | None => routeToProcessor rules sid now s = (Throw "Stream not found", s, [])
  | Some stream =>
      let '(outcome, s', evs) := routeToProcessor rules sid now s in
      if (RoutingRules.shouldRoute rules stream).1 then
        outcome = Ok tt
        ∧ evs = [StreamRoute sid now]
        ∧ StreamRouter.isRouted sid (router s') = true
        ∧ Js.oget sid (StreamRouter.processingQueue (router s')) = Some 1
        ∧ known sid s'
        ∧ (∀ r job, job_of sid (processor s') = Some (r, job) →
                    1 <= priority job)
        ∧ activeStreams s' = activeStreams s
        ∧ userSessions s' = userSessions s
      else
        outcome = Throw "Stream failed routing rules"
        ∧ s' = emit (StreamError sid) s
        ∧ ∃ name,
            evs = [Rule (RoutingRules.RuleFailed (streamId stream) name)]
            ∨ evs = [Rule (RoutingRules.RuleError (streamId stream) name)]
  end.
Proof.
  unfold routeToProcessor.
  destruct (activeStreams s !! sid) as [stream|]; [|done].
  pose proof (shouldRoute_events rules stream) as Hev.
  destruct (RoutingRules.shouldRoute rules stream) as [[|] evs]; cbn [fst].
  - subst evs. cbv zeta.
    set (s1 := routeToAI sid 1 now s).
    pose proof (routeToAI_router sid 1 now s) as Hr1.
    destruct (routeToAI_outer sid 1 now s) as [Ha1 Hu1].
    fold s1 in Hr1, Ha1, Hu1. clearbody s1.
    pose proof (addStreamToQueue_router sid 1 now s1) as Hr2.
    pose proof (addStreamToQueue_outer sid 1 now s1) as Ho2.
    apply outer_inv in Ho2 as (_ & Ha2 & Hu2).
    pose proof (addStreamToQueue_known sid 1 now s1) as Hk.
    pose proof (addStreamToQueue_job sid 1 now s1) as Hj.
    set (s2 := addStreamToQueue sid 1 now s1) in *. clearbody s2.
    rewrite Hr2, Hr1, Ha2, Ha1, Hu2, Hu1.
    split; [done|]. split; [done|]. split.
    { unfold StreamRouter.isRouted. apply bool_decide_eq_true. simpl.
      apply elem_of_union_l. by apply elem_of_singleton. }
    split; [apply oget_oset_eq|]. split; [done|]. split; [|done].
    intros r job Hjob. by destruct (Hj r job Hjob).
  - destruct Hev as (name & _ & [->| ->]); (split; [done|]); (split; [done|]);
      exists name; [by left|by right].
Qed.

(** X19 at a registered stream with one frame, under the default
    rules. *)
Lemma X19_witness :
  let stream :=
    {| streamId := "s1"; userId := "u1";
       config := Some {| resolution := Some {| res_width := 1280;
                                               res_height := 720 |};
                         frameRate := 30; bitrate := 1;
                         audioEnabled := false |};
       frames := Some [frame_at 1] |} in
  let s := run [(0, AddVideoStream stream)] (create 30 5) in
  StreamRouter.isRouted "s1"
    (router (routeToProcessor RoutingRules.create "s1" 1 s).1.2) = true.
Proof.
  intros stream s.
  pose proof (X19_routeToProcessor_routes_registered_streams_that_pass_the_rules
                RoutingRules.create "s1" 1 s) as H.
  change (activeStreams s !! "s1") with (Some stream) in H.
  destruct (routeToProcessor RoutingRules.create "s1" 1 s) as [[outcome s'] evs].
  change (RoutingRules.shouldRoute RoutingRules.create stream).1 with true in H.
  exact (proj1 (proj2 (proj2 H))).
Defined.

End Routing.

(** ** Isolation of streams in the buffer *)

Section Isolation.
Import StreamBuffer.
Implicit Types (b : StreamBuffer.t) (sid : string).

(** The stream an event is about. *)
Definition event_stream (e : Event) : string :=
  match e with
  | HighWater sid _ | LowWater sid _ | FrameAdded sid _ _
  | FrameRetrieved sid _ _ | FramesRetrieved sid _ _ | Overflow sid _ _
  | Cleared sid _ | Removed sid _ => sid
  end.

(** X20 (isolation): a call on the buffer leaves the arrays of all the
    other streams as they are, entries included, never changes the
    capacity or the two water marks, and emits events about its own
    stream only. *)
Theorem X20_a_buffer_call_touches_its_own_stream_only c b :
  let '(_, b', evs) := call c b in
  (∀ sid, sid ≠ call_stream c → buffers b' !! sid = buffers b !! sid)
  ∧ maxBufferSize b' = maxBufferSize b
  ∧ lowWaterMark b' = lowWaterMark b
  ∧ highWaterMark b' = highWaterMark b
  ∧ ∀ e, e ∈ evs → event_stream e = call_stream c.
Proof.
  assert (Hone : ∀ (e0 : Event) sid, event_stream e0 = sid →
                   ∀ e, e ∈ [e0] → event_stream e = sid).
  { by intros e0 sid H e ->%list_elem_of_singleton. }
  assert (Hnil : ∀ sid e, e ∈ @nil Event → event_stream e = sid).
  { by intros sid e ?%not_elem_of_nil. }
  destruct c as [sid0 frame|sid0|sid0 count|sid0|sid0]; cbn [call call_stream].
  - unfold addFrame, handleOverflow. destruct (_ <=? _).
    + destruct (Js.splice0 _ _) as [removed rest]. cbn [buffers with_buffers].
      repeat split; try done; [|by apply Hone].
      intros sid Hne. by rewrite lookup_insert_ne.
    + cbn [buffers with_buffers]. repeat split; try done.
      * intros sid Hne. by rewrite lookup_insert_ne.
      * intros e [He|He]%elem_of_app; [|by eapply Hone; [|exact He]].
        destruct (_ =? _); [by eapply Hone; [|exact He]|by eapply Hnil].
  - unfold getNextFrame.
    destruct (buffers b !! sid0) as [[|frame rest]|]; cbn [Js.shift option_list];
      try (repeat split; try done; by apply Hnil).
    cbn [buffers with_buffers]. repeat split; try done.
    + intros sid Hne. by rewrite lookup_insert_ne.
    + intros e [He|He]%elem_of_app; [|by eapply Hone; [|exact He]].
      destruct (_ =? _); [by eapply Hone; [|exact He]|by eapply Hnil].
  - unfold getFrames.
    destruct (buffers b !! sid0) as [l|];
      [|repeat split; try done; by apply Hnil].
    destruct (Js.len l =? 0); [repeat split; try done; by apply Hnil|].
    destruct (Js.splice0 _ _) as [out rest]. cbn [buffers with_buffers].
    repeat split; try done; [|by apply Hone].
    intros sid Hne. by rewrite lookup_insert_ne.
  - unfold clearBuffer.
    destruct (buffers b !! sid0) as [l|];
      [|repeat split; try done; by apply Hnil].
    cbn [buffers with_buffers]. repeat split; try done; [|by apply Hone].
    intros sid Hne. by rewrite lookup_insert_ne.
  - unfold removeStream.
    destruct (buffers b !! sid0) as [l|];
      [|repeat split; try done; by apply Hnil].
    cbn [buffers with_buffers]. repeat split; try done; [|by apply Hone].
    intros sid Hne. by rewrite lookup_delete_ne.
Qed.

(** X20 at a drain of "s1" beside a stream "s2". *)
Lemma X20_witness :
  let b := (run (pushes "s1" 3 ++ pushes "s2" 2) (create 30)).1.2 in
  buffers (call (GetFrames "s1" 5) b).1.2 !! "s2" = buffers b !! "s2".
Proof.
  intros b.
  pose proof (X20_a_buffer_call_touches_its_own_stream_only
                (GetFrames "s1" 5) b) as H.
  destruct (call (GetFrames "s1" 5) b) as [[out b'] evs].
  exact (proj1 H "s2" ltac:(discriminate)).
Defined.

End Isolation.

(** ** The coordinator keeps going *)

Section KeepAlive.
Import StreamProcessor Pipeline.
Implicit Types (s : Sys) (sid : string) (now : Z).

(** Every stream marked active has a suspended pass, which will take
    the mark away when it finishes. *)
Definition covered s : Prop :=
  ∀ sid, sid ∈ activeProcessing (processor s) →
    ∃ p, p ∈ passes (processor s) ∧ pass_streamId p = sid.

(** A started coordinator that may process at least one stream has
    something left to run: a callback or a suspended pass. *)
Definition pending s : Prop :=
  isProcessing (processor s) = true →
  0 < maxConcurrentStreams (processor s) →
  tasks (processor s) ≠ [] ∨ passes (processor s) ≠ [].

Definition alive s : Prop := covered s ∧ pending s.

(** What [alive] reads. *)
Definition liveness_view s :=
  let pr := processor s in
  (activeProcessing pr, passes pr, tasks pr, isProcessing pr,
   maxConcurrentStreams pr).

Lemma alive_view s s' : liveness_view s' = liveness_view s → alive s → alive s'.
Proof.
  unfold alive, covered, pending, liveness_view.
  by intros [= -> -> -> -> ->].
Qed.

Lemma covered_same s s' :
  activeProcessing (processor s') = activeProcessing (processor s) →
  passes (processor s') = passes (processor s) →
  covered s → covered s'.
Proof. unfold covered. by intros -> ->. Qed.

Lemma loop_head_view p now s :
  liveness_view (loop_head p now s).2 = liveness_view s.
Proof. unfold loop_head. unfold_pass. by repeat case_match. Qed.

Lemma processNextBatch_alive now s : covered s → alive (processNextBatch now s).
Proof.
  intros Hc. unfold processNextBatch.
  destruct (negb (isProcessing (processor s))) eqn:Hp; cbn [orb].
  { split; [done|]. intros Ht. rewrite Ht in Hp. done. }
  destruct (Z.leb_spec (maxConcurrentStreams (processor s))
              (Z.of_nat (size (activeProcessing (processor s))))) as [Hle|Hlt].
  { split; [done|]. intros _ Hmax. right.
    destruct (size_pos_elem_of (activeProcessing (processor s))) as [x Hx];
      [lia|].
    destruct (Hc x Hx) as (p & Hin & _). intros Hnil. rewrite Hnil in Hin.
    by apply not_elem_of_nil in Hin. }
  destruct (getNextProcessingJob s) as [job|].
  - unfold processStream.
    match goal with |- context [loop_head ?p now ?t] =>
      pose proof (loop_head_view p now t) as Hv;
      pose proof (loop_head_sched p now t) as [Hsid _];
      destruct (loop_head p now t) as [p' s2] end.
    cbn [fst snd] in Hv, Hsid. unfold liveness_view in Hv.
    injection Hv as Ha Hps _ _ _. cbn in Ha, Hps, Hsid.
    split.
    + intros x Hx. cbn in Hx |- *. rewrite Ha in Hx. rewrite Hps.
      apply elem_of_union in Hx as [->%elem_of_singleton|Hx].
      * exists p'. split; [|done]. apply elem_of_app. right. by left.
      * destruct (Hc x Hx) as (q & Hq & Hqs). exists q. split; [|done].
        apply elem_of_app. by left.
    + intros _ _. right. cbn. by destruct (passes (processor s2)).
  - split; [done|]. intros _ _. left. cbn.
    by destruct (tasks (processor s)).
Qed.

Lemma addStreamToQueue_alive sid prio now s :
  alive s → alive (addStreamToQueue sid prio now s).
Proof.
  intros H. unfold addStreamToQueue.
  destruct (Js.oget sid _); [by apply (alive_view s)|].
  cbv zeta.
  match goal with |- context [processNextBatch now ?t] => set (s2 := t) end.
  assert (alive s2) as [Hc2 Hp2] by (by apply (alive_view s)).
  destruct (_ && _); [by apply processNextBatch_alive|done].
Qed.

Lemma on_buffer_event_alive e now s : alive s → alive (on_buffer_event e now s).
Proof.
  intros H. destruct e; simpl; try done.
  - destruct (_ && _); [by apply addStreamToQueue_alive|done].
  - destruct (Js.oget _ _); [|done]. by apply (alive_view s).
Qed.

Lemma deliver_alive evs now s : alive s → alive (deliver evs now s).
Proof.
  revert s. induction evs as [|e evs IH]; intros s H; [done|].
  simpl. apply IH, on_buffer_event_alive. by apply (alive_view s).
Qed.

Lemma addFrame_alive sid frame now s :
  alive s → alive (addFrame sid frame now s).2.
Proof.
  intros H. unfold addFrame.
  destruct (StreamBuffer.addFrame _ _ _) as [[r b'] evs].
  apply deliver_alive. by apply (alive_view s).
Qed.

Lemma foldl_addFrame_alive sid fs now s :
  alive s → alive (foldl (λ s frame, (addFrame sid frame now s).2) s fs).
Proof.
  revert s. induction fs as [|f fs IH]; intros s H; [done|].
  simpl. apply IH. by apply addFrame_alive.
Qed.

(** Taking a stream out of the active set, or nothing at all. *)
Lemma alive_release s s' sid :
  activeProcessing (processor s') = activeProcessing (processor s) ∖ {[sid]} →
  passes (processor s') = passes (processor s) →
  tasks (processor s') = tasks (processor s) →
  isProcessing (processor s') = isProcessing (processor s) →
  maxConcurrentStreams (processor s') = maxConcurrentStreams (processor s) →
  alive s → alive s'.
Proof.
  intros Ha Hps Ht Hi Hm [Hc Hp]. split.
  - intros x Hx. rewrite Ha in Hx. rewrite Hps.
    apply elem_of_difference in Hx as [Hx _]. by apply Hc.
  - unfold pending. by rewrite Hi, Hm, Ht, Hps.
Qed.

Lemma handleDisconnection_alive sid now s :
  alive s → alive (handleDisconnection sid now s).
Proof.
  intros H. apply (alive_release s _ sid); try done;
    by rewrite handleDisconnection_processor.
Qed.

(** The pass at index [i] goes on under the same stream. *)
Lemma alive_replace i p p' s s1 :
  passes (processor s) !! i = Some p →
  pass_streamId p' = pass_streamId p →
  liveness_view s1 = liveness_view s →
  alive s →
  alive (upd_processor (λ pr, set_passes (<[i := p']> (passes pr)) pr) s1).
Proof.
  intros Hi Hsid Hv [Hc Hp]. unfold liveness_view in Hv.
  injection Hv as Ha Hps Ht Hpr Hm. split.
  - intros x Hx. cbn in Hx |- *. rewrite Ha in Hx. rewrite Hps.
    destruct (Hc x Hx) as (q & Hq & Hqs).
    apply list_elem_of_lookup in Hq as [j Hj].
    destruct (decide (j = i)) as [->|Hne].
    + exists p'. split; [|congruence].
      eapply list_elem_of_lookup_2.
      apply list_lookup_insert_eq. by eapply lookup_lt_Some.
    + exists q. split; [|done].
      eapply list_elem_of_lookup_2. by rewrite list_lookup_insert_ne.
  - unfold pending. cbn. rewrite Hpr, Hm, Ht, Hps. intros H1 H2.
    destruct (Hp H1 H2) as [?|Hne]; [by left|right].
    intros Hnil. apply (f_equal length) in Hnil.
    rewrite length_insert in Hnil.
    by destruct (passes (processor s)).
Qed.

Lemma step_alive now a s : alive s → alive (step now a s).
Proof.
  intros H. destruct a; cbn [step].
  - by apply addFrame_alive.
  - unfold getNextFrame.
    destruct (StreamBuffer.getNextFrame _ _) as [[r b'] evs].
    apply deliver_alive. by apply (alive_view s).
  - unfold getFrames.
    destruct (StreamBuffer.getFrames _ _ _) as [[r b'] evs].
    apply deliver_alive. by apply (alive_view s).
  - unfold clearBuffer. destruct (StreamBuffer.clearBuffer _ _) as [b' evs].
    apply deliver_alive. by apply (alive_view s).
  - unfold removeStream. destruct (StreamBuffer.removeStream _ _) as [b' evs].
    apply deliver_alive. by apply (alive_view s).
  - unfold routeToAI. cbv zeta.
    match goal with |- alive (emits _ ?t) => apply (alive_view t); [done|] end.
    apply addStreamToQueue_alive. by apply (alive_view s).
  - by apply (alive_release s _ sid).
  - unfold start. destruct (isProcessing _); [done|].
    match goal with |- alive (emit _ ?t) => apply (alive_view t); [done|] end.
    apply processNextBatch_alive. apply (covered_same s); [done|done|apply H].
  - split; [|done]. intros x Hx. cbn in Hx. by apply not_elem_of_empty in Hx.
  - by apply addStreamToQueue_alive.
  - by apply (alive_release s _ sid).
  - unfold addVideoStream. destruct (validateStream stream); [|done].
    destruct (negb _); [done|].
    match goal with |- alive (emit _ ?t) => apply (alive_view t); [done|] end.
    apply foldl_addFrame_alive.
    match goal with |- alive (set_sessions _ _ ?t) =>
      apply (alive_view t); [done|] end.
    destruct (userSessions s !! userId stream) as [existing|]; [|done].
    destruct (Js.truthy existing); [|done].
    by apply handleDisconnection_alive.
  - by apply handleDisconnection_alive.
  - unfold batchDone.
    destruct (passes _ !! i) as [p|] eqn:Hi; [|done].
    destruct (point p); try done.
    destruct ok; cbv zeta beta iota;
      match goal with |- alive (emits _ ?t) =>
        apply (alive_view t); [done|] end;
      by apply (alive_replace i p _ s).
  - unfold yieldDone.
    destruct (passes _ !! i) as [p|] eqn:Hi; [|done].
    destruct (point p); try done.
    pose proof (loop_head_view p now s) as Hv.
    pose proof (loop_head_sched p now s) as [Hsid _].
    destruct (loop_head p now s) as [p' s1].
    by apply (alive_replace i p _ s).
  - unfold passThrows.
    destruct (passes _ !! i) as [p|] eqn:Hi; [|done].
    destruct (point p); try done; by apply (alive_replace i p _ s).
  - unfold passFinish.
    destruct (passes _ !! i) as [p|] eqn:Hi; [|done].
    destruct (point p) as [| |threw]; try done.
    set (s1 := if threw then handleProcessingError (pass_streamId p) s else s).
    assert (Hs1 : activeProcessing (processor s1) = activeProcessing (processor s)
                  ∧ passes (processor s1) = passes (processor s)).
    { unfold s1. destruct threw; [|done].
      split; [apply handleProcessingError_frame
             |apply handleProcessingError_passes]. }
    destruct Hs1 as [Ha1 Hp1]. clearbody s1. destruct H as [Hc _]. split.
    + intros x Hx. cbn in Hx |- *. rewrite Ha1 in Hx. rewrite Hp1.
      apply elem_of_difference in Hx as [Hx Hne].
      destruct (Hc x Hx) as (q & Hq & Hqs). exists q. split; [|done].
      apply list_elem_of_lookup in Hq as [j Hj].
      assert (j ≠ i).
      { intros ->. rewrite Hi in Hj. injection Hj as <-.
        apply Hne. by apply elem_of_singleton. }
      destruct (decide (j < i)%nat).
      * eapply list_elem_of_lookup_2. by rewrite list_lookup_delete_lt.
      * destruct j as [|j]; [lia|].
        eapply (list_elem_of_lookup_2 _ j).
        rewrite list_lookup_delete_ge by lia. exact Hj.
    + intros _ _. left. cbn. by destruct (tasks (processor s1)).
  - unfold fire.
    destruct (tasks _ !! k) as [[| |sid r d]|] eqn:Hk; [..|done];
      apply processNextBatch_alive; (apply (covered_same s); [done|done|apply H]).
Qed.

Lemma run_alive tr s : alive s → alive (run tr s).
Proof.
  revert s. induction tr as [|[now a] tr IH]; intros s H; [done|].
  simpl. by apply IH, step_alive.
Qed.

(** X21 (the coordinator does not stall): in every state that a run of
    the pipeline can reach, each stream that is marked as being
    processed has a suspended pass, whose end will take the mark away;
    and a coordinator that is started and allowed at least one
    concurrent stream always has a callback or a suspended pass left to
    run, so that its polling never stops on its own. *)
Theorem X21_a_started_coordinator_always_has_something_left_to_run
    bufferSize max tr :
  let pr := processor (run tr (create bufferSize max)) in
  (∀ sid, sid ∈ activeProcessing pr →
          ∃ p, p ∈ passes pr ∧ pass_streamId p = sid)
  ∧ (isProcessing pr = true → 0 < max → tasks pr ≠ [] ∨ passes pr ≠ []).
Proof.
  assert (H : alive (run tr (create bufferSize max))).
  { apply run_alive. split; [|done].
    intros x Hx. cbn in Hx. by apply not_elem_of_empty in Hx. }
  destruct H as [Hc Hp]. cbv zeta. split; [exact Hc|].
  intros Hi Hpos. apply Hp; [done|].
  assert (Hm : ceiling max (run tr (create bufferSize max))).
  { apply run_ceiling. split; [done|].
    change (Z.of_nat (size (∅ : gset string)) <= max).
    rewrite size_empty. lia. }
  destruct Hm as [-> _]. done.
Qed.

(** X21 at a started pipeline that has nothing to process: the poll
    timer is pending. *)
Lemma X21_witness :
  tasks (processor (run [(0, Start)] (create 30 5))) ≠ []
  ∨ passes (processor (run [(0, Start)] (create 30 5))) ≠ [].
Proof.
  exact (proj2 (X21_a_started_coordinator_always_has_something_left_to_run
                  30 5 [(0, Start)]) eq_refl eq_refl).
Defined.

End KeepAlive.
